(** * VisualSPHysics foam simulator: DiffuseCalculator

    A shallow embedding of [src/foamsimulator/DiffuseCalculator.cpp]
    (the clamping function, the kernels, the pair functions, the driver
    loop and the stages 1 to 11 of [DiffuseCalculator::runSimulation])
    together with the properties of the diffuse-particle engine that are
    stated about it.  Stages 4 to 11 work on a snapshot ([Frame]) that
    holds the arrays [Ita] and [waveCrest] as stages 1 to 3 leave them;
    [snapshot] builds it from the three passes.

    Number model.  A C++ [double] is modelled as a real number ([R]):
    [+ - * /], [sqrt], [cos], [sin], [fmin] and [std::floor] are the exact
    real operations, so rounding, infinities and NaN are outside the model.
    A division agrees with the program only when its divisor is not 0
    (the program gets an infinity or a NaN there): statements that reach
    a division carry the hypotheses that keep the divisor away from 0.
    [int] and [long] values are integers ([Z]); where the program narrows a
    [long] into an [int] the two's-complement wrap-around is written out;
    where it converts a [double] to an [int] the model is the conversion
    of a value that fits ([fits_int]), and statements about such values
    carry that range.

    Threads.  The loops under [#pragma omp parallel for] are embedded in
    the order of one thread.  For the passes 1 to 3 and the stages 4, 5,
    7 and 8 every iteration writes only its own array entries, so the
    order does not matter.  The spawner (stage 6) increments the shared
    variables [idif] and [difId] without synchronisation: with more than
    one thread this is a data race, and [spawn] is the program as one
    thread executes it. *)

From Stdlib Require Import Reals Lra Lia ZArith List Bool Permutation.
Import ListNotations.
Open Scope R_scope.

(** ** Comparisons of doubles as booleans *)

Definition dlt (a b : R) : bool := if Rlt_dec a b then true else false.
Definition dle (a b : R) : bool := if Rle_dec a b then true else false.
Definition dgt (a b : R) : bool := dlt b a.
Definition dge (a b : R) : bool := dle b a.
Definition dne (a b : R) : bool := if Req_dec_T a b then false else true.

(** ** Integers *)

(** Narrowing of a [long] to an [int] (two's complement, 32 bits). *)
Definition wrap32 (z : Z) : Z :=
  ((z + 2147483648) mod 4294967296 - 2147483648)%Z.

(** The values of an [int]. *)
Definition fits_int (z : Z) : Prop := (-2147483648 <= z < 2147483648)%Z.

(** [std::floor] of a double, stored in an [int] (line 398).  This is
    the stored value when the floor is a value of an [int]
    ([fits_int (floor_int x)]); for other doubles the conversion has no
    defined result. *)
Definition floor_int (x : R) : Z := Int_part x.

(** Conversion of a double to an [int] (line 491): truncation towards
    zero.  As for [floor_int], this is the result when it is a value of an
    [int] ([fits_int (trunc_int x)]). *)
Definition trunc_int (x : R) : Z :=
  if dlt x 0 then (- Int_part (- x))%Z else Int_part x.

(** ** Arrays: [std::vector] read and written by index *)

(** [arr[i] = x].  An index past the end leaves the list as it is (the
    C++ program has undefined behaviour there). *)
Fixpoint write {A : Type} (arr : list A) (i : nat) (x : A) : list A :=
  match arr, i with
  | [], _ => []
  | _ :: rest, O => x :: rest
  | a :: rest, S i' => a :: write rest i' x
  end.

(** ** 3-vectors: [std::array<double, 3>] *)

Record vec3 : Type := V3 { at0 : R; at1 : R; at2 : R }.

Module ops.

(** Modelled from the spec: [Ops.h] (namespace [ops]) is not part of the
    sources at hand.  Section 4.1 of the specification gives the
    operations: component-wise subtract, dot product, magnitude
    [sqrt (x^2 + y^2 + z^2)] and normalize (divide by the magnitude). *)
Definition substract (a b : vec3) : vec3 :=
  V3 (at0 a - at0 b) (at1 a - at1 b) (at2 a - at2 b).

Definition dotProduct (a b : vec3) : R :=
  at0 a * at0 b + at1 a * at1 b + at2 a * at2 b.

Definition magnitude (a : vec3) : R :=
  sqrt (at0 a * at0 a + at1 a * at1 a + at2 a * at2 a).

Definition normalize (a : vec3) : vec3 :=
  V3 (at0 a / magnitude a) (at1 a / magnitude a) (at2 a / magnitude a).

(** Modelled from the spec: [ops::distanceVector] is the unit vector of
    the difference (section 4.2 writes the two factors of the trapped-air
    term with hats; stage 1 computes the same vector in place under the
    comment "Distance vector", lines 260-263). *)
Definition distanceVector (a b : vec3) : vec3 := normalize (substract a b).

End ops.

(** ** Clamping function and kernels *)

(** [DiffuseCalculator::phi]; [fmin] is [Rmin]. *)
Definition phi (I tmin tmax : R) : R :=
  (Rmin I tmax - Rmin I tmin) / (tmax - tmin).

(** [DiffuseCalculator::W] *)
Definition W (xij : vec3) (h : R) : R :=
  let mxij := ops.magnitude xij in
  if dle mxij h then 1 - (mxij / h) else 0.

(** [DiffuseCalculator::Wwendland] *)
Definition Wwendland (xij : vec3) (h : R) : R :=
  let mxij := ops.magnitude xij in
  let q := mxij / h in
  if dge q 0 && dle q 2 then
    let ad := 21 / (16 * PI * h * h * h) in
    let e1 := 1 - (q / 2) in
    ad * e1 * e1 * e1 * e1 * (2 * q + 1)
  else 0.

(** [DiffuseCalculator::solveEq] *)
Definition solveEq (px py pz vx vy vz x y : R) : R :=
  ((- (x - px) * vx - (y - py) * vy) / vz) + pz.

(** [DiffuseCalculator::Wpoly6]; [pow] with an integer exponent. *)
Definition Wpoly6 (xij : vec3) (h : R) : R :=
  let mxij := ops.magnitude xij in
  if dge mxij 0 && dle mxij h then
    (315 / (64 * PI * h ^ 9)) * (h * h - mxij * mxij) ^ 3
  else 0.

(** [DiffuseCalculator::vdiff2p].  The two unit vectors are quotients by
    the lengths of [vi - vj] and [xi - xj]: the value is that of the
    program when [vi <> vj] and [xi <> xj]. *)
Definition vdiff2p (vi vj xi xj : vec3) (h : R) : R :=
  let e1 := ops.magnitude (ops.substract vi vj) in
  let e2 := 1 - ops.dotProduct (ops.distanceVector vi vj)
                               (ops.distanceVector xi xj) in
  let e3 := W (ops.substract xi xj) h in
  e1 * e2 * e3.

(** [DiffuseCalculator::colorField2p] *)
Definition colorField2p (xi xj : vec3) (h mj pj : R) : R :=
  (mj / pj) * Wwendland (ops.substract xi xj) h.

(** [DiffuseCalculator::gradient2p] *)
Definition gradient2p (xi xj : vec3) (h csi csj : R) : vec3 :=
  let wval := Wwendland (ops.substract xi xj) h in
  V3 (wval * csj * (at0 xi - at0 xj))
     (wval * csj * (at1 xi - at1 xj))
     (wval * csj * (at2 xi - at2 xj)).

(** [DiffuseCalculator::curvature2p] *)
Definition curvature2p (xi xj ni nj : vec3) (h : R) : R :=
  let e1 := 1 - ops.dotProduct (ops.normalize ni) (ops.normalize nj) in
  let e2 := W (ops.substract xi xj) h in
  e1 * e2.

(** [DiffuseCalculator::crests2p] *)
Definition crests2p (xi xj vi ni nj : vec3) (h : R) : R :=
  let xji := ops.distanceVector xj xi in
  let nni := ops.normalize ni in
  let nvi := ops.normalize vi in
  if dlt (ops.dotProduct xji nni) 0 && dge (ops.dotProduct nvi nni) 0.6
  then curvature2p xi xj ni nj h
  else 0.

(** ** Data model *)

(** [TimeOut]: one entry of the time-step schedule. *)
Record TimeOut : Type := mkTimeOut { nstep : Z; tout : R }.

(** [SimulationParams], with the fields the Python binding
    ([diffuseparticlesmodule.cpp]) fills in; the paths and the zero padding
    of the file names are left out.  [timesteps] stands for the pointer
    [sp.timesteps] together with its length [sp.ntimesteps]. *)
Record SimulationParams : Type := mkParams {
  nstart : Z; nend : Z;
  text_files : bool; vtk_diffuse_data : bool;
  h : R; mass : R;
  MINX : R; MINY : R; MINZ : R; MAXX : R; MAXY : R; MAXZ : R;
  MINTA : R; MAXTA : R; MINWC : R; MAXWC : R; MINK : R; MAXK : R;
  KTA : R; KWC : R; SPRAY : R; BUBBLES : R; LIFEFIME : R;
  KB : R; KD : R;
  timesteps : list TimeOut
}.

Definition ntimesteps (sp : SimulationParams) : nat := length (timesteps sp).

(** A fluid [particle] of the bucket container: [id], [pos], [vel],
    [rhop]. *)
Record particle : Type := mkParticle {
  p_id : Z; p_pos : vec3; p_vel : vec3; p_rhop : R
}.

(** One loaded snapshot, as [runSimulation] uses it from stage 4 on.
    [buckets] is [f.getNoEmptyBuckets()] (the particle list of each
    bucket); [getSurroundingBuckets] gives the particles of the buckets
    around a point, in the order the loops visit them; [Ita_acc] and
    [waveCrest_acc] are the arrays [Ita] and [waveCrest] as stages 1 to 3
    leave them; [tempRand] is the array of uniform draws. *)
Record Frame : Type := mkFrame {
  npoints : nat;
  buckets : list (list particle);
  getSurroundingBuckets : vec3 -> list particle;
  Ita_acc : list R;
  waveCrest_acc : list R;
  tempRand : nat -> R
}.

(** A diffuse particle.  The program keeps five vectors in lock-step
    ([..Posit], [..Vel], [..Ids], [..TTL], [..Density]); entry [i] of the
    five is one record here. *)
Record diffuse : Type := mkDiffuse {
  dPosit : vec3; dVel : vec3; dIds : Z; dTTL : Z; dDensity : R
}.

(** Value-initialised entry of the newborn arrays. *)
Definition diffuse0 : diffuse := mkDiffuse (V3 0 0 0) (V3 0 0 0) 0%Z 0%Z 0.

(** ** Driver: choice of the time step (lines 180-188) *)

Definition TimeOut0 : TimeOut := mkTimeOut 0%Z 0.

Definition next_tstep_idx (sp : SimulationParams) (tstep_idx : nat)
  (nstep_ : Z) : nat :=
  if (tstep_idx + 1 <? ntimesteps sp)%nat
     && (nstep_ >? nstep (nth (tstep_idx + 1) (timesteps sp) TimeOut0))%Z
  then S tstep_idx else tstep_idx.

(** The loop of section 4.8 of the specification, in its words:
    "while tstep_idx+1 < |timesteps| and nstep > timesteps[tstep_idx+1].nstep:
    tstep_idx += 1".  [fuel] bounds the number of iterations. *)
Fixpoint spec_while_tstep_idx (sp : SimulationParams) (fuel : nat)
  (tstep_idx : nat) (nstep_ : Z) : nat :=
  match fuel with
  | O => tstep_idx
  | S fuel' =>
      if (tstep_idx + 1 <? ntimesteps sp)%nat
         && (nstep_ >? nstep (nth (tstep_idx + 1) (timesteps sp) TimeOut0))%Z
      then spec_while_tstep_idx sp fuel' (S tstep_idx) nstep_
      else tstep_idx
  end.

(** ** Stage 1 (energy), stage 4 (clamping), stage 5 (counts) *)

(** Line 282: [energy[i] = 0.5 * mass * |vi|^2], for every particle of
    every bucket. *)
Definition energy_acc (sp : SimulationParams) (fr : Frame) : list R :=
  fold_left
    (fun energy pi =>
       let vi := p_vel pi in
       write energy (Z.to_nat (p_id pi))
         (0.5 * mass sp * (at0 vi * at0 vi + at1 vi * at1 vi + at2 vi * at2 vi)))
    (concat (buckets fr)) (repeat 0 (npoints fr)).

(** Lines 377-381, one array. *)
Definition clamp_array (n : nat) (arr : list R) (tmin tmax : R) : list R :=
  map (fun i => phi (nth i arr 0) tmin tmax) (seq 0 n).

Definition waveCrest_of (sp : SimulationParams) (fr : Frame) : list R :=
  clamp_array (npoints fr) (waveCrest_acc fr) (MINWC sp) (MAXWC sp).
Definition Ita_of (sp : SimulationParams) (fr : Frame) : list R :=
  clamp_array (npoints fr) (Ita_acc fr) (MINTA sp) (MAXTA sp).
Definition energy_of (sp : SimulationParams) (fr : Frame) : list R :=
  clamp_array (npoints fr) (energy_acc sp fr) (MINK sp) (MAXK sp).

(** Lines 397-401. *)
Definition ndiffuse_of (sp : SimulationParams) (timeout : TimeOut)
  (fr : Frame) : list Z :=
  map (fun i =>
         floor_int (nth i (energy_of sp fr) 0
                    * (KTA sp * nth i (Ita_of sp fr) 0
                       + KWC sp * nth i (waveCrest_of sp fr) 0)
                    * tout timeout))
      (seq 0 (npoints fr)).

Definition npdiffuse_of (ndiffuse : list Z) : Z :=
  fold_left Z.add ndiffuse 0%Z.

(** ** Stage 6: the spawner (lines 424-499) *)

(** Lines 442-456: the vector [e1]. *)
Definition spawn_e1 (pos vel : vec3) : vec3 :=
  if dne (at0 vel) 0 then
    ops.normalize
      (V3 (solveEq (at2 pos) (at1 pos) (at0 pos)
                   (at2 vel) (at1 vel) (at0 vel) 0 1) 1 0)
  else if dne (at1 vel) 0 then
    ops.normalize
      (V3 1 (solveEq (at0 pos) (at2 pos) (at1 pos)
                     (at0 vel) (at2 vel) (at1 vel) 1 0) 0)
  else
    ops.normalize
      (V3 1 0 (solveEq (at0 pos) (at1 pos) (at2 pos)
                       (at0 vel) (at1 vel) (at2 vel) 1 0)).

(** Lines 460-462: the vector [e2]. *)
Definition spawn_e2 (e1 vel : vec3) : vec3 :=
  ops.normalize
    (V3 (at1 e1 * at2 vel - at1 vel * at2 e1)
        (at0 e1 * at2 vel - at0 vel * at2 e1)
        (at0 e1 * at1 vel - at0 vel * at1 e1)).

(** The loop state of the spawner: the newborn arrays, the write index
    [idif] and the run-wide counter [difId]. *)
Record SpawnState : Type := mkSpawn {
  s_arr : list diffuse; s_idif : nat; s_difId : Z
}.

(** Lines 468-491: the newborn written at index [idif]. *)
Definition spawn_one (sp : SimulationParams) (timeout : TimeOut)
  (tempRand_ : nat -> R) (pos vel e1 e2 nvel : vec3) (ndiffuse_i : Z)
  (idif : nat) (difId : Z) : diffuse :=
  let h_ := tempRand_ (idif * 3)%nat
            * (ops.magnitude (V3 (at0 vel) (at1 vel) (at2 vel)) * tout timeout)
            * 0.5 in
  let r := h sp * sqrt (tempRand_ (idif * 3 + 1)%nat) in
  let theta := tempRand_ (idif * 3 + 2)%nat * 2 * PI in
  mkDiffuse
    (V3 (at0 pos + r * cos theta * at0 e1 + r * sin theta * at0 e2
         + h_ * at0 nvel)
        (at1 pos + r * cos theta * at1 e1 + r * sin theta * at1 e2
         + h_ * at1 nvel)
        (at2 pos + r * cos theta * at2 e1 + r * sin theta * at2 e2
         + h_ * at2 nvel))
    (V3 (r * cos theta * at0 e1 + r * sin theta * at0 e2 + at0 vel)
        (r * cos theta * at1 e1 + r * sin theta * at1 e2 + at1 vel)
        (r * cos theta * at2 e1 + r * sin theta * at2 e2 + at2 vel))
    (wrap32 difId)
    (trunc_int (IZR ndiffuse_i * LIFEFIME sp))
    0.

(** Lines 467-495: the loop over [j]; [count] iterations are left. *)
Fixpoint spawn_loop (mk : nat -> Z -> diffuse) (count : nat)
  (s : SpawnState) : SpawnState :=
  match count with
  | O => s
  | S count' =>
      spawn_loop mk count'
        (mkSpawn (write (s_arr s) (s_idif s) (mk (s_idif s) (s_difId s)))
                 (S (s_idif s))
                 (s_difId s + 1)%Z)
  end.

(** Lines 431-497: one source particle. *)
Definition spawn_particle (sp : SimulationParams) (timeout : TimeOut)
  (tempRand_ : nat -> R) (ndiffuse : list Z) (s : SpawnState)
  (pi : particle) : SpawnState :=
  let ndiffuse_i := nth (Z.to_nat (p_id pi)) ndiffuse 0%Z in
  if (1 <=? ndiffuse_i)%Z then
    let pos := p_pos pi in
    let vel := p_vel pi in
    let e1 := spawn_e1 pos vel in
    let e2 := spawn_e2 e1 vel in
    let nvel := ops.normalize (V3 (at0 vel) (at1 vel) (at2 vel)) in
    spawn_loop (spawn_one sp timeout tempRand_ pos vel e1 e2 nvel ndiffuse_i)
               (Z.to_nat ndiffuse_i) s
  else s.

(** Lines 428-498: all buckets, in order, as one thread executes the
    loop ([idif] and [difId] are shared by the iterations). *)
Definition spawn (sp : SimulationParams) (timeout : TimeOut)
  (tempRand_ : nat -> R) (ndiffuse : list Z) (bs : list (list particle))
  (s : SpawnState) : SpawnState :=
  fold_left
    (fun s' bucket =>
       fold_left (spawn_particle sp timeout tempRand_ ndiffuse) bucket s')
    bs s.

(** ** Stage 7 and stage 8: density, classes, advection *)

(** Lines 509-515 and 531-537: [density++] for every fluid particle of the
    surrounding buckets within [h], from the value [density0]. *)
Definition density_at (sp : SimulationParams) (fr : Frame) (pxd : vec3)
  (density0 : R) : R :=
  fold_left
    (fun d pj =>
       if dle (ops.magnitude (ops.substract pxd (p_pos pj))) (h sp)
       then d + 1 else d)
    (getSurroundingBuckets fr pxd) density0.

(** Lines 506-516: stage 7, one newborn. *)
Definition classify_newborn (sp : SimulationParams) (fr : Frame)
  (d : diffuse) : diffuse :=
  mkDiffuse (dPosit d) (dVel d) (dIds d) (dTTL d)
            (density_at sp fr (dPosit d) (dDensity d)).

(** Lines 539-550: numerator and denominator of the smoothed velocity,
    summed over all particles of the surrounding buckets. *)
Definition smoothed_sums (sp : SimulationParams) (fr : Frame) (pxd : vec3)
  : vec3 * R :=
  fold_left
    (fun nd pj =>
       let tval := Wwendland (ops.substract pxd (p_pos pj)) (h sp) in
       (V3 (at0 (fst nd) + at0 (p_vel pj) * tval)
           (at1 (fst nd) + at1 (p_vel pj) * tval)
           (at2 (fst nd) + at2 (p_vel pj) * tval),
        snd nd + tval))
    (getSurroundingBuckets fr pxd) (V3 0 0 0, 0).

(** Lines 553-558: the spray law. *)
Definition spray_update (timeout : TimeOut) (d : diffuse) (density : R)
  : diffuse :=
  let ppVel := V3 (at0 (dVel d)) (at1 (dVel d))
                  (at2 (dVel d) + -9.81 * tout timeout) in
  mkDiffuse
    (V3 (at0 (dPosit d) + tout timeout * at0 ppVel)
        (at1 (dPosit d) + tout timeout * at1 ppVel)
        (at2 (dPosit d) + tout timeout * at2 ppVel))
    ppVel (dIds d) (dTTL d) density.

(** Lines 560-567: the bubble law. *)
Definition bubble_update (sp : SimulationParams) (timeout : TimeOut)
  (d : diffuse) (density : R) (num0 : vec3) (den : R) : diffuse :=
  let num := V3 (at0 num0 / den) (at1 num0 / den) (at2 num0 / den) in
  let v := dVel d in
  let ppVel :=
    V3 (at0 v + tout timeout * (KD sp * (at0 num - at0 v) / tout timeout))
       (at1 v + tout timeout * (KD sp * (at1 num - at1 v) / tout timeout))
       (at2 v + tout timeout * (- KB sp * -9.81
                                + KD sp * (at2 num - at2 v) / tout timeout)) in
  mkDiffuse
    (V3 (at0 (dPosit d) + tout timeout * at0 ppVel)
        (at1 (dPosit d) + tout timeout * at1 ppVel)
        (at2 (dPosit d) + tout timeout * at2 ppVel))
    ppVel (dIds d) (dTTL d) density.

(** Lines 569-576: the foam law. *)
Definition foam_update (timeout : TimeOut) (d : diffuse) (density : R)
  (num0 : vec3) (den : R) : diffuse :=
  let num := V3 (at0 num0 / den) (at1 num0 / den) (at2 num0 / den) in
  mkDiffuse
    (V3 (at0 (dPosit d) + tout timeout * at0 num)
        (at1 (dPosit d) + tout timeout * at1 num)
        (at2 (dPosit d) + tout timeout * at2 num))
    (V3 (at0 num) (at1 num) (at2 num)) (dIds d) (dTTL d) density.

(** Lines 523-577: one persistent particle. *)
Definition update_particle (sp : SimulationParams) (timeout : TimeOut)
  (fr : Frame) (d : diffuse) : diffuse :=
  let pxd := dPosit d in
  let ppDensity := density_at sp fr pxd 0 in
  let nd := if dge ppDensity (SPRAY sp) then smoothed_sums sp fr pxd
            else (V3 0 0 0, 0) in
  if dlt ppDensity (SPRAY sp) then spray_update timeout d ppDensity
  else if dgt ppDensity (BUBBLES sp) then
    bubble_update sp timeout d ppDensity (fst nd) (snd nd)
  else foam_update timeout d ppDensity (fst nd) (snd nd).

(** ** Stage 9: TTL and deletion (lines 586-608) *)

(** Line 588: the test that guards [ppTTL[i]--].  (The decrement is on
    an [int]; its overflow is undefined behaviour and outside the model.) *)
Definition ttl_test (sp : SimulationParams) (d : diffuse) : bool :=
  dgt (dDensity d) (SPRAY sp) && dlt (dDensity d) (BUBBLES sp).

Definition decrease_ttl (sp : SimulationParams) (d : diffuse) : diffuse :=
  if ttl_test sp d
  then mkDiffuse (dPosit d) (dVel d) (dIds d) (dTTL d - 1)%Z (dDensity d)
  else d.

(** Lines 593-595: the condition under which a particle is dropped. *)
Definition deleted (sp : SimulationParams) (d : diffuse) : bool :=
  (dTTL d <? 0)%Z
  || dle (at0 (dPosit d)) (MINX sp) || dle (at1 (dPosit d)) (MINY sp)
  || dle (at2 (dPosit d)) (MINZ sp)
  || dge (at0 (dPosit d)) (MAXX sp) || dge (at1 (dPosit d)) (MAXY sp)
  || dge (at2 (dPosit d)) (MAXZ sp).

(** Lines 586-608: the loop that fills the [temp..] vectors, which then
    replace the pool. *)
Fixpoint delete_particles (sp : SimulationParams) (pp : list diffuse)
  : list diffuse :=
  match pp with
  | [] => []
  | d :: rest =>
      let d' := decrease_ttl sp d in
      if negb (deleted sp d') then d' :: delete_particles sp rest
      else delete_particles sp rest
  end.

(** Strictly inside the domain box. *)
Definition interior (sp : SimulationParams) (x : vec3) : Prop :=
  MINX sp < at0 x < MAXX sp /\ MINY sp < at1 x < MAXY sp
  /\ MINZ sp < at2 x < MAXZ sp.

(** ** Stage 10 (append) and stage 11 (emitters) *)

(** Lines 617-623. *)
Definition append_new (npdiffuse : Z) (pp newborn : list diffuse)
  : list diffuse :=
  if (npdiffuse >? 0)%Z then pp ++ newborn else pp.

(** Lines 647-652 and 696-701: the particle type that is written out. *)
Definition ttype (sp : SimulationParams) (d : diffuse) : Z :=
  if dlt (dDensity d) (SPRAY sp) then 0%Z
  else if dgt (dDensity d) (BUBBLES sp) then 2%Z
  else 1%Z.

(** Lines 638-656: the lines of the text file. *)
Definition text_lines (sp : SimulationParams) (pp : list diffuse)
  : list (vec3 * Z) :=
  map (fun d => (dPosit d, ttype sp d)) pp.

(** Lines 673-734: the rows of the diffuse VTK file
    (id, type, density, point, velocity). *)
Definition vtk_rows (sp : SimulationParams) (pp : list diffuse)
  : list (Z * Z * R * vec3 * vec3) :=
  map (fun d => (dIds d, ttype sp d, dDensity d, dPosit d, dVel d)) pp.

(** What one frame writes. *)
Record Output : Type := mkOutput {
  o_nstep : Z;
  o_text : option (list (vec3 * Z));
  o_vtk : option (list (Z * Z * R * vec3 * vec3))
}.

(** ** One frame and the whole run *)

(** The variables that live across frames. *)
Record SimState : Type := mkState {
  difId : Z;
  ppool : list diffuse;
  tstep_idx : nat;
  outputs : list Output
}.

(** Stages 4 to 7: the newborn arrays of a frame and the counter after
    them.  [None] when [npdiffuse] is negative: the vectors cannot be
    allocated and the program stops with an exception. *)
Definition newborns (sp : SimulationParams) (timeout : TimeOut) (fr : Frame)
  (difId0 : Z) : option (list diffuse * Z) :=
  let ndiffuse := ndiffuse_of sp timeout fr in
  let npdiffuse := npdiffuse_of ndiffuse in
  if (npdiffuse <? 0)%Z then None
  else
    let s := spawn sp timeout (tempRand fr) ndiffuse (buckets fr)
                   (mkSpawn (repeat diffuse0 (Z.to_nat npdiffuse)) 0 difId0) in
    Some (map (classify_newborn sp fr) (s_arr s), s_difId s).

(** Stages 8 and 9 on the persistent pool. *)
Definition survivors (sp : SimulationParams) (timeout : TimeOut) (fr : Frame)
  (pp : list diffuse) : list diffuse :=
  delete_particles sp (map (update_particle sp timeout fr) pp).

(** The body of the frame loop after a successful load (lines 204-806),
    with the time step of line 188.  (With an empty schedule the program
    reads past the end of [sp.timesteps]; the model reads [TimeOut0].) *)
Definition frame (sp : SimulationParams) (nstep_ : Z) (fr : Frame)
  (st : SimState) : option SimState :=
  let timeout := nth (tstep_idx st) (timesteps sp) TimeOut0 in
  match newborns sp timeout fr (difId st) with
  | None => None
  | Some (newborn, difId') =>
      let npdiffuse := npdiffuse_of (ndiffuse_of sp timeout fr) in
      let pp := append_new npdiffuse (survivors sp timeout fr (ppool st))
                           newborn in
      Some (mkState difId' pp (tstep_idx st)
              (outputs st ++
               [mkOutput nstep_
                  (if text_files sp then Some (text_lines sp pp) else None)
                  (if vtk_diffuse_data sp then Some (vtk_rows sp pp)
                   else None)]))
  end.

(** Lines 183-202: the frame loop; [count] frames are left, [loadFile]
    is [FluidData::loadFile] on the file of step [nstep], [None] when the
    file cannot be opened. *)
Fixpoint run_loop (sp : SimulationParams) (loadFile : Z -> option Frame)
  (count : nat) (nstep_ : Z) (st : SimState) : option SimState :=
  match count with
  | O => Some st
  | S count' =>
      let st1 := mkState (difId st) (ppool st)
                         (next_tstep_idx sp (tstep_idx st) nstep_)
                         (outputs st) in
      match loadFile nstep_ with
      | None => Some st1
      | Some fr =>
          match frame sp nstep_ fr st1 with
          | None => None
          | Some st2 => run_loop sp loadFile count' (nstep_ + 1)%Z st2
          end
      end
  end.

Definition initial : SimState := mkState 0%Z [] 0%nat [].

(** [DiffuseCalculator::runSimulation]. *)
Definition runSimulation (sp : SimulationParams)
  (loadFile : Z -> option Frame) : option SimState :=
  run_loop sp loadFile (Z.to_nat (nend sp - nstart sp + 1)) (nstart sp)
           initial.

(** ** Stages 1 to 3: the field passes (lines 223-353) *)

(** One entry of [f.getNoEmptyBuckets()]: the particles of the bucket and
    [f.getSurroundingBuckets] of its key, bucket by bucket. *)
Record Cell : Type := mkCell {
  c_bucket : list particle;
  c_sbuckets : list (list particle)
}.

(** [arr[i] += x] on an array of doubles. *)
Definition add_at (arr : list R) (i : nat) (x : R) : list R :=
  write arr i (nth i arr 0 + x).

(** Lines 242-278: the body of the innermost loop of the first pass, on
    the arrays [Ita] and [colorField].  Line 261 divides by [mv] and line
    263 by [mp]: for a pair within [h] the value added to [Ita] is that of
    the program when the two velocities differ and the two positions
    differ. *)
Definition pass1_pair (sp : SimulationParams) (pi : particle)
  (IC : list R * list R) (pj : particle) : list R * list R :=
  let i := Z.to_nat (p_id pi) in
  if negb (p_id pi =? p_id pj)%Z then
    let vi := p_vel pi in
    let xi := p_pos pi in
    let vj := p_vel pj in
    let xj := p_pos pj in
    let spx := at0 xi - at0 xj in
    let spy := at1 xi - at1 xj in
    let spz := at2 xi - at2 xj in
    let mp := sqrt (spx * spx + spy * spy + spz * spz) in
    let q := mp / h sp in
    let Ita :=
      if dle mp (h sp) then
        let svx := at0 vi - at0 vj in
        let svy := at1 vi - at1 vj in
        let svz := at2 vi - at2 vj in
        let mv := sqrt (svx * svx + svy * svy + svz * svz) in
        let dvx := svx / mv in
        let dvy := svy / mv in
        let dvz := svz / mv in
        let dpx := spx / mp in
        let dpy := spy / mp in
        let dpz := spz / mp in
        let e := 1 - (dvx * dpx + dvy * dpy + dvz * dpz) in
        let w := 1 - q in
        add_at (fst IC) i (mv * e * w)
      else fst IC in
    let colorField :=
      if dge q 0 && dle q 2 then
        let ad := 21 / (16 * PI * h sp * h sp * h sp) in
        let e1 := 1 - (q / 2) in
        add_at (snd IC) i
               ((mass sp / p_rhop pj) * ad * e1 * e1 * e1 * e1 * (2 * q + 1))
      else snd IC in
    (Ita, colorField)
  else IC.

(** Lines 235-284: one source particle of the first pass, on the arrays
    [Ita], [colorField] and [energy]. *)
Definition pass1_particle (sp : SimulationParams)
  (sbuckets : list (list particle)) (st : list R * list R * list R)
  (pi : particle) : list R * list R * list R :=
  let IC := fold_left (fun IC sb => fold_left (pass1_pair sp pi) sb IC)
                      sbuckets (fst st) in
  let vi := p_vel pi in
  (IC,
   write (snd st) (Z.to_nat (p_id pi))
         (0.5 * mass sp
          * (at0 vi * at0 vi + at1 vi * at1 vi + at2 vi * at2 vi))).

(** Lines 228-286: the first pass, from arrays of [n] zeros. *)
Definition pass1 (sp : SimulationParams) (n : nat) (cells : list Cell)
  : list R * list R * list R :=
  fold_left
    (fun st c => fold_left (pass1_particle sp (c_sbuckets c)) (c_bucket c) st)
    cells (repeat 0 n, repeat 0 n, repeat 0 n).

Definition vec0 : vec3 := V3 0 0 0.

(** Lines 308-319: the body of the innermost loop of the second pass. *)
Definition pass2_pair (sp : SimulationParams) (colorField : list R)
  (pi : particle) (gradient : list vec3) (pj : particle) : list vec3 :=
  let i := Z.to_nat (p_id pi) in
  let xij := ops.substract (p_pos pi) (p_pos pj) in
  let mxij := ops.magnitude xij in
  let q := mxij / h sp in
  if dge q 0 && dle q 2 then
    let ad := 21 / (16 * PI * h sp * h sp * h sp) in
    let e1 := 1 - (q / 2) in
    let rval := nth (Z.to_nat (p_id pj)) colorField 0
                * ad * e1 * e1 * e1 * e1 * (2 * q + 1) in
    write gradient i
          (V3 (at0 (nth i gradient vec0) + rval * at0 xij)
              (at1 (nth i gradient vec0) + rval * at1 xij)
              (at2 (nth i gradient vec0) + rval * at2 xij))
  else gradient.

(** Lines 294-324: the second pass, from an array of [n] zero vectors. *)
Definition pass2 (sp : SimulationParams) (n : nat) (colorField : list R)
  (cells : list Cell) : list vec3 :=
  fold_left
    (fun g c =>
       fold_left
         (fun g' pi =>
            fold_left (fun g'' sb => fold_left (pass2_pair sp colorField pi)
                                               sb g'')
                      (c_sbuckets c) g')
         (c_bucket c) g)
    cells (repeat vec0 n).

Definition SURFACE : R := 0.75.

(** Lines 338-350: one source particle of the third pass.  (The program
    fetches the surrounding buckets of a bucket when the first of its
    particles needs them; they are the same list for all of them.) *)
Definition pass3_particle (sp : SimulationParams) (colorField : list R)
  (gradient : list vec3) (sbuckets : list (list particle))
  (waveCrest : list R) (pi : particle) : list R :=
  let i := Z.to_nat (p_id pi) in
  if dlt (nth i colorField 0) SURFACE then
    fold_left
      (fun wc sb =>
         fold_left
           (fun wc' pj =>
              add_at wc' i
                (crests2p (p_pos pi) (p_pos pj) (p_vel pi)
                          (nth i gradient vec0)
                          (nth (Z.to_nat (p_id pj)) gradient vec0) (h sp)))
           sb wc)
      sbuckets waveCrest
  else waveCrest.

(** Lines 331-353: the third pass, from an array of [n] zeros. *)
Definition pass3 (sp : SimulationParams) (n : nat) (colorField : list R)
  (gradient : list vec3) (cells : list Cell) : list R :=
  fold_left
    (fun wc c =>
       fold_left (pass3_particle sp colorField gradient (c_sbuckets c))
                 (c_bucket c) wc)
    cells (repeat 0 n).

(** The snapshot that stages 4 to 11 work on, after the three passes:
    [lookup] is [f.getSurroundingBuckets] at a point. *)
Definition snapshot (sp : SimulationParams) (n : nat) (cells : list Cell)
  (lookup : vec3 -> list particle) (rand : nat -> R) : Frame :=
  let st := pass1 sp n cells in
  let colorField := snd (fst st) in
  let gradient := pass2 sp n colorField cells in
  mkFrame n (map c_bucket cells) lookup
          (fst (fst st)) (pass3 sp n colorField gradient cells) rand.

(** The particles of all buckets have the dense ids [0 .. n - 1], each
    once. *)
Definition cells_well_formed (n : nat) (cells : list Cell) : Prop :=
  Permutation (map p_id (concat (map c_bucket cells)))
              (map Z.of_nat (seq 0 n)).

(** ** Auxiliary definitions for the proofs *)

(** The array [base] after its first entries have been overwritten by the
    entries of [L], in order. *)
Fixpoint overlay {A : Type} (L base : list A) : list A :=
  match L, base with
  | x :: L', _ :: base' => x :: overlay L' base'
  | _, _ => base
  end.

(** The records that [count] iterations of the loop over [j] write, from
    the write index [idif] and the counter [difId] on. *)
Fixpoint spawn_list (mk : nat -> Z -> diffuse) (count idif : nat) (difId : Z)
  : list diffuse :=
  match count with
  | O => []
  | S count' => mk idif difId :: spawn_list mk count' (S idif) (difId + 1)%Z
  end.

(** The records that the spawner writes for the source particles [ps]. *)
Fixpoint spawned (sp : SimulationParams) (timeout : TimeOut)
  (tempRand_ : nat -> R) (ndiffuse : list Z) (ps : list particle)
  (idif : nat) (difId : Z) : list diffuse :=
  match ps with
  | [] => []
  | pi :: rest =>
      let ndiffuse_i := nth (Z.to_nat (p_id pi)) ndiffuse 0%Z in
      let pos := p_pos pi in
      let vel := p_vel pi in
      let e1 := spawn_e1 pos vel in
      let e2 := spawn_e2 e1 vel in
      let nvel := ops.normalize (V3 (at0 vel) (at1 vel) (at2 vel)) in
      let count := Z.to_nat ndiffuse_i in
      spawn_list (spawn_one sp timeout tempRand_ pos vel e1 e2 nvel ndiffuse_i)
                 count idif difId
      ++ spawned sp timeout tempRand_ ndiffuse rest
                 (idif + count) (difId + Z.of_nat count)
  end.

(** A snapshot whose buckets hold every fluid particle once, with the
    dense ids [0 .. npoints - 1]. *)
Definition well_formed (fr : Frame) : Prop :=
  Permutation (map p_id (concat (buckets fr)))
              (map Z.of_nat (seq 0 (npoints fr))).

(** The ids of a pool are pairwise different and are values that the
    counter [difId] has passed. *)
Definition ids_fresh (pp : list diffuse) (counter : Z) : Prop :=
  NoDup (map dIds pp) /\
  forall d, In d pp -> (0 <= dIds d < counter)%Z.

(** One step of a loop in which the job [b] rewrites its own array entry
    [idx b] from the old value of that entry. *)
Definition local_step {A B : Type} (idx : B -> nat) (G : B -> A -> A)
  (dflt : A) (arr : list A) (b : B) : list A :=
  write arr (idx b) (G b (nth (idx b) arr dflt)).

(** The pairs (surrounding buckets, source particle) in the order in which
    the passes visit them. *)
Definition jobs (cells : list Cell) : list (list (list particle) * particle) :=
  flat_map (fun c => map (fun pi => (c_sbuckets c, pi)) (c_bucket c)) cells.

Definition vadd (a b : vec3) : vec3 :=
  V3 (at0 a + at0 b) (at1 a + at1 b) (at2 a + at2 b).

(** The sums of the pair functions over the neighbours [nbrs] of [pi],
    from the value [a0], in the order of the loops. *)
Definition Ita_sum (sp : SimulationParams) (pi : particle)
  (nbrs : list particle) (a0 : R) : R :=
  fold_left
    (fun a pj =>
       if (p_id pi =? p_id pj)%Z then a
       else a + vdiff2p (p_vel pi) (p_vel pj) (p_pos pi) (p_pos pj) (h sp))
    nbrs a0.

Definition colorField_sum (sp : SimulationParams) (pi : particle)
  (nbrs : list particle) (a0 : R) : R :=
  fold_left
    (fun a pj =>
       if (p_id pi =? p_id pj)%Z then a
       else a + colorField2p (p_pos pi) (p_pos pj) (h sp) (mass sp)
                             (p_rhop pj))
    nbrs a0.

Definition gradient_sum (sp : SimulationParams) (colorField : list R)
  (pi : particle) (nbrs : list particle) (g0 : vec3) : vec3 :=
  fold_left
    (fun g pj =>
       vadd g (gradient2p (p_pos pi) (p_pos pj) (h sp)
                          (nth (Z.to_nat (p_id pi)) colorField 0)
                          (nth (Z.to_nat (p_id pj)) colorField 0)))
    nbrs g0.

Definition waveCrest_sum (sp : SimulationParams) (gradient : list vec3)
  (pi : particle) (nbrs : list particle) (a0 : R) : R :=
  fold_left
    (fun a pj =>
       a + crests2p (p_pos pi) (p_pos pj) (p_vel pi)
                    (nth (Z.to_nat (p_id pi)) gradient vec0)
                    (nth (Z.to_nat (p_id pj)) gradient vec0) (h sp))
    nbrs a0.

(** ** Concrete inputs for the examples *)

(** Parameters of a small run: the box [(0,10)^3], [h = 1], [mass = 1],
    the three clamp windows [(0,1)] except for the lower bound [mink] of
    the energy window, [BUBBLES = 20], [LIFEFIME = 1]. *)
Definition demo_params (kta kwc mink spray : R) (ts : list TimeOut)
  : SimulationParams :=
  mkParams 0 10 true true 1 1
           0 0 0 10 10 10
           0 1 0 1 mink 1
           kta kwc spray 20 1
           0 0
           ts.

(** A pool entry with 6 fluid neighbours, [ttl = 3], inside the box. *)
Definition foam_edge : diffuse := mkDiffuse (V3 1 1 1) (V3 0 0 0) 7%Z 3%Z 6.

(** A snapshot without fluid particles. *)
Definition empty_frame : Frame := mkFrame 0 [] (fun _ => []) [] [] (fun _ => 0).

(** A schedule of three entries, all passed by frame 5, and a run that
    starts at frame 5. *)
Definition three_steps : list TimeOut :=
  [mkTimeOut 0 1; mkTimeOut 1 0.5; mkTimeOut 2 0.25].

Definition late_start : SimulationParams :=
  mkParams 5 10 true true 1 1
           0 0 0 10 10 10
           0 1 0 1 0 1
           1 1 6 20 1
           0 0
           three_steps.

(** A snapshot with six fluid particles at rest at [(1,1,1)], all in the
    surrounding buckets of every point that is looked up.  It is used for
    the stages 8 and 9, which read the particles and not the arrays. *)
Definition six_at_rest : list particle :=
  map (fun k => mkParticle k (V3 1 1 1) (V3 0 0 0) 1000)
      [0; 1; 2; 3; 4; 5]%Z.

Definition six_fluid : Frame :=
  mkFrame 6 [six_at_rest] (fun _ => six_at_rest)
          [0; 0; 0; 0; 0; 0] [0; 0; 0; 0; 0; 0] (fun _ => 0).

(** One fluid particle alone in its bucket, which is the only one of the
    surrounding buckets that holds a particle. *)
Definition lonely : particle := mkParticle 0 (V3 5 5 5) (V3 2 0 0) 1000.

Definition lonely_cells : list Cell := [mkCell [lonely] [[lonely]]].

(** Two fluid particles of one bucket, half of [h = 1] apart: [mover] has
    the velocity [(3,4,0)] and passes by [sitter], which is at rest. *)
Definition mover : particle :=
  mkParticle 0 (V3 1 0.25 9.9) (V3 3 4 0) 1000.

Definition sitter : particle :=
  mkParticle 1 (V3 1 0.25 9.4) (V3 0 0 0) 1000.

Definition pair_cells : list Cell :=
  [mkCell [mover; sitter] [[mover; sitter]]].

(** The snapshot of the two particles after the three passes; their
    bucket is among the surrounding buckets of every point that is looked
    up; [rand] is the array of uniform draws. *)
Definition pair_frame (sp : SimulationParams) (rand : nat -> R) : Frame :=
  snapshot sp 2 pair_cells (fun _ => [mover; sitter]) rand.


(** * Properties *)

(** ** Comparisons *)

Lemma dlt_true a b : dlt a b = true <-> a < b.
Proof. unfold dlt; destruct (Rlt_dec a b); split; intros; try easy. Qed.

Lemma dlt_false a b : dlt a b = false <-> b <= a.
Proof.
  unfold dlt; destruct (Rlt_dec a b); split; intros; try easy; lra.
Qed.

Lemma dle_true a b : dle a b = true <-> a <= b.
Proof. unfold dle; destruct (Rle_dec a b); split; intros; try easy. Qed.

Lemma dle_false a b : dle a b = false <-> b < a.
Proof.
  unfold dle; destruct (Rle_dec a b); split; intros; try easy; lra.
Qed.

Lemma dne_true a b : dne a b = true <-> a <> b.
Proof. unfold dne; destruct (Req_dec_T a b); split; intros; try easy. Qed.

Lemma dne_false a b : dne a b = false <-> a = b.
Proof.
  unfold dne; destruct (Req_dec_T a b); split; intros; try easy.
Qed.

(** ** The clamping function (stage 4) *)

Section Clamp.

Variables tmin tmax : R.
Hypothesis window : tmin < tmax.

Lemma phi_below I : I <= tmin -> phi I tmin tmax = 0.
Proof.
  intros H. unfold phi.
  rewrite (Rmin_left I tmax) by lra.
  rewrite (Rmin_left I tmin) by lra.
  field. lra.
Qed.

Lemma phi_above I : tmax <= I -> phi I tmin tmax = 1.
Proof.
  intros H. unfold phi.
  rewrite (Rmin_right I tmax) by lra.
  rewrite (Rmin_right I tmin) by lra.
  field. lra.
Qed.

Lemma phi_ramp I :
  tmin <= I <= tmax -> phi I tmin tmax = (I - tmin) / (tmax - tmin).
Proof.
  intros [H1 H2]. unfold phi.
  rewrite (Rmin_left I tmax) by lra.
  rewrite (Rmin_right I tmin) by lra.
  reflexivity.
Qed.

Lemma phi_range I : 0 <= phi I tmin tmax <= 1.
Proof.
  assert (Hd : 0 < / (tmax - tmin)) by (apply Rinv_0_lt_compat; lra).
  destruct (Rle_lt_dec I tmin) as [Hlo | Hlo].
  - rewrite phi_below by assumption. lra.
  - destruct (Rle_lt_dec tmax I) as [Hhi | Hhi].
    + rewrite phi_above by assumption. lra.
    + rewrite phi_ramp by lra. unfold Rdiv. split.
      * apply Rmult_le_pos; lra.
      * apply Rmult_le_reg_r with (tmax - tmin); [lra|].
        rewrite Rmult_assoc, Rinv_l by lra. lra.
Qed.

End Clamp.

(** C3.  For every window [tmin < tmax] the clamping function is 0 up to
    [tmin], 1 from [tmax] on and the linear ramp in between, so its value
    lies in [[0,1]]; at [tmin - 1], [tmin], the midpoint, [tmax] and
    [tmax + 1] it is 0, 0, 1/2, 1 and 1. *)
Theorem phi_clamp (tmin tmax : R) (window : tmin < tmax) :
  (forall I, I <= tmin -> phi I tmin tmax = 0) /\
  (forall I, tmax <= I -> phi I tmin tmax = 1) /\
  (forall I, tmin <= I <= tmax ->
             phi I tmin tmax = (I - tmin) / (tmax - tmin)) /\
  (forall I, 0 <= phi I tmin tmax <= 1) /\
  phi (tmin - 1) tmin tmax = 0 /\
  phi tmin tmin tmax = 0 /\
  phi ((tmin + tmax) / 2) tmin tmax = 0.5 /\
  phi tmax tmin tmax = 1 /\
  phi (tmax + 1) tmin tmax = 1.
Proof.
  repeat split.
  - intros I H. now apply phi_below.
  - intros I H. now apply phi_above.
  - intros I H. now apply phi_ramp.
  - now apply phi_range.
  - now apply phi_range.
  - apply phi_below; lra.
  - apply phi_below; lra.
  - rewrite phi_ramp by lra.
    replace ((tmin + tmax) / 2 - tmin) with ((tmax - tmin) * / 2) by lra.
    unfold Rdiv. rewrite Rmult_assoc, (Rmult_comm (/ 2)), <- Rmult_assoc.
    rewrite Rinv_r by lra. lra.
  - apply phi_above; lra.
  - apply phi_above; lra.
Qed.

Lemma phi_clamp_witness :
  (2 < 6) /\ phi 4 2 6 = 0.5.
Proof.
  split; [lra|].
  assert (W6 : (2 < 6)) by lra.
  destruct (phi_clamp 2 6 W6) as (_ & _ & _ & _ & _ & _ & Hmid & _).
  replace 4 with ((2 + 6) / 2) by lra. exact Hmid.
Defined.

(** Comparisons of two numerals, decided by [lra]. *)
Ltac decide_cmp :=
  unfold dgt, dge;
  repeat match goal with
  | |- context [dlt ?a ?b] =>
      first [ rewrite (proj2 (dlt_true a b)) by lra
            | rewrite (proj2 (dlt_false a b)) by lra ]
  | |- context [dle ?a ?b] =>
      first [ rewrite (proj2 (dle_true a b)) by lra
            | rewrite (proj2 (dle_false a b)) by lra ]
  | |- context [dne ?a ?b] =>
      first [ rewrite (proj2 (dne_true a b)) by lra
            | rewrite (proj2 (dne_false a b)) by lra ]
  end.

(** ** Stage 9: the cull *)

Lemma deleted_false sp d :
  deleted sp d = false <-> (0 <= dTTL d)%Z /\ interior sp (dPosit d).
Proof.
  unfold deleted, interior, dge.
  rewrite !orb_false_iff, !dle_false, Z.ltb_ge. tauto.
Qed.

Lemma deleted_true sp d :
  deleted sp d = true <->
  (dTTL d < 0)%Z
  \/ at0 (dPosit d) <= MINX sp \/ at1 (dPosit d) <= MINY sp
  \/ at2 (dPosit d) <= MINZ sp
  \/ MAXX sp <= at0 (dPosit d) \/ MAXY sp <= at1 (dPosit d)
  \/ MAXZ sp <= at2 (dPosit d).
Proof.
  unfold deleted, dge.
  rewrite !orb_true_iff, !dle_true, Z.ltb_lt. tauto.
Qed.

Lemma delete_particles_filter sp pp :
  delete_particles sp pp =
  filter (fun d => negb (deleted sp d)) (map (decrease_ttl sp) pp).
Proof.
  induction pp as [|d rest IH]; simpl; [reflexivity|].
  destruct (deleted sp (decrease_ttl sp d)); simpl; now rewrite IH.
Qed.


(** C1.  After the cull every particle of the pool has [ttl >= 0] and lies
    strictly inside the domain box; a particle whose ttl (after the TTL
    step) is negative, or which has a coordinate at or beyond a face of the
    box, is not in the pool; and nothing else is removed. *)
Theorem cull_invariant sp pp :
  (forall d, In d (delete_particles sp pp) ->
             (0 <= dTTL d)%Z /\ interior sp (dPosit d)) /\
  (forall d, In d (map (decrease_ttl sp) pp) ->
             ((dTTL d < 0)%Z
              \/ at0 (dPosit d) <= MINX sp \/ at1 (dPosit d) <= MINY sp
              \/ at2 (dPosit d) <= MINZ sp
              \/ MAXX sp <= at0 (dPosit d) \/ MAXY sp <= at1 (dPosit d)
              \/ MAXZ sp <= at2 (dPosit d)) ->
             ~ In d (delete_particles sp pp)) /\
  (forall d, In d (map (decrease_ttl sp) pp) ->
             (0 <= dTTL d)%Z -> interior sp (dPosit d) ->
             In d (delete_particles sp pp)).
Proof.
  rewrite delete_particles_filter. split; [|split].
  - intros d H. apply filter_In in H as [_ H]. apply negb_true_iff in H.
    now apply deleted_false in H.
  - intros d _ Hout Hin.
    apply filter_In in Hin as [_ Hin]. apply negb_true_iff in Hin.
    apply deleted_true in Hout. congruence.
  - intros d Hin Httl Hbox. apply filter_In. split; [assumption|].
    apply negb_true_iff, deleted_false. now split.
Qed.

(** ** Stage 9: the TTL step *)

Lemma ttl_test_true sp d :
  ttl_test sp d = true <-> SPRAY sp < dDensity d < BUBBLES sp.
Proof.
  unfold ttl_test, dgt. rewrite andb_true_iff, !dlt_true. tauto.
Qed.

Lemma ttype_foam sp d :
  ttype sp d = 1%Z <-> SPRAY sp <= dDensity d <= BUBBLES sp.
Proof.
  unfold ttype, dgt.
  destruct (dlt (dDensity d) (SPRAY sp)) eqn:E1;
    [apply dlt_true in E1 | apply dlt_false in E1].
  - split; [discriminate | lra].
  - destruct (dlt (BUBBLES sp) (dDensity d)) eqn:E2;
      [apply dlt_true in E2 | apply dlt_false in E2].
    + split; [discriminate | lra].
    + split; [lra | reflexivity].
Qed.


Lemma magnitude_zero : ops.magnitude (V3 0 0 0) = 0.
Proof.
  unfold ops.magnitude. simpl.
  replace (0 * 0 + 0 * 0 + 0 * 0) with 0 by lra. apply sqrt_0.
Qed.

(** Stage 8 on a diffuse particle that sits on six fluid particles at
    rest, with [SPRAY = 6]: the density is 6, the foam law is applied, and
    the particle stays where it is. *)
Lemma six_neighbours_foam :
  let sp := demo_params 1 1 0 6 [mkTimeOut 0 1] in
  let d := mkDiffuse (V3 1 1 1) (V3 0 0 0) 7%Z 3%Z 0 in
  update_particle sp (mkTimeOut 0 1) six_fluid d
    = foam_update (mkTimeOut 0 1) d 6
        (fst (smoothed_sums sp six_fluid (V3 1 1 1)))
        (snd (smoothed_sums sp six_fluid (V3 1 1 1))) /\
  update_particle sp (mkTimeOut 0 1) six_fluid d = foam_edge.
Proof.
  cbv zeta.
  assert (D : density_at (demo_params 1 1 0 6 [mkTimeOut 0 1]) six_fluid
                         (V3 1 1 1) 0 = 6).
  { unfold density_at, ops.substract. simpl.
    replace (1 - 1) with 0 by lra. rewrite magnitude_zero.
    decide_cmp. lra. }
  assert (E : update_particle (demo_params 1 1 0 6 [mkTimeOut 0 1])
                (mkTimeOut 0 1) six_fluid
                (mkDiffuse (V3 1 1 1) (V3 0 0 0) 7%Z 3%Z 0)
              = foam_update (mkTimeOut 0 1)
                  (mkDiffuse (V3 1 1 1) (V3 0 0 0) 7%Z 3%Z 0) 6
                  (fst (smoothed_sums (demo_params 1 1 0 6 [mkTimeOut 0 1])
                          six_fluid (V3 1 1 1)))
                  (snd (smoothed_sums (demo_params 1 1 0 6 [mkTimeOut 0 1])
                          six_fluid (V3 1 1 1)))).
  { unfold update_particle. cbv zeta. cbn [dPosit]. rewrite D.
    cbn [SPRAY BUBBLES demo_params]. decide_cmp. reflexivity. }
  split; [exact E|]. rewrite E.
  unfold foam_update, foam_edge, smoothed_sums. simpl.
  f_equal; f_equal; unfold Rdiv; ring.
Qed.

(** C4.  The program at a persistent particle with exactly [SPRAY = 6]
    fluid neighbours and [ttl = 3]: stage 8 applies the foam law and
    stores the density 6, the entry is written out as foam (type 1), yet
    stage 9 leaves its ttl at 3; the same at a density equal to
    [BUBBLES]. *)
Theorem ttl_kept_on_foam_boundary :
  let sp := demo_params 1 1 0 6 [mkTimeOut 0 1] in
  let d := mkDiffuse (V3 1 1 1) (V3 0 0 0) 7%Z 3%Z 0 in
  let top := mkDiffuse (V3 1 1 1) (V3 0 0 0) 7%Z 3%Z 20 in
  update_particle sp (mkTimeOut 0 1) six_fluid d = foam_edge /\
  survivors sp (mkTimeOut 0 1) six_fluid [d] = [foam_edge] /\
  dDensity foam_edge = SPRAY sp /\
  ttype sp foam_edge = 1%Z /\
  dlt (dDensity foam_edge) (SPRAY sp) = false /\
  dgt (dDensity foam_edge) (BUBBLES sp) = false /\
  delete_particles sp [foam_edge] = [foam_edge] /\
  dTTL foam_edge = dTTL d /\
  dDensity top = BUBBLES sp /\
  ttype sp top = 1%Z /\
  delete_particles sp [top] = [top].
Proof.
  cbv zeta. destruct six_neighbours_foam as [_ U]. cbv zeta in U.
  split; [exact U|]. split.
  { unfold survivors. cbn [map]. rewrite U.
    unfold foam_edge, delete_particles, decrease_ttl, ttl_test, deleted.
    repeat (progress (simpl; decide_cmp)). reflexivity. }
  unfold foam_edge, delete_particles, decrease_ttl, ttl_test, deleted, ttype.
  repeat (progress (simpl; decide_cmp)). repeat split; reflexivity.
Qed.

(** ** Driver: the time step of a frame *)

Lemma next_tstep_idx_one_iteration sp idx n :
  next_tstep_idx sp idx n = spec_while_tstep_idx sp 1 idx n.
Proof. reflexivity. Qed.

Lemma next_tstep_idx_cases sp idx n :
  next_tstep_idx sp idx n = idx \/ next_tstep_idx sp idx n = S idx.
Proof.
  unfold next_tstep_idx. destruct (_ && _); [right | left]; reflexivity.
Qed.

Lemma spec_while_stops sp fuel idx n :
  ((idx + 1 <? ntimesteps sp)%nat
   && (n >? nstep (nth (idx + 1) (timesteps sp) TimeOut0))%Z) = false ->
  spec_while_tstep_idx sp fuel idx n = idx.
Proof. intros H. destruct fuel; simpl; [reflexivity | now rewrite H]. Qed.

(** C8, refuted as stated: the run [late_start] begins at frame 5, which
    has passed the entries 1 and 2 of its schedule; the loop of the
    specification moves the index from 0 to 2 and selects [tout = 0.25],
    the program moves it to 1 and selects [tout = 0.5] (the run below
    stops at the load of frame 5, with the index the program has chosen
    for that frame). *)
Lemma tstep_idx_lags_behind_while :
  let sp := late_start in
  nstart sp = 5%Z /\
  next_tstep_idx sp 0 5 = 1%nat /\
  spec_while_tstep_idx sp (ntimesteps sp) 0 5 = 2%nat /\
  tout (nth (next_tstep_idx sp 0 5) (timesteps sp) TimeOut0) = 0.5 /\
  tout (nth (spec_while_tstep_idx sp (ntimesteps sp) 0 5) (timesteps sp)
            TimeOut0) = 0.25 /\
  next_tstep_idx sp 0 5 <> spec_while_tstep_idx sp (ntimesteps sp) 0 5 /\
  runSimulation sp (fun _ => None) = Some (mkState 0 [] 1 []).
Proof.
  cbv zeta. unfold next_tstep_idx. simpl. repeat split. discriminate.
Qed.

Lemma spec_while_ge sp fuel :
  forall idx n, (idx <= spec_while_tstep_idx sp fuel idx n)%nat.
Proof.
  induction fuel as [|fuel IH]; intros idx n; cbn [spec_while_tstep_idx];
    [lia|].
  destruct (_ && _); [|lia]. specialize (IH (S idx) n). lia.
Qed.

Lemma next_tstep_idx_bound sp idx n :
  (idx < ntimesteps sp)%nat -> (next_tstep_idx sp idx n < ntimesteps sp)%nat.
Proof.
  intros Hi. unfold next_tstep_idx.
  destruct (idx + 1 <? ntimesteps sp)%nat eqn:E; cbn [andb]; [|exact Hi].
  apply Nat.ltb_lt in E. destruct (_ >? _)%Z; lia.
Qed.

(** C8, amended.  In a frame whose snapshot could be loaded the driver
    tests the next schedule entry once: the index moves to
    [tstep_idx + 1] exactly when that entry exists and [nstep] is greater
    than its [nstep], and stays otherwise, so it never moves by more than
    one per frame and stays inside the schedule.  The stages of the frame
    run with [dt], the entry of the schedule at the resulting index: the
    newborns and the survivors of the frame are computed with it.  The
    resulting index is the result of the loop of the specification (for
    any bound of 2 or more on its iterations) exactly when the entry after
    it has not been passed. *)
Theorem tstep_idx_single_test sp loadFile count n st fr
  (in_schedule : (tstep_idx st < ntimesteps sp)%nat)
  (loaded : loadFile n = Some fr) :
  let idx := tstep_idx st in
  let idx' := next_tstep_idx sp idx n in
  let passed := fun k =>
    (k + 1 <? ntimesteps sp)%nat
    && (n >? nstep (nth (k + 1) (timesteps sp) TimeOut0))%Z in
  let dt := nth idx' (timesteps sp) TimeOut0 in
  let st1 := mkState (difId st) (ppool st) idx' (outputs st) in
  (idx' = S idx <->
   (idx + 1 < ntimesteps sp)%nat /\
   (n > nstep (nth (idx + 1) (timesteps sp) TimeOut0))%Z) /\
  (idx' = idx <->
   ~ ((idx + 1 < ntimesteps sp)%nat /\
      (n > nstep (nth (idx + 1) (timesteps sp) TimeOut0))%Z)) /\
  (idx <= idx' <= idx + 1)%nat /\
  (idx' < ntimesteps sp)%nat /\
  In dt (timesteps sp) /\
  run_loop sp loadFile (S count) n st =
    match frame sp n fr st1 with
    | None => None
    | Some st2 => run_loop sp loadFile count (n + 1)%Z st2
    end /\
  (forall st2,
     frame sp n fr st1 = Some st2 ->
     tstep_idx st2 = idx' /\
     exists newborn,
       newborns sp dt fr (difId st) = Some (newborn, difId st2) /\
       ppool st2 =
         append_new (npdiffuse_of (ndiffuse_of sp dt fr))
                    (survivors sp dt fr (ppool st)) newborn) /\
  (forall fuel, (2 <= fuel)%nat ->
     (spec_while_tstep_idx sp fuel idx n = idx' <-> passed idx' = false)).
Proof.
  cbv zeta.
  assert (T : ((tstep_idx st + 1 <? ntimesteps sp)%nat
               && (n >? nstep (nth (tstep_idx st + 1) (timesteps sp)
                                   TimeOut0))%Z) = true <->
              (tstep_idx st + 1 < ntimesteps sp)%nat /\
              (n > nstep (nth (tstep_idx st + 1) (timesteps sp) TimeOut0))%Z).
  { rewrite andb_true_iff, Nat.ltb_lt, Z.gtb_gt. tauto. }
  pose proof (next_tstep_idx_bound sp (tstep_idx st) n in_schedule) as B.
  split; [|split; [|split; [|split; [|split; [|split; [|split]]]]]].
  - rewrite <- T. unfold next_tstep_idx.
    destruct (_ && _); split; intros H; try reflexivity; try discriminate.
    lia.
  - rewrite <- T. unfold next_tstep_idx.
    destruct (_ && _); split; intros H; try reflexivity;
      try (intros H'; discriminate); try lia; try (now elim H).
  - destruct (next_tstep_idx_cases sp (tstep_idx st) n) as [E | E]; lia.
  - exact B.
  - now apply nth_In.
  - cbn [run_loop]. rewrite loaded. reflexivity.
  - intros st2 F. unfold frame in F. cbn [tstep_idx difId ppool outputs] in F.
    destruct (newborns sp _ fr (difId st)) as [[nb id']|] eqn:N;
      [|discriminate].
    injection F as <-. cbn [tstep_idx difId ppool].
    split; [reflexivity|]. exists nb. split; reflexivity.
  - intros fuel Hf. destruct fuel as [|[|fuel]]; try lia.
    cbn [spec_while_tstep_idx]. unfold next_tstep_idx.
    destruct ((tstep_idx st + 1 <? ntimesteps sp)%nat
              && (n >? nstep (nth (tstep_idx st + 1) (timesteps sp)
                                  TimeOut0))%Z) eqn:E1.
    + destruct ((S (tstep_idx st) + 1 <? ntimesteps sp)%nat
                && (n >? nstep (nth (S (tstep_idx st) + 1) (timesteps sp)
                                    TimeOut0))%Z) eqn:E2.
      * split; [|discriminate]. intros H.
        pose proof (spec_while_ge sp fuel (S (S (tstep_idx st))) n). lia.
      * split; reflexivity.
    + rewrite E1. split; reflexivity.
Qed.

Lemma tstep_idx_single_test_witness :
  In (nth (next_tstep_idx late_start (tstep_idx initial) 5)
          (timesteps late_start) TimeOut0)
     (timesteps late_start).
Proof.
  refine (proj1 (proj2 (proj2 (proj2 (proj2
            (tstep_idx_single_test late_start (fun _ => Some empty_frame)
               0 5 initial empty_frame _ _)))))).
  - unfold ntimesteps. simpl. lia.
  - reflexivity.
Defined.

(** Over a run: after [count] frames the index has moved by at most
    [count]. *)
Lemma run_loop_tstep_idx sp loadFile count :
  forall n st st',
    run_loop sp loadFile count n st = Some st' ->
    (tstep_idx st <= tstep_idx st' <= tstep_idx st + count)%nat.
Proof.
  induction count as [|count IH]; intros n st st' H; simpl in H.
  - injection H as <-. lia.
  - pose proof (next_tstep_idx_cases sp (tstep_idx st) n) as Hstep.
    destruct (loadFile n) as [fr|].
    + unfold frame in H. simpl in H.
      destruct (newborns _ _ _ _) as [[nb id']|]; [|discriminate].
      apply IH in H. simpl in H. lia.
    + injection H as <-. simpl. lia.
Qed.

(** ** Stage 8 without fluid neighbours: the spray law *)

Section Spray.

Variable sp : SimulationParams.
Variable timeout : TimeOut.
Variable fr : Frame.
Hypothesis no_neighbours : forall x, getSurroundingBuckets fr x = [].
Hypothesis spray_positive : 0 < SPRAY sp.

Lemma update_is_spray d :
  update_particle sp timeout fr d = spray_update timeout d 0.
Proof.
  unfold update_particle, density_at. rewrite no_neighbours. simpl.
  now rewrite (proj2 (dlt_true 0 (SPRAY sp))).
Qed.

Lemma spray_frames N d :
  let dt := tout timeout in
  let dN := Nat.iter N (update_particle sp timeout fr) d in
  at0 (dVel dN) = at0 (dVel d) /\
  at1 (dVel dN) = at1 (dVel d) /\
  at2 (dVel dN) = at2 (dVel d) - 9.81 * (INR N * dt) /\
  at0 (dPosit dN) = at0 (dPosit d) + at0 (dVel d) * (INR N * dt) /\
  at1 (dPosit dN) = at1 (dPosit d) + at1 (dVel d) * (INR N * dt) /\
  at2 (dPosit dN) =
    at2 (dPosit d) + at2 (dVel d) * (INR N * dt)
    - 9.81 * dt * dt * (INR N * (INR N + 1)) / 2.
Proof.
  cbv zeta. induction N as [|N IH].
  - simpl. repeat split; lra.
  - rewrite S_INR, Nat.iter_succ, update_is_spray.
    destruct IH as (V0 & V1 & V2 & P0 & P1 & P2).
    unfold spray_update. cbn [dVel dPosit at0 at1 at2].
    rewrite V0, V1, V2, P0, P1, P2. repeat split; lra.
Qed.

End Spray.

(** C6, refuted as stated: one diffuse particle at rest at height 5, no
    fluid neighbours, [KB = KD = 0], [dt = 1]; after one frame the program
    has it at [z = 5 - 9.81], the projectile formula gives [5 - 4.905]:
    the two differ by 4.905, not by at most 1e-9. *)
Lemma spray_one_frame_off_parabola :
  let sp := demo_params 1 1 0 6 [mkTimeOut 0 1] in
  let timeout := mkTimeOut 0 1 in
  let d := mkDiffuse (V3 5 5 5) (V3 0 0 0) 0%Z 1%Z 0 in
  let N := 1%nat in
  let t := INR N * tout timeout in
  KB sp = 0 /\ KD sp = 0 /\
  at2 (dPosit (Nat.iter N (update_particle sp timeout empty_frame) d))
    = 5 - 9.81 /\
  ~ Rabs (at2 (dPosit (Nat.iter N (update_particle sp timeout empty_frame) d))
          - (at2 (dPosit d) + at2 (dVel d) * t - 1 / 2 * 9.81 * t * t))
    <= 1e-9.
Proof.
  cbv zeta.
  assert (E : at2 (dPosit (Nat.iter 1
                (update_particle (demo_params 1 1 0 6 [mkTimeOut 0 1])
                   (mkTimeOut 0 1) empty_frame)
                (mkDiffuse (V3 5 5 5) (V3 0 0 0) 0%Z 1%Z 0))) = 5 - 9.81).
  { rewrite Nat.iter_succ, update_is_spray; [|reflexivity|simpl; lra].
    simpl. lra. }
  repeat split; try reflexivity; try exact E.
  rewrite E. simpl. intros H.
  rewrite Rabs_left in H by lra. lra.
Qed.

(** C6, amended.  With no fluid neighbours (and [0 < SPRAY], so that the
    density 0 is spray) N frames of constant [dt] put the particle at
    [z0 + vz t - g t^2 / 2 - g dt t / 2] with [t = N dt] and [g = 9.81]:
    the program updates the velocity before the position, and its
    distance to the projectile parabola is exactly [g dt t / 2]. *)
Theorem spray_trajectory sp timeout fr (N : nat) d
  (no_neighbours : forall x, getSurroundingBuckets fr x = [])
  (spray_positive : 0 < SPRAY sp) :
  let dt := tout timeout in
  let t := INR N * dt in
  let zN := at2 (dPosit (Nat.iter N (update_particle sp timeout fr) d)) in
  zN = at2 (dPosit d) + at2 (dVel d) * t - 1 / 2 * 9.81 * t * t
       - 1 / 2 * 9.81 * dt * t /\
  (at2 (dPosit d) + at2 (dVel d) * t - 1 / 2 * 9.81 * t * t) - zN
    = 1 / 2 * 9.81 * dt * t.
Proof.
  cbv zeta.
  destruct (spray_frames sp timeout fr no_neighbours spray_positive N d)
    as (_ & _ & _ & _ & _ & P2).
  cbv zeta in P2. rewrite P2. split; lra.
Qed.

Lemma spray_trajectory_witness :
  at2 (dPosit (Nat.iter 2
         (update_particle (demo_params 1 1 0 6 [mkTimeOut 0 1])
            (mkTimeOut 0 1) empty_frame)
         (mkDiffuse (V3 5 5 5) (V3 0 0 0) 0%Z 1%Z 0)))
  = 5 + 0 * (INR 2 * 1) - 1 / 2 * 9.81 * (INR 2 * 1) * (INR 2 * 1)
    - 1 / 2 * 9.81 * 1 * (INR 2 * 1).
Proof.
  refine (proj1 (spray_trajectory (demo_params 1 1 0 6 [mkTimeOut 0 1])
                   (mkTimeOut 0 1) empty_frame 2
                   (mkDiffuse (V3 5 5 5) (V3 0 0 0) 0%Z 1%Z 0) _ _)).
  - reflexivity.
  - simpl. lra.
Defined.

(** ** Stage 6: the vectors [e1] and [e2] *)

Lemma dot_normalize a b :
  ops.dotProduct (ops.normalize a) b = ops.dotProduct a b / ops.magnitude a.
Proof. unfold ops.dotProduct, ops.normalize. simpl. unfold Rdiv. ring. Qed.

Lemma magnitude_positive a :
  0 < at0 a * at0 a + at1 a * at1 a + at2 a * at2 a -> 0 < ops.magnitude a.
Proof. intros H. unfold ops.magnitude. now apply sqrt_lt_R0. Qed.

(** For a velocity with a non-zero x component the program solves the
    equation of the plane through the particle position [pos], so [e1] is
    the direction of a point of that plane, and its product with the
    velocity is [pos . vel] over the length of that point. *)
Lemma spawn_e1_dot pos vel :
  at0 vel <> 0 ->
  ops.dotProduct (spawn_e1 pos vel) vel =
  ops.dotProduct pos vel
  / ops.magnitude (V3 (solveEq (at2 pos) (at1 pos) (at0 pos)
                               (at2 vel) (at1 vel) (at0 vel) 0 1) 1 0).
Proof.
  intros H. unfold spawn_e1.
  rewrite (proj2 (dne_true (at0 vel) 0)) by assumption.
  rewrite dot_normalize. f_equal.
  unfold ops.dotProduct, solveEq. simpl. field. assumption.
Qed.

(** C7.  The program at the source particle [pos = (1,0,0)],
    [vel = (1,0,0)]: [e1] is [(1,1,0)] normalized and [e1 . vel] is
    [1 / sqrt 2], not 0.  At [pos = (0,0,0)], [vel = (1,1,1)]: [e1] is
    perpendicular to the velocity, [e2] is not. *)
Theorem spawn_basis_not_perpendicular :
  (let pos := V3 1 0 0 in
   let vel := V3 1 0 0 in
   spawn_e1 pos vel = ops.normalize (V3 1 1 0) /\
   ops.dotProduct (spawn_e1 pos vel) vel = 1 / sqrt 2 /\
   ops.dotProduct (spawn_e1 pos vel) vel <> 0) /\
  (let pos := V3 0 0 0 in
   let vel := V3 1 1 1 in
   let e1 := spawn_e1 pos vel in
   e1 = ops.normalize (V3 (-1) 1 0) /\
   ops.dotProduct e1 vel = 0 /\
   ops.dotProduct (spawn_e2 e1 vel) vel <> 0).
Proof.
  assert (S2 : 0 < sqrt 2) by (apply sqrt_lt_R0; lra).
  assert (I2 : 0 < / sqrt 2) by now apply Rinv_0_lt_compat.
  split; cbv zeta.
  - assert (E : spawn_e1 (V3 1 0 0) (V3 1 0 0) = ops.normalize (V3 1 1 0)).
    { unfold spawn_e1. simpl. decide_cmp. f_equal. f_equal.
      unfold solveEq. lra. }
    split; [exact E|]. rewrite E, dot_normalize.
    unfold ops.dotProduct, ops.magnitude. simpl.
    replace (1 * 1 + 1 * 1 + 0 * 0) with 2 by lra.
    replace (1 * 1 + 1 * 0 + 0 * 0) with 1 by lra.
    split; [reflexivity|]. unfold Rdiv. lra.
  - assert (E : spawn_e1 (V3 0 0 0) (V3 1 1 1) = ops.normalize (V3 (-1) 1 0)).
    { unfold spawn_e1. simpl. decide_cmp. f_equal. f_equal.
      unfold solveEq. lra. }
    split; [exact E|]. rewrite E. split.
    + rewrite dot_normalize. unfold ops.dotProduct. simpl.
      unfold Rdiv. lra.
    + unfold spawn_e2. rewrite dot_normalize.
      assert (M : ops.magnitude (V3 (-1) 1 0) = sqrt 2).
      { unfold ops.magnitude. simpl. f_equal. lra. }
      unfold ops.normalize. rewrite !M. simpl.
      set (raw := V3 _ _ _).
      assert (D : ops.dotProduct raw (V3 1 1 1) = - 2 * / sqrt 2).
      { unfold ops.dotProduct, raw. simpl. unfold Rdiv. lra. }
      assert (P : 0 < ops.magnitude raw).
      { apply magnitude_positive. unfold raw. simpl. unfold Rdiv.
        nra. }
      rewrite D. unfold Rdiv.
      apply Rinv_0_lt_compat in P.
      apply Rmult_integral_contrapositive_currified; nra.
Qed.

(** ** Arrays *)

Lemma write_length {A} (arr : list A) i x : length (write arr i x) = length arr.
Proof.
  revert i. induction arr as [|a rest IH]; intros [|i]; simpl; auto.
Qed.

Lemma nth_write_same {A} (arr : list A) i x dflt :
  (i < length arr)%nat -> nth i (write arr i x) dflt = x.
Proof.
  revert i. induction arr as [|a rest IH]; intros [|i] H; simpl in *;
    try lia; auto. apply IH. lia.
Qed.

Lemma nth_write_other {A} (arr : list A) i j x dflt :
  i <> j -> nth j (write arr i x) dflt = nth j arr dflt.
Proof.
  revert i j. induction arr as [|a rest IH]; intros [|i] [|j] H; simpl;
    try reflexivity; try contradiction. apply IH. congruence.
Qed.

Lemma overlay_nil {A} (base : list A) : overlay [] base = base.
Proof. now destruct base. Qed.

Lemma overlay_length {A} (L base : list A) :
  length (overlay L base) = length base.
Proof.
  revert base. induction L as [|x L IH]; intros [|b base]; simpl; auto.
Qed.

Lemma overlay_full {A} (L base : list A) :
  length L = length base -> overlay L base = L.
Proof.
  revert base. induction L as [|x L IH]; intros [|b base] H; simpl in *;
    try discriminate; auto. f_equal. apply IH. lia.
Qed.

Lemma write_overlay {A} (L base : list A) x :
  write (overlay L base) (length L) x = overlay (L ++ [x]) base.
Proof.
  revert base. induction L as [|a L IH]; intros [|b base]; simpl; auto.
  now rewrite IH.
Qed.

Lemma fold_left_concat {A B} (f : A -> B -> A) (ls : list (list B)) a :
  fold_left (fun a' l => fold_left f l a') ls a = fold_left f (concat ls) a.
Proof.
  revert a. induction ls as [|l ls IH]; intros a; simpl; [reflexivity|].
  now rewrite fold_left_app, IH.
Qed.

(** ** Stage 6: what the spawner writes *)

Lemma spawn_list_length mk count idif d :
  length (spawn_list mk count idif d) = count.
Proof.
  revert idif d. induction count as [|c IH]; intros; simpl; auto.
Qed.

Lemma spawn_loop_overlay mk count :
  forall L base d,
    spawn_loop mk count (mkSpawn (overlay L base) (length L) d) =
    mkSpawn (overlay (L ++ spawn_list mk count (length L) d) base)
            (length L + count) (d + Z.of_nat count).
Proof.
  induction count as [|c IH]; intros L base d.
  - simpl. rewrite app_nil_r. f_equal; lia.
  - cbn [spawn_loop spawn_list s_arr s_idif s_difId].
    rewrite write_overlay.
    replace (S (length L)) with (length (L ++ [mk (length L) d]))
      by (rewrite length_app; simpl; lia).
    rewrite IH, <- app_assoc. simpl.
    f_equal; rewrite ?length_app; simpl; lia.
Qed.

Lemma spawn_particle_loop sp timeout rand nd s pi :
  spawn_particle sp timeout rand nd s pi =
  spawn_loop
    (spawn_one sp timeout rand (p_pos pi) (p_vel pi)
       (spawn_e1 (p_pos pi) (p_vel pi))
       (spawn_e2 (spawn_e1 (p_pos pi) (p_vel pi)) (p_vel pi))
       (ops.normalize (V3 (at0 (p_vel pi)) (at1 (p_vel pi)) (at2 (p_vel pi))))
       (nth (Z.to_nat (p_id pi)) nd 0%Z))
    (Z.to_nat (nth (Z.to_nat (p_id pi)) nd 0%Z)) s.
Proof.
  unfold spawn_particle.
  destruct (1 <=? nth (Z.to_nat (p_id pi)) nd 0)%Z eqn:E; [reflexivity|].
  apply Z.leb_gt in E.
  replace (Z.to_nat (nth (Z.to_nat (p_id pi)) nd 0%Z)) with 0%nat by lia.
  reflexivity.
Qed.

Lemma spawn_overlay sp timeout rand nd bs :
  forall L base d,
    spawn sp timeout rand nd bs (mkSpawn (overlay L base) (length L) d) =
    let new := spawned sp timeout rand nd (concat bs) (length L) d in
    mkSpawn (overlay (L ++ new) base)
            (length L + length new) (d + Z.of_nat (length new)).
Proof.
  unfold spawn. intros L base d. rewrite fold_left_concat.
  revert L d. induction (concat bs) as [|pi ps IH]; intros L d.
  - simpl. rewrite app_nil_r. f_equal; lia.
  - cbn [fold_left spawned]. cbv zeta.
    rewrite spawn_particle_loop, spawn_loop_overlay.
    set (n := Z.to_nat (nth (Z.to_nat (p_id pi)) nd 0%Z)).
    set (mk := spawn_one _ _ _ _ _ _ _ _ _).
    replace (length L + n)%nat with (length (L ++ spawn_list mk n (length L) d))
      by (rewrite length_app, spawn_list_length; reflexivity).
    rewrite IH. cbv zeta.
    rewrite !length_app, spawn_list_length, <- app_assoc.
    f_equal; lia.
Qed.

(** ** Stage 5: the counts *)

Lemma floor_int_IZR z : floor_int (IZR z) = z.
Proof. unfold floor_int. symmetry. apply Int_part_spec. lra. Qed.

Lemma floor_int_nonneg x : 0 <= x -> (0 <= floor_int x)%Z.
Proof.
  intros H. unfold floor_int.
  destruct (base_Int_part x) as [_ Hlow].
  assert (IZR (-1) < IZR (Int_part x)) by (simpl; lra).
  apply lt_IZR in H0. lia.
Qed.

Lemma nth_map_seq {A} (f : nat -> A) n i dflt :
  (i < n)%nat -> nth i (map f (seq 0 n)) dflt = f i.
Proof.
  intros H. rewrite (nth_indep _ dflt (f 0%nat))
    by (rewrite length_map, length_seq; exact H).
  rewrite map_nth, seq_nth by exact H. reflexivity.
Qed.

Lemma nth_clamp_array n arr tmin tmax i :
  (i < n)%nat ->
  nth i (clamp_array n arr tmin tmax) 0 = phi (nth i arr 0) tmin tmax.
Proof. intros H. unfold clamp_array. now rewrite nth_map_seq. Qed.

Lemma ndiffuse_of_length sp timeout fr :
  length (ndiffuse_of sp timeout fr) = npoints fr.
Proof. unfold ndiffuse_of. now rewrite length_map, length_seq. Qed.

Lemma nth_ndiffuse_of sp timeout fr i :
  (i < npoints fr)%nat ->
  nth i (ndiffuse_of sp timeout fr) 0%Z =
  floor_int (nth i (energy_of sp fr) 0
             * (KTA sp * nth i (Ita_of sp fr) 0
                + KWC sp * nth i (waveCrest_of sp fr) 0)
             * tout timeout).
Proof. intros H. unfold ndiffuse_of. now rewrite nth_map_seq. Qed.

Lemma fold_left_Zadd l a :
  fold_left Z.add l a = (a + fold_right Z.add 0 l)%Z.
Proof.
  revert a. induction l as [|x l IH]; intros a; simpl; [lia|].
  rewrite IH. lia.
Qed.

Lemma npdiffuse_of_sum nd : npdiffuse_of nd = fold_right Z.add 0%Z nd.
Proof. unfold npdiffuse_of. now rewrite fold_left_Zadd. Qed.

Lemma sum_nonneg l :
  (forall i, (i < length l)%nat -> (0 <= nth i l 0)%Z) ->
  (0 <= fold_right Z.add 0 l)%Z.
Proof.
  induction l as [|x l IH]; intros H; simpl; [lia|].
  assert (0 <= x)%Z by (apply (H 0%nat); simpl; lia).
  assert (0 <= fold_right Z.add 0 l)%Z.
  { apply IH. intros i Hi. apply (H (S i)). simpl. lia. }
  lia.
Qed.

Lemma sum_by_index l :
  (forall i, (i < length l)%nat -> (0 <= nth i l 0)%Z) ->
  Z.of_nat (list_sum (map (fun i => Z.to_nat (nth i l 0%Z))
                          (seq 0 (length l))))
  = fold_right Z.add 0%Z l.
Proof.
  unfold list_sum. induction l as [|x l IH]; intros H; [reflexivity|].
  cbn [length]. rewrite <- cons_seq, <- seq_shift. cbn [map fold_right nth].
  rewrite map_map. cbn [nth].
  assert (0 <= x)%Z by (apply (H 0%nat); simpl; lia).
  rewrite Nat2Z.inj_add, IH.
  - lia.
  - intros i Hi. apply (H (S i)). simpl. lia.
Qed.

Lemma spawned_length sp timeout rand nd ps :
  forall idif d,
    length (spawned sp timeout rand nd ps idif d) =
    list_sum (map (fun z => Z.to_nat (nth (Z.to_nat z) nd 0%Z))
                  (map p_id ps)).
Proof.
  induction ps as [|pi ps IH]; intros idif d; [reflexivity|].
  cbn [spawned map list_sum fold_right]. cbv zeta.
  rewrite length_app, spawn_list_length, IH. reflexivity.
Qed.

(** In a well-formed snapshot with non-negative counts the spawner writes
    as many records as the counts add up to. *)
Lemma spawned_total sp timeout rand nd fr idif d :
  well_formed fr -> length nd = npoints fr ->
  (forall i, (i < length nd)%nat -> (0 <= nth i nd 0)%Z) ->
  Z.of_nat (length (spawned sp timeout rand nd (concat (buckets fr)) idif d))
  = npdiffuse_of nd.
Proof.
  intros wf Hlen Hpos. rewrite spawned_length, npdiffuse_of_sum.
  rewrite (Permutation_list_sum (Permutation_map _ wf)).
  rewrite map_map, <- Hlen.
  rewrite <- (sum_by_index nd Hpos). do 2 f_equal.
  apply map_ext. intros i. now rewrite Nat2Z.id.
Qed.

Lemma newborns_spawned sp timeout fr difId0 :
  newborns sp timeout fr difId0 =
  let nd := ndiffuse_of sp timeout fr in
  if (npdiffuse_of nd <? 0)%Z then None
  else
    let new := spawned sp timeout (tempRand fr) nd (concat (buckets fr))
                       0 difId0 in
    Some (map (classify_newborn sp fr)
              (overlay new (repeat diffuse0 (Z.to_nat (npdiffuse_of nd)))),
          (difId0 + Z.of_nat (length new))%Z).
Proof.
  unfold newborns. cbv zeta.
  destruct (npdiffuse_of (ndiffuse_of sp timeout fr) <? 0)%Z; [reflexivity|].
  pose proof (spawn_overlay sp timeout (tempRand fr)
                (ndiffuse_of sp timeout fr) (buckets fr) []
                (repeat diffuse0
                   (Z.to_nat (npdiffuse_of (ndiffuse_of sp timeout fr))))
                difId0) as E.
  rewrite overlay_nil in E. cbn [length app Nat.add] in E. cbv zeta in E.
  rewrite E. reflexivity.
Qed.

Lemma newborns_length sp timeout fr difId0 newborn difId' :
  newborns sp timeout fr difId0 = Some (newborn, difId') ->
  Z.of_nat (length newborn) = npdiffuse_of (ndiffuse_of sp timeout fr).
Proof.
  rewrite newborns_spawned. cbv zeta.
  destruct (npdiffuse_of (ndiffuse_of sp timeout fr) <? 0)%Z eqn:E;
    [discriminate|].
  intros H. injection H as <- _.
  rewrite length_map, overlay_length, repeat_length.
  apply Z.ltb_ge in E. lia.
Qed.

Lemma append_new_app npdiffuse pp newborn :
  Z.of_nat (length newborn) = npdiffuse ->
  append_new npdiffuse pp newborn = pp ++ newborn.
Proof.
  intros H. unfold append_new.
  destruct (npdiffuse >? 0)%Z eqn:E; [reflexivity|].
  assert (length newborn = 0%nat) by lia.
  apply length_zero_iff_nil in H0. subst newborn. now rewrite app_nil_r.
Qed.


(** ** The ids of the newborns *)

Lemma spawn_list_ids sp timeout rand pos vel e1 e2 nvel n count :
  forall idif d,
    map dIds (spawn_list (spawn_one sp timeout rand pos vel e1 e2 nvel n)
                         count idif d)
    = map (fun k => wrap32 (d + Z.of_nat k)) (seq 0 count).
Proof.
  induction count as [|c IH]; intros idif d; [reflexivity|].
  cbn [spawn_list map]. rewrite IH, <- cons_seq, <- seq_shift.
  cbn [map]. rewrite map_map. f_equal.
  - unfold spawn_one. cbn [dIds]. f_equal. lia.
  - apply map_ext. intros k. f_equal. lia.
Qed.

Lemma map_seq_offset {A} (f : nat -> A) a n :
  map f (seq a n) = map (fun k => f (a + k)%nat) (seq 0 n).
Proof.
  revert f a. induction n as [|n IH]; intros f a; [reflexivity|].
  cbn [seq map]. rewrite Nat.add_0_r. f_equal.
  rewrite (IH f (S a)), (IH (fun k => f (a + k)%nat) 1%nat).
  apply map_ext. intros k. f_equal. lia.
Qed.

(** The k-th record that the spawner writes carries the counter
    [difId + k], narrowed to an [int]. *)
Lemma spawned_ids sp timeout rand nd ps :
  forall idif d,
    map dIds (spawned sp timeout rand nd ps idif d)
    = map (fun k => wrap32 (d + Z.of_nat k))
          (seq 0 (length (spawned sp timeout rand nd ps idif d))).
Proof.
  induction ps as [|pi ps IH]; intros idif d; [reflexivity|].
  cbn [spawned]. cbv zeta.
  rewrite length_app, seq_app, !map_app, spawn_list_length.
  rewrite spawn_list_ids, IH. f_equal.
  cbn [Nat.add]. rewrite (map_seq_offset _ (Z.to_nat _)).
  apply map_ext. intros k. f_equal. lia.
Qed.

Lemma classify_newborn_ids sp fr l :
  map dIds (map (classify_newborn sp fr) l) = map dIds l.
Proof. rewrite map_map. now apply map_ext. Qed.

Lemma wrap32_small z :
  (-2147483648 <= z < 2147483648)%Z -> wrap32 z = z.
Proof. intros H. unfold wrap32. rewrite Z.mod_small; lia. Qed.

(** While the counter stays below [2^31] the ids are the counter values
    themselves, one after the other. *)
Lemma spawned_ids_below_wrap sp timeout rand nd ps idif d :
  (0 <= d)%Z ->
  (d + Z.of_nat (length (spawned sp timeout rand nd ps idif d))
   <= 2147483648)%Z ->
  map dIds (spawned sp timeout rand nd ps idif d)
  = map (fun k => (d + Z.of_nat k)%Z)
        (seq 0 (length (spawned sp timeout rand nd ps idif d))).
Proof.
  intros Hd Hmax. rewrite spawned_ids. apply map_ext_in.
  intros k Hk. apply in_seq in Hk. apply wrap32_small. lia.
Qed.

(** ** Degenerate inputs: zero velocity, zero denominator *)



Lemma well_formed_ids fr :
  well_formed fr ->
  NoDup (map (fun pi => Z.to_nat (p_id pi)) (concat (buckets fr))) /\
  (forall pi, In pi (concat (buckets fr)) ->
              (Z.to_nat (p_id pi) < npoints fr)%nat).
Proof.
  intros wf. unfold well_formed in wf.
  assert (Hmap : Permutation
                   (map (fun pi => Z.to_nat (p_id pi)) (concat (buckets fr)))
                   (seq 0 (npoints fr))).
  { rewrite <- (map_map p_id Z.to_nat).
    rewrite (Permutation_map Z.to_nat wf), map_map.
    rewrite (map_ext _ (fun i => i) Nat2Z.id), map_id. reflexivity. }
  split.
  - apply (Permutation_NoDup (Permutation_sym Hmap)), seq_NoDup.
  - intros pi Hin.
    assert (In (Z.to_nat (p_id pi)) (seq 0 (npoints fr))).
    { apply (Permutation_in _ Hmap).
      now apply (in_map (fun pi => Z.to_nat (p_id pi))). }
    apply in_seq in H. lia.
Qed.


Lemma magnitude_nonneg a : 0 <= ops.magnitude a.
Proof. apply sqrt_pos. Qed.

Lemma wendland_factor_positive h_ :
  0 < h_ -> 0 < 21 / (16 * PI * h_ * h_ * h_).
Proof.
  intros Hh. pose proof PI_RGT_0 as Hpi.
  apply Rdiv_lt_0_compat; [lra|].
  assert (0 < 16 * PI) by lra.
  apply Rmult_lt_0_compat; [apply Rmult_lt_0_compat;
                            [apply Rmult_lt_0_compat|]|]; assumption.
Qed.

Lemma Wwendland_nonneg xij h_ : 0 < h_ -> 0 <= Wwendland xij h_.
Proof.
  intros Hh. unfold Wwendland. cbv zeta.
  generalize (ops.magnitude xij / h_). intros q.
  unfold dge.
  destruct (dle 0 q && dle q 2) eqn:E; [|lra].
  apply andb_true_iff in E as [E0 E2].
  apply dle_true in E0. apply dle_true in E2.
  pose proof (wendland_factor_positive h_ Hh).
  assert (0 <= 1 - q / 2) by lra.
  set (ad := 21 / (16 * PI * h_ * h_ * h_)) in *.
  set (e1 := 1 - q / 2) in *.
  assert (0 <= e1 * e1 * e1 * e1).
  { apply Rmult_le_pos; [apply Rmult_le_pos; [apply Rmult_le_pos|]|];
      assumption. }
  replace (ad * e1 * e1 * e1 * e1 * (2 * q + 1))
    with (ad * (e1 * e1 * e1 * e1) * (2 * q + 1)) by ring.
  apply Rmult_le_pos; [apply Rmult_le_pos|]; lra.
Qed.

Lemma Wwendland_within xij h_ :
  0 < h_ -> ops.magnitude xij <= h_ -> 0 < Wwendland xij h_.
Proof.
  intros Hh Hm. unfold Wwendland. cbv zeta.
  assert (Hq : 0 <= ops.magnitude xij / h_ <= 1).
  { pose proof (magnitude_nonneg xij). split.
    - apply Rmult_le_pos; [assumption|]. left. now apply Rinv_0_lt_compat.
    - apply Rmult_le_reg_r with h_; [assumption|].
      unfold Rdiv. rewrite Rmult_assoc, Rinv_l by lra. lra. }
  revert Hq. generalize (ops.magnitude xij / h_). intros q Hq.
  unfold dge. rewrite (proj2 (dle_true 0 q)), (proj2 (dle_true q 2)) by lra.
  cbn [andb].
  pose proof (wendland_factor_positive h_ Hh).
  assert (0 < 1 - q / 2) by lra.
  set (ad := 21 / (16 * PI * h_ * h_ * h_)) in *.
  set (e1 := 1 - q / 2) in *.
  assert (0 < e1 * e1 * e1 * e1).
  { apply Rmult_lt_0_compat; [apply Rmult_lt_0_compat;
                              [apply Rmult_lt_0_compat|]|]; assumption. }
  replace (ad * e1 * e1 * e1 * e1 * (2 * q + 1))
    with (ad * (e1 * e1 * e1 * e1) * (2 * q + 1)) by ring.
  apply Rmult_lt_0_compat; [apply Rmult_lt_0_compat|]; lra.
Qed.

Lemma smoothed_sums_den sp pxd :
  forall l acc,
    snd (fold_left
           (fun nd pj =>
              let tval := Wwendland (ops.substract pxd (p_pos pj)) (h sp) in
              (V3 (at0 (fst nd) + at0 (p_vel pj) * tval)
                  (at1 (fst nd) + at1 (p_vel pj) * tval)
                  (at2 (fst nd) + at2 (p_vel pj) * tval),
               snd nd + tval)) l acc)
    = snd acc
      + fold_right
          (fun pj r => Wwendland (ops.substract pxd (p_pos pj)) (h sp) + r)
          0 l.
Proof.
  induction l as [|pj l IH]; intros acc; cbn [fold_left fold_right].
  - lra.
  - rewrite IH. cbn [snd]. lra.
Qed.

Lemma zero_sum_terms {B} (w : B -> R) l :
  (forall x, 0 <= w x) ->
  fold_right (fun x r => w x + r) 0 l = 0 ->
  forall x, In x l -> w x = 0.
Proof.
  intros Hw. induction l as [|y l IH]; intros Hs x Hin; [contradiction|].
  cbn [fold_right] in Hs.
  assert (0 <= fold_right (fun x r => w x + r) 0 l).
  { clear -Hw. induction l as [|z l IHl]; cbn [fold_right]; [lra|].
    pose proof (Hw z). lra. }
  pose proof (Hw y).
  destruct Hin as [<- | Hin]; [lra|]. apply IH; [lra|assumption].
Qed.

Lemma density_at_none sp fr pxd d0 :
  (forall pj, In pj (getSurroundingBuckets fr pxd) ->
              h sp < ops.magnitude (ops.substract pxd (p_pos pj))) ->
  density_at sp fr pxd d0 = d0.
Proof.
  unfold density_at. revert d0.
  induction (getSurroundingBuckets fr pxd) as [|pj l IH]; intros d0 H;
    [reflexivity|].
  cbn [fold_left].
  rewrite (proj2 (dle_false _ _)) by (apply H; now left).
  apply IH. intros q Hq. apply H. now right.
Qed.

(** A zero denominator means that no fluid particle is within [h]. *)
Lemma zero_den_zero_density sp fr pxd :
  0 < h sp -> snd (smoothed_sums sp fr pxd) = 0 ->
  density_at sp fr pxd 0 = 0.
Proof.
  intros Hh Hden. unfold smoothed_sums in Hden.
  rewrite smoothed_sums_den in Hden. cbn [snd] in Hden.
  rewrite Rplus_0_l in Hden.
  apply density_at_none. intros pj Hin.
  pose proof (zero_sum_terms
                (fun pj => Wwendland (ops.substract pxd (p_pos pj)) (h sp))
                _ (fun pj => Wwendland_nonneg _ _ Hh) Hden pj Hin) as Hz.
  cbv beta in Hz.
  destruct (Rle_lt_dec (ops.magnitude (ops.substract pxd (p_pos pj))) (h sp))
    as [Hle|Hlt]; [|exact Hlt].
  pose proof (Wwendland_within _ _ Hh Hle). lra.
Qed.

(** * Further properties of the program *)

(** ** Vectors *)

Lemma magnitude_substract_sym a b :
  ops.magnitude (ops.substract a b) = ops.magnitude (ops.substract b a).
Proof. unfold ops.magnitude, ops.substract. simpl. f_equal. ring. Qed.

Lemma magnitude_sqr a :
  ops.magnitude a * ops.magnitude a
  = at0 a * at0 a + at1 a * at1 a + at2 a * at2 a.
Proof. unfold ops.magnitude. apply sqrt_sqrt. nra. Qed.

Lemma magnitude_substract_self a : ops.magnitude (ops.substract a a) = 0.
Proof.
  unfold ops.magnitude, ops.substract. simpl.
  replace ((at0 a - at0 a) * (at0 a - at0 a)
           + (at1 a - at1 a) * (at1 a - at1 a)
           + (at2 a - at2 a) * (at2 a - at2 a)) with 0 by ring.
  apply sqrt_0.
Qed.

Lemma normalize_unit a :
  0 < at0 a * at0 a + at1 a * at1 a + at2 a * at2 a ->
  ops.dotProduct (ops.normalize a) (ops.normalize a) = 1.
Proof.
  intros H. pose proof (magnitude_positive a H) as Hm.
  pose proof (magnitude_sqr a) as Hs.
  unfold ops.dotProduct, ops.normalize. simpl.
  replace (at0 a / ops.magnitude a * (at0 a / ops.magnitude a)
           + at1 a / ops.magnitude a * (at1 a / ops.magnitude a)
           + at2 a / ops.magnitude a * (at2 a / ops.magnitude a))
    with ((at0 a * at0 a + at1 a * at1 a + at2 a * at2 a)
          / (ops.magnitude a * ops.magnitude a)) by (field; lra).
  rewrite <- Hs. field. lra.
Qed.

Lemma unit_dot_range u v :
  ops.dotProduct u u = 1 -> ops.dotProduct v v = 1 ->
  -1 <= ops.dotProduct u v <= 1.
Proof.
  unfold ops.dotProduct. intros Hu Hv.
  pose proof (Rle_0_sqr (at0 u - at0 v)).
  pose proof (Rle_0_sqr (at1 u - at1 v)).
  pose proof (Rle_0_sqr (at2 u - at2 v)).
  pose proof (Rle_0_sqr (at0 u + at0 v)).
  pose proof (Rle_0_sqr (at1 u + at1 v)).
  pose proof (Rle_0_sqr (at2 u + at2 v)).
  unfold Rsqr in *. split; nra.
Qed.

(** ** The kernels *)

Lemma wendland_profile e :
  0 <= e <= 1 -> 0 <= e * e * e * e * (5 - 4 * e) <= 1.
Proof.
  intros [H0 H1].
  assert (0 <= e * e) by nra.
  assert (0 <= e * e * e * e) by nra.
  split; [apply Rmult_le_pos; lra|].
  assert (E : 1 - e * e * e * e * (5 - 4 * e)
              = (1 - e) * (1 - e) * (1 + 2 * e + 3 * (e * e) + 4 * (e * e * e)))
    by ring.
  assert (0 <= e * e * e) by nra.
  assert (0 <= (1 - e) * (1 - e)) by nra.
  assert (0 <= (1 - e) * (1 - e)
               * (1 + 2 * e + 3 * (e * e) + 4 * (e * e * e))).
  { apply Rmult_le_pos; lra. }
  lra.
Qed.

Lemma Wwendland_inside xij h_ :
  0 < h_ -> ops.magnitude xij <= 2 * h_ ->
  Wwendland xij h_ =
  21 / (16 * PI * h_ * h_ * h_)
  * (1 - ops.magnitude xij / h_ / 2) * (1 - ops.magnitude xij / h_ / 2)
  * (1 - ops.magnitude xij / h_ / 2) * (1 - ops.magnitude xij / h_ / 2)
  * (2 * (ops.magnitude xij / h_) + 1)
  /\ 0 <= ops.magnitude xij / h_ <= 2.
Proof.
  intros Hh Hm. unfold Wwendland. cbv zeta.
  assert (Hq : 0 <= ops.magnitude xij / h_ <= 2).
  { pose proof (magnitude_nonneg xij). split.
    - apply Rmult_le_pos; [assumption|]. left. now apply Rinv_0_lt_compat.
    - apply Rmult_le_reg_r with h_; [assumption|].
      unfold Rdiv. rewrite Rmult_assoc, Rinv_l by lra. lra. }
  unfold dge.
  rewrite (proj2 (dle_true 0 _)), (proj2 (dle_true _ 2)) by lra.
  cbn [andb]. split; [reflexivity | exact Hq].
Qed.

Lemma Wwendland_outside xij h_ :
  0 < h_ -> 2 * h_ <= ops.magnitude xij -> Wwendland xij h_ = 0.
Proof.
  intros Hh Hm.
  destruct (Req_dec_T (ops.magnitude xij) (2 * h_)) as [E|N].
  - destruct (Wwendland_inside xij h_ Hh) as [-> _]; [lra|].
    rewrite E. replace (1 - 2 * h_ / h_ / 2) with 0 by (field; lra). ring.
  - unfold Wwendland. cbv zeta.
    assert (2 < ops.magnitude xij / h_).
    { apply Rmult_lt_reg_r with h_; [assumption|].
      unfold Rdiv. rewrite Rmult_assoc, Rinv_l by lra. lra. }
    rewrite (proj2 (dle_false _ 2)) by assumption.
    now rewrite andb_false_r.
Qed.

Lemma Wwendland_positive xij h_ :
  0 < h_ -> ops.magnitude xij < 2 * h_ -> 0 < Wwendland xij h_.
Proof.
  intros Hh Hm.
  destruct (Wwendland_inside xij h_ Hh) as [-> Hq]; [lra|].
  assert (ops.magnitude xij / h_ < 2).
  { apply Rmult_lt_reg_r with h_; [assumption|].
    unfold Rdiv. rewrite Rmult_assoc, Rinv_l by lra. lra. }
  pose proof (wendland_factor_positive h_ Hh).
  revert Hq H. generalize (ops.magnitude xij / h_). intros q Hq Hq2.
  assert (0 < 1 - q / 2) by lra.
  do 5 (apply Rmult_lt_0_compat; [|lra]). assumption.
Qed.

Lemma W_range xij h_ : 0 < h_ -> 0 <= W xij h_ <= 1.
Proof.
  intros Hh. pose proof (magnitude_nonneg xij) as Hm.
  unfold W. cbv zeta.
  destruct (dle (ops.magnitude xij) h_) eqn:E; [|lra].
  apply dle_true in E.
  assert (0 <= ops.magnitude xij / h_ <= 1).
  { split.
    - apply Rmult_le_pos; [assumption|]. left. now apply Rinv_0_lt_compat.
    - apply Rmult_le_reg_r with h_; [assumption|].
      unfold Rdiv. rewrite Rmult_assoc, Rinv_l by lra. lra. }
  lra.
Qed.

Lemma W_far xij h_ : h_ < ops.magnitude xij -> W xij h_ = 0.
Proof. intros H. unfold W. cbv zeta. now rewrite (proj2 (dle_false _ _)). Qed.

Lemma W_sym a b h_ : W (ops.substract a b) h_ = W (ops.substract b a) h_.
Proof. unfold W. now rewrite magnitude_substract_sym. Qed.

(** X1.  The linear spike kernel [W], for [h > 0]: its value lies in
    [[0,1]], it is 1 at zero distance, 0 beyond [h], and it depends on the
    distance only, so it is the same for [xi - xj] and [xj - xi]. *)
Theorem W_kernel xij (h_ : R) (h_positive : 0 < h_) :
  0 <= W xij h_ <= 1 /\
  (h_ < ops.magnitude xij -> W xij h_ = 0) /\
  W (V3 0 0 0) h_ = 1 /\
  (forall a b, W (ops.substract a b) h_ = W (ops.substract b a) h_).
Proof.
  split; [|split; [|split]].
  - now apply W_range.
  - apply W_far.
  - unfold W. cbv zeta. rewrite magnitude_zero.
    rewrite (proj2 (dle_true 0 h_)) by lra. unfold Rdiv. lra.
  - intros a b. apply W_sym.
Qed.

Lemma W_kernel_witness :
  0 <= W (V3 3 4 0) 10 <= 1.
Proof.
  refine (proj1 (W_kernel (V3 3 4 0) 10 _)). lra.
Defined.

Lemma Wwendland_zero_iff xij h_ :
  0 < h_ -> (Wwendland xij h_ = 0 <-> 2 * h_ <= ops.magnitude xij).
Proof.
  intros Hh. split.
  - intros Hz.
    destruct (Rle_lt_dec (2 * h_) (ops.magnitude xij)) as [H|H]; [exact H|].
    pose proof (Wwendland_positive xij h_ Hh H). lra.
  - now apply Wwendland_outside.
Qed.

(** X2.  The Wendland kernel, for [h > 0]: it is never negative, never
    above its value [21 / (16 PI h^3)] at zero distance, and it vanishes
    exactly at the distances [>= 2 h]. *)
Theorem Wwendland_kernel xij (h_ : R) (h_positive : 0 < h_) :
  0 <= Wwendland xij h_ <= 21 / (16 * PI * h_ * h_ * h_) /\
  (Wwendland xij h_ = 0 <-> 2 * h_ <= ops.magnitude xij) /\
  Wwendland (V3 0 0 0) h_ = 21 / (16 * PI * h_ * h_ * h_).
Proof.
  pose proof (wendland_factor_positive h_ h_positive) as Had.
  split; [|split].
  - split; [now apply Wwendland_nonneg|].
    destruct (Rle_lt_dec (ops.magnitude xij) (2 * h_)) as [Hin|Hout].
    + destruct (Wwendland_inside xij h_ h_positive Hin) as [-> Hq].
      revert Hq. generalize (ops.magnitude xij / h_). intros q Hq.
      revert Had. generalize (21 / (16 * PI * h_ * h_ * h_)). intros ad Had.
      assert (He : 0 <= 1 - q / 2 <= 1) by lra.
      pose proof (wendland_profile _ He) as [_ Hp].
      replace (ad * (1 - q / 2) * (1 - q / 2)
               * (1 - q / 2) * (1 - q / 2) * (2 * q + 1))
        with (ad * ((1 - q / 2) * (1 - q / 2) * (1 - q / 2) * (1 - q / 2)
                    * (5 - 4 * (1 - q / 2)))) by field.
      rewrite <- (Rmult_1_r ad) at 2.
      apply Rmult_le_compat_l; lra.
    + rewrite Wwendland_outside by lra. lra.
  - now apply Wwendland_zero_iff.
  - destruct (Wwendland_inside (V3 0 0 0) h_ h_positive) as [-> _].
    + rewrite magnitude_zero. lra.
    + rewrite magnitude_zero. unfold Rdiv. rewrite !Rmult_0_l. ring.
Qed.

Lemma Wwendland_kernel_witness :
  Wwendland (V3 0 0 0) 1 = 21 / (16 * PI * 1 * 1 * 1).
Proof.
  refine (proj2 (proj2 (Wwendland_kernel (V3 0 0 0) 1 _))). lra.
Defined.

(** X3.  The Poly6 kernel, for [h > 0]: it is never negative, it is 0 at
    every distance [>= h], and at zero distance it is
    [315 / (64 PI h^3)]. *)
Theorem Wpoly6_kernel xij (h_ : R) (h_positive : 0 < h_) :
  0 <= Wpoly6 xij h_ /\
  (h_ <= ops.magnitude xij -> Wpoly6 xij h_ = 0) /\
  Wpoly6 (V3 0 0 0) h_ = 315 / (64 * PI * (h_ * h_ * h_)).
Proof.
  pose proof PI_RGT_0 as Hpi.
  pose proof (magnitude_nonneg xij) as Hm.
  assert (H9 : 0 < h_ ^ 9) by now apply pow_lt.
  assert (Had : 0 < 315 / (64 * PI * h_ ^ 9)).
  { apply Rdiv_lt_0_compat; [lra|].
    apply Rmult_lt_0_compat; [lra | assumption]. }
  split; [|split].
  - unfold Wpoly6. cbv zeta. unfold dge.
    destruct (dle 0 (ops.magnitude xij) && dle (ops.magnitude xij) h_) eqn:E;
      [|lra].
    apply andb_true_iff in E as [_ E]. apply dle_true in E.
    apply Rmult_le_pos; [lra|]. apply pow_le. nra.
  - intros H. unfold Wpoly6. cbv zeta. unfold dge.
    destruct (dle (ops.magnitude xij) h_) eqn:E.
    + apply dle_true in E. assert (Eq : ops.magnitude xij = h_) by lra.
      rewrite (proj2 (dle_true 0 _)) by lra. cbn [andb].
      rewrite Eq. replace (h_ * h_ - h_ * h_) with 0 by ring.
      rewrite pow_i by lia. ring.
    + now rewrite andb_false_r.
  - unfold Wpoly6. cbv zeta. rewrite magnitude_zero. unfold dge.
    rewrite (proj2 (dle_true 0 0)), (proj2 (dle_true 0 h_)) by lra.
    cbn [andb]. field. split; lra.
Qed.

Lemma Wpoly6_kernel_witness : 0 <= Wpoly6 (V3 1 0 0) 2.
Proof.
  refine (proj1 (Wpoly6_kernel (V3 1 0 0) 2 _)). lra.
Defined.

(** ** The pair functions of the field passes *)

Lemma substract_nonzero a b :
  a <> b ->
  0 < at0 (ops.substract a b) * at0 (ops.substract a b)
      + at1 (ops.substract a b) * at1 (ops.substract a b)
      + at2 (ops.substract a b) * at2 (ops.substract a b).
Proof.
  intros N. destruct a as [a0 a1 a2], b as [b0 b1 b2]. simpl.
  pose proof (Rle_0_sqr (a0 - b0)) as S0.
  pose proof (Rle_0_sqr (a1 - b1)) as S1.
  pose proof (Rle_0_sqr (a2 - b2)) as S2.
  assert (P : forall x y, x <> y -> 0 < Rsqr (x - y)).
  { intros x y Hxy. apply Rsqr_pos_lt. lra. }
  unfold Rsqr in *.
  destruct (Req_dec_T a0 b0) as [E0|N0]; [|pose proof (P _ _ N0); lra].
  destruct (Req_dec_T a1 b1) as [E1|N1]; [|pose proof (P _ _ N1); lra].
  destruct (Req_dec_T a2 b2) as [E2|N2]; [|pose proof (P _ _ N2); lra].
  subst. contradiction.
Qed.

Lemma distanceVector_unit a b :
  a <> b ->
  ops.dotProduct (ops.distanceVector a b) (ops.distanceVector a b) = 1.
Proof.
  intros N. unfold ops.distanceVector. apply normalize_unit.
  now apply substract_nonzero.
Qed.

Lemma distanceVector_opp a b :
  ops.distanceVector b a =
  V3 (- at0 (ops.distanceVector a b)) (- at1 (ops.distanceVector a b))
     (- at2 (ops.distanceVector a b)).
Proof.
  unfold ops.distanceVector, ops.normalize.
  rewrite (magnitude_substract_sym b a). unfold ops.substract. simpl.
  f_equal; unfold Rdiv; ring.
Qed.

(** X4.  The trapped-air term of a pair, [vdiff2p], for [h > 0] and two
    particles that differ in velocity and in position: it is the same for
    the pair taken in the other order; it is 0 when the two particles are
    more than [h] apart; and it lies between 0 and twice the speed
    difference. *)
Theorem vdiff2p_term vi vj xi xj (h_ : R) (h_positive : 0 < h_)
  (velocities : vi <> vj) (positions : xi <> xj) :
  vdiff2p vi vj xi xj h_ = vdiff2p vj vi xj xi h_ /\
  (h_ < ops.magnitude (ops.substract xi xj) -> vdiff2p vi vj xi xj h_ = 0) /\
  0 <= vdiff2p vi vj xi xj h_ <= 2 * ops.magnitude (ops.substract vi vj).
Proof.
  split; [|split].
  - unfold vdiff2p. cbv zeta.
    rewrite (magnitude_substract_sym vj vi).
    rewrite (distanceVector_opp vi vj), (distanceVector_opp xi xj).
    rewrite (W_sym xj xi). unfold ops.dotProduct. simpl. ring.
  - intros Hfar. unfold vdiff2p. cbv zeta.
    rewrite (W_far _ _ Hfar). ring.
  - unfold vdiff2p. cbv zeta.
    pose proof (magnitude_nonneg (ops.substract vi vj)) as Hm.
    pose proof (unit_dot_range _ _ (distanceVector_unit vi vj velocities)
                  (distanceVector_unit xi xj positions)) as Hd.
    pose proof (W_range (ops.substract xi xj) h_ h_positive) as Hw.
    revert Hm Hd Hw.
    generalize (ops.magnitude (ops.substract vi vj)).
    generalize (ops.dotProduct (ops.distanceVector vi vj)
                               (ops.distanceVector xi xj)).
    generalize (W (ops.substract xi xj) h_).
    intros w d m Hm Hd Hw.
    assert (0 <= m * (1 - d)) by (apply Rmult_le_pos; lra).
    assert (m * (1 - d) <= m * 2) by (apply Rmult_le_compat_l; lra).
    split.
    + apply Rmult_le_pos; lra.
    + replace (2 * m) with (m * 2 * 1) by ring.
      apply Rmult_le_compat; lra.
Qed.

Lemma vdiff2p_term_witness :
  vdiff2p (V3 1 0 0) (V3 0 0 0) (V3 0 0 0) (V3 0 1 0) 2
  = vdiff2p (V3 0 0 0) (V3 1 0 0) (V3 0 1 0) (V3 0 0 0) 2.
Proof.
  refine (proj1 (vdiff2p_term (V3 1 0 0) (V3 0 0 0) (V3 0 0 0) (V3 0 1 0)
                              2 _ _ _)).
  - lra.
  - intros H. injection H; intros; lra.
  - intros H. injection H; intros; lra.
Defined.

(** X5.  The colour-field term of a pair, [colorField2p], for [h > 0], a
    mass [>= 0] and a density [> 0]: it is never negative, it is the same
    from either particle of the pair, and it is 0 exactly when the weight
    [mj / pj] is 0 or the particles are at least [2 h] apart. *)
Theorem colorField2p_term xi xj (h_ mj pj : R)
  (h_positive : 0 < h_) (mass_nonneg : 0 <= mj) (rhop_positive : 0 < pj) :
  0 <= colorField2p xi xj h_ mj pj /\
  colorField2p xi xj h_ mj pj = colorField2p xj xi h_ mj pj /\
  (colorField2p xi xj h_ mj pj = 0 <->
   mj = 0 \/ 2 * h_ <= ops.magnitude (ops.substract xi xj)).
Proof.
  pose proof (Wwendland_nonneg (ops.substract xi xj) h_ h_positive) as Hw.
  pose proof (Wwendland_zero_iff (ops.substract xi xj) h_ h_positive) as Hz.
  assert (Hq : 0 <= mj / pj).
  { apply Rmult_le_pos; [assumption|]. left. now apply Rinv_0_lt_compat. }
  unfold colorField2p. split; [|split].
  - now apply Rmult_le_pos.
  - f_equal. unfold Wwendland. now rewrite magnitude_substract_sym.
  - split.
    + intros H. apply Rmult_integral in H as [H|H].
      * left. apply Rmult_integral in H as [H|H]; [assumption|].
        pose proof (Rinv_0_lt_compat pj rhop_positive). lra.
      * right. now apply Hz.
    + intros [H|H].
      * rewrite H. unfold Rdiv. ring.
      * rewrite (proj2 Hz H). ring.
Qed.

Lemma colorField2p_term_witness :
  0 <= colorField2p (V3 0 0 0) (V3 1 0 0) 1 1 1000.
Proof.
  refine (proj1 (colorField2p_term (V3 0 0 0) (V3 1 0 0) 1 1 1000 _ _ _));
    lra.
Defined.

(** X6.  The gradient term of a pair, [gradient2p]: it does not depend
    on its argument [csi]; with the two positions exchanged every
    component changes its sign; and a particle paired with itself gives
    the zero vector. *)
Theorem gradient2p_term xi xj (h_ csi csi' csj : R) :
  gradient2p xi xj h_ csi csj = gradient2p xi xj h_ csi' csj /\
  gradient2p xj xi h_ csi csj =
    V3 (- at0 (gradient2p xi xj h_ csi csj))
       (- at1 (gradient2p xi xj h_ csi csj))
       (- at2 (gradient2p xi xj h_ csi csj)) /\
  gradient2p xi xi h_ csi csj = V3 0 0 0.
Proof.
  split; [reflexivity|]. split.
  - unfold gradient2p, Wwendland. cbv zeta.
    rewrite (magnitude_substract_sym xj xi). simpl. f_equal; ring.
  - unfold gradient2p. cbv zeta. f_equal; ring.
Qed.

Lemma normalize_unit_nonzero n :
  n <> V3 0 0 0 -> ops.dotProduct (ops.normalize n) (ops.normalize n) = 1.
Proof.
  intros Hn. apply normalize_unit.
  pose proof (substract_nonzero n (V3 0 0 0) Hn) as H.
  unfold ops.substract in H. simpl in H.
  replace (at0 n * at0 n + at1 n * at1 n + at2 n * at2 n)
    with ((at0 n - 0) * (at0 n - 0) + (at1 n - 0) * (at1 n - 0)
          + (at2 n - 0) * (at2 n - 0)) by ring.
  exact H.
Qed.

Lemma curvature2p_range xi xj ni nj h_ :
  0 < h_ -> ni <> V3 0 0 0 -> nj <> V3 0 0 0 ->
  0 <= curvature2p xi xj ni nj h_ <= 2.
Proof.
  intros Hh Hi Hj. unfold curvature2p. cbv zeta.
  pose proof (unit_dot_range _ _ (normalize_unit_nonzero ni Hi)
                (normalize_unit_nonzero nj Hj)) as Hd.
  pose proof (W_range (ops.substract xi xj) h_ Hh) as Hw.
  revert Hd Hw.
  generalize (ops.dotProduct (ops.normalize ni) (ops.normalize nj)).
  generalize (W (ops.substract xi xj) h_). intros w d Hd Hw. split.
  - apply Rmult_le_pos; lra.
  - replace 2 with (2 * 1) by ring. apply Rmult_le_compat; lra.
Qed.

(** X7.  The curvature term of a pair, [curvature2p]: it is the same
    when the two particles (positions and normals) are exchanged; for
    [h > 0] and non-zero normals it lies in [[0,2]]; it is 0 for equal
    normals and 0 beyond the distance [h]. *)
Theorem curvature2p_term xi xj ni nj (h_ : R) (h_positive : 0 < h_)
  (ni_nonzero : ni <> V3 0 0 0) (nj_nonzero : nj <> V3 0 0 0) :
  curvature2p xi xj ni nj h_ = curvature2p xj xi nj ni h_ /\
  0 <= curvature2p xi xj ni nj h_ <= 2 /\
  curvature2p xi xj ni ni h_ = 0 /\
  (h_ < ops.magnitude (ops.substract xi xj) ->
   curvature2p xi xj ni nj h_ = 0).
Proof.
  split; [|split; [|split]].
  - unfold curvature2p. cbv zeta.
    rewrite (W_sym xi xj). unfold ops.dotProduct. f_equal. ring.
  - now apply curvature2p_range.
  - unfold curvature2p. cbv zeta.
    rewrite (normalize_unit_nonzero ni ni_nonzero). ring.
  - intros Hfar. unfold curvature2p. cbv zeta.
    rewrite (W_far _ _ Hfar). ring.
Qed.

Lemma curvature2p_term_witness :
  0 <= curvature2p (V3 0 0 0) (V3 1 0 0) (V3 0 0 1) (V3 0 1 0) 2 <= 2.
Proof.
  refine (proj1 (proj2 (curvature2p_term (V3 0 0 0) (V3 1 0 0) (V3 0 0 1)
                          (V3 0 1 0) 2 _ _ _))).
  - lra.
  - intros H. injection H; intros; lra.
  - intros H. injection H; intros; lra.
Defined.

(** X8.  The wave-crest term of a pair, [crests2p]: it is either 0 or
    the curvature term; a particle paired with itself gives 0; and for
    [h > 0] and non-zero normals it lies in [[0,2]]. *)
Theorem crests2p_term xi xj vi ni nj (h_ : R) (h_positive : 0 < h_)
  (ni_nonzero : ni <> V3 0 0 0) (nj_nonzero : nj <> V3 0 0 0) :
  (crests2p xi xj vi ni nj h_ = 0 \/
   crests2p xi xj vi ni nj h_ = curvature2p xi xj ni nj h_) /\
  crests2p xi xi vi ni nj h_ = 0 /\
  0 <= crests2p xi xj vi ni nj h_ <= 2.
Proof.
  pose proof (curvature2p_range xi xj ni nj h_ h_positive ni_nonzero
                nj_nonzero) as Hc.
  split; [|split].
  - unfold crests2p. cbv zeta. destruct (_ && _); [right | left]; reflexivity.
  - unfold crests2p. cbv zeta.
    assert (E : ops.dotProduct (ops.distanceVector xi xi) (ops.normalize ni)
                = 0).
    { unfold ops.distanceVector, ops.normalize at 1, ops.dotProduct,
        ops.substract. simpl. unfold Rdiv. ring. }
    rewrite E. now rewrite (proj2 (dlt_false 0 0)) by lra.
  - unfold crests2p. cbv zeta. destruct (_ && _); [exact Hc | lra].
Qed.

Lemma crests2p_term_witness :
  crests2p (V3 0 0 0) (V3 0 0 0) (V3 1 0 0) (V3 0 0 1) (V3 0 1 0) 2 = 0.
Proof.
  refine (proj1 (proj2 (crests2p_term (V3 0 0 0) (V3 0 0 0) (V3 1 0 0)
                          (V3 0 0 1) (V3 0 1 0) 2 _ _ _))).
  - lra.
  - intros H. injection H; intros; lra.
  - intros H. injection H; intros; lra.
Defined.

(** ** Arrays that are updated in place *)

Lemma write_write {A} (arr : list A) i x y :
  write (write arr i x) i y = write arr i y.
Proof.
  revert i. induction arr as [|a rest IH]; intros [|i]; simpl; auto.
  now rewrite IH.
Qed.

Lemma write_nth_same {A} (arr : list A) i dflt :
  write arr i (nth i arr dflt) = arr.
Proof.
  revert i. induction arr as [|a rest IH]; intros [|i]; simpl; auto.
  now rewrite IH.
Qed.

Lemma write_past_end {A} (arr : list A) i x :
  (length arr <= i)%nat -> write arr i x = arr.
Proof.
  revert i. induction arr as [|a rest IH]; intros [|i] H; simpl in *; auto;
    try lia. rewrite IH; [reflexivity | lia].
Qed.

(** A write of a function of the old entry, then another one, is one
    write of the composition. *)
Lemma write_update_twice {A} (arr : list A) i dflt x (F : A -> A) :
  write (write arr i x) i (F (nth i (write arr i x) dflt))
  = write arr i (F x).
Proof.
  destruct (Nat.lt_ge_cases i (length arr)) as [H|H].
  - now rewrite nth_write_same, write_write.
  - now rewrite !(write_past_end arr i) by exact H.
Qed.

Section LocalUpdates.

Context {A B : Type}.
Variable idx : B -> nat.
Variable G : B -> A -> A.
Variable dflt : A.

Let step := local_step idx G dflt.

Lemma fold_local_length bs arr :
  length (fold_left step bs arr) = length arr.
Proof.
  revert arr. induction bs as [|b bs IH]; intros arr; simpl; auto.
  rewrite IH. apply write_length.
Qed.

Lemma fold_local_untouched bs :
  forall arr i,
    (forall b, In b bs -> idx b <> i) ->
    nth i (fold_left step bs arr) dflt = nth i arr dflt.
Proof.
  induction bs as [|b bs IH]; intros arr i H; [reflexivity|].
  cbn [fold_left]. rewrite IH by (intros q Hq; apply H; now right).
  apply nth_write_other. apply H. now left.
Qed.

Lemma fold_local_nth bs :
  forall arr b,
    NoDup (map idx bs) ->
    (forall q, In q bs -> (idx q < length arr)%nat) ->
    In b bs ->
    nth (idx b) (fold_left step bs arr) dflt = G b (nth (idx b) arr dflt).
Proof.
  induction bs as [|p bs IH]; intros arr b ND Hr Hin; [contradiction|].
  cbn [fold_left]. cbn [map] in ND. apply NoDup_cons_iff in ND as [Hp ND].
  destruct Hin as [<- | Hin].
  - rewrite fold_local_untouched.
    + apply nth_write_same. apply Hr. now left.
    + intros q Hq E. apply Hp. rewrite <- E. now apply in_map.
  - rewrite IH; auto.
    + f_equal. apply nth_write_other. intros E. apply Hp. rewrite E.
      now apply in_map.
    + intros q Hq. unfold step, local_step. rewrite write_length.
      apply Hr. now right.
Qed.

End LocalUpdates.

Lemma fold_left_flat_map {A B C} (f : A -> B -> A) (g : C -> list B) l :
  forall a,
    fold_left f (flat_map g l) a
    = fold_left (fun a' x => fold_left f (g x) a') l a.
Proof.
  induction l as [|x l IH]; intros a; simpl; [reflexivity|].
  now rewrite fold_left_app, IH.
Qed.

Lemma fold_left_map {A B C} (f : A -> B -> A) (g : C -> B) l :
  forall a, fold_left f (map g l) a = fold_left (fun a' x => f a' (g x)) l a.
Proof. induction l as [|x l IH]; intros a; simpl; auto. Qed.

Lemma jobs_particles cells :
  map snd (jobs cells) = concat (map c_bucket cells).
Proof.
  unfold jobs. induction cells as [|c cells IH]; [reflexivity|].
  cbn [flat_map map concat]. rewrite map_app, IH, map_map. cbn [snd].
  now rewrite map_id.
Qed.

Lemma jobs_in cells c pi :
  In c cells -> In pi (c_bucket c) -> In (c_sbuckets c, pi) (jobs cells).
Proof.
  intros Hc Hpi. unfold jobs. apply in_flat_map. exists c. split; [exact Hc|].
  now apply (in_map (fun pi => (c_sbuckets c, pi))).
Qed.

Lemma cells_well_formed_ids n cells :
  cells_well_formed n cells ->
  NoDup (map (fun job => Z.to_nat (p_id (snd job))) (jobs cells)) /\
  (forall job, In job (jobs cells) -> (Z.to_nat (p_id (snd job)) < n)%nat).
Proof.
  intros wf. unfold cells_well_formed in wf.
  assert (Hmap : Permutation
                   (map (fun job => Z.to_nat (p_id (snd job))) (jobs cells))
                   (seq 0 n)).
  { rewrite <- (map_map snd (fun pi => Z.to_nat (p_id pi))), jobs_particles.
    rewrite <- (map_map p_id Z.to_nat).
    rewrite (Permutation_map Z.to_nat wf), map_map.
    rewrite (map_ext _ (fun i => i) Nat2Z.id), map_id. reflexivity. }
  split.
  - apply (Permutation_NoDup (Permutation_sym Hmap)), seq_NoDup.
  - intros job Hin.
    assert (In (Z.to_nat (p_id (snd job))) (seq 0 n)).
    { apply (Permutation_in _ Hmap).
      now apply (in_map (fun job => Z.to_nat (p_id (snd job)))). }
    apply in_seq in H. lia.
Qed.

(** ** The first pass *)

Lemma pass1_pair_update sp pi pj Ita cf :
  pass1_pair sp pi (Ita, cf) pj =
  (write Ita (Z.to_nat (p_id pi))
         (Ita_sum sp pi [pj] (nth (Z.to_nat (p_id pi)) Ita 0)),
   write cf (Z.to_nat (p_id pi))
         (colorField_sum sp pi [pj] (nth (Z.to_nat (p_id pi)) cf 0))).
Proof.
  unfold pass1_pair, Ita_sum, colorField_sum. cbn [fold_left fst snd].
  destruct (p_id pi =? p_id pj)%Z; cbn [negb].
  - now rewrite !write_nth_same.
  - cbv zeta. f_equal.
    + unfold vdiff2p, W. cbv zeta.
      change (ops.magnitude (ops.substract (p_pos pi) (p_pos pj)))
        with (sqrt ((at0 (p_pos pi) - at0 (p_pos pj))
                    * (at0 (p_pos pi) - at0 (p_pos pj))
                    + (at1 (p_pos pi) - at1 (p_pos pj))
                      * (at1 (p_pos pi) - at1 (p_pos pj))
                    + (at2 (p_pos pi) - at2 (p_pos pj))
                      * (at2 (p_pos pi) - at2 (p_pos pj)))).
      destruct (dle _ (h sp)).
      * reflexivity.
      * rewrite Rmult_0_r, Rplus_0_r. now rewrite write_nth_same.
    + unfold colorField2p, Wwendland. cbv zeta.
      change (ops.magnitude (ops.substract (p_pos pi) (p_pos pj)))
        with (sqrt ((at0 (p_pos pi) - at0 (p_pos pj))
                    * (at0 (p_pos pi) - at0 (p_pos pj))
                    + (at1 (p_pos pi) - at1 (p_pos pj))
                      * (at1 (p_pos pi) - at1 (p_pos pj))
                    + (at2 (p_pos pi) - at2 (p_pos pj))
                      * (at2 (p_pos pi) - at2 (p_pos pj)))).
      destruct (dge _ 0 && dle _ 2).
      * unfold add_at. f_equal. f_equal. ring.
      * rewrite Rmult_0_r, Rplus_0_r. now rewrite write_nth_same.
Qed.

Lemma pass1_pairs_update sp pi nbrs :
  forall Ita cf,
    fold_left (pass1_pair sp pi) nbrs (Ita, cf) =
    (write Ita (Z.to_nat (p_id pi))
           (Ita_sum sp pi nbrs (nth (Z.to_nat (p_id pi)) Ita 0)),
     write cf (Z.to_nat (p_id pi))
           (colorField_sum sp pi nbrs (nth (Z.to_nat (p_id pi)) cf 0))).
Proof.
  induction nbrs as [|pj nbrs IH]; intros Ita cf.
  - cbn [fold_left]. unfold Ita_sum, colorField_sum. cbn [fold_left].
    now rewrite !write_nth_same.
  - cbn [fold_left]. rewrite pass1_pair_update, IH.
    unfold Ita_sum, colorField_sum. cbn [fold_left].
    f_equal.
    + apply (write_update_twice Ita _ 0 _
               (fun a => fold_left _ nbrs a)).
    + apply (write_update_twice cf _ 0 _
               (fun a => fold_left _ nbrs a)).
Qed.

Lemma pass1_particle_update sp sbuckets Ita cf en pi :
  pass1_particle sp sbuckets (Ita, cf, en) pi =
  (write Ita (Z.to_nat (p_id pi))
         (Ita_sum sp pi (concat sbuckets) (nth (Z.to_nat (p_id pi)) Ita 0)),
   write cf (Z.to_nat (p_id pi))
         (colorField_sum sp pi (concat sbuckets)
                         (nth (Z.to_nat (p_id pi)) cf 0)),
   write en (Z.to_nat (p_id pi))
         (0.5 * mass sp
          * (at0 (p_vel pi) * at0 (p_vel pi)
             + at1 (p_vel pi) * at1 (p_vel pi)
             + at2 (p_vel pi) * at2 (p_vel pi)))).
Proof.
  unfold pass1_particle. cbn [fst snd].
  now rewrite fold_left_concat, pass1_pairs_update.
Qed.

(** The first pass as three independent loops over the jobs. *)
Lemma pass1_arrays sp n cells :
  pass1 sp n cells =
  (fold_left
     (local_step (fun job => Z.to_nat (p_id (snd job)))
        (fun job a => Ita_sum sp (snd job) (concat (fst job)) a) 0)
     (jobs cells) (repeat 0 n),
   fold_left
     (local_step (fun job => Z.to_nat (p_id (snd job)))
        (fun job a => colorField_sum sp (snd job) (concat (fst job)) a) 0)
     (jobs cells) (repeat 0 n),
   fold_left
     (local_step (fun job => Z.to_nat (p_id (snd job)))
        (fun job (a : R) =>
           0.5 * mass sp
           * (at0 (p_vel (snd job)) * at0 (p_vel (snd job))
              + at1 (p_vel (snd job)) * at1 (p_vel (snd job))
              + at2 (p_vel (snd job)) * at2 (p_vel (snd job)))) 0)
     (jobs cells) (repeat 0 n)).
Proof.
  unfold pass1.
  assert (E : forall st,
    fold_left
      (fun st c =>
         fold_left (pass1_particle sp (c_sbuckets c)) (c_bucket c) st)
      cells st
    = fold_left (fun st job => pass1_particle sp (fst job) st (snd job))
                (jobs cells) st).
  { intros st. unfold jobs. rewrite fold_left_flat_map.
    revert st. induction cells as [|c cells IH]; intros st; [reflexivity|].
    cbn [fold_left]. rewrite IH. f_equal.
    now rewrite fold_left_map. }
  rewrite E. clear E.
  assert (F : forall js Ita cf en,
    fold_left (fun st job => pass1_particle sp (fst job) st (snd job))
              js (Ita, cf, en)
    = (fold_left
         (local_step (fun job => Z.to_nat (p_id (snd job)))
            (fun job a => Ita_sum sp (snd job) (concat (fst job)) a) 0)
         js Ita,
       fold_left
         (local_step (fun job => Z.to_nat (p_id (snd job)))
            (fun job a => colorField_sum sp (snd job) (concat (fst job)) a)
            0)
         js cf,
       fold_left
         (local_step (fun job => Z.to_nat (p_id (snd job)))
            (fun job (a : R) =>
               0.5 * mass sp
               * (at0 (p_vel (snd job)) * at0 (p_vel (snd job))
                  + at1 (p_vel (snd job)) * at1 (p_vel (snd job))
                  + at2 (p_vel (snd job)) * at2 (p_vel (snd job)))) 0)
         js en)).
  { induction js as [|job js IH]; intros Ita cf en; [reflexivity|].
    cbn [fold_left]. rewrite pass1_particle_update, IH. reflexivity. }
  apply F.
Qed.

Lemma energy_acc_snapshot sp n cells lookup rand :
  energy_acc sp (snapshot sp n cells lookup rand) = snd (pass1 sp n cells).
Proof.
  rewrite pass1_arrays. cbn [snd]. unfold energy_acc, snapshot.
  cbn [buckets npoints]. rewrite <- jobs_particles, fold_left_map.
  reflexivity.
Qed.

(** X9.  The first pass on well-formed buckets, for [h > 0] and a
    particle [pi] of a bucket from which every other particle of the
    surrounding buckets differs in velocity and in position (so that no
    divisor of lines 261 and 263 is 0) and has a density other than 0:
    [Ita[i]] is the sum of the trapped-air terms [vdiff2p] and
    [colorField[i]] the sum of the colour terms [colorField2p] over the
    particles of the surrounding buckets with an id other than its own,
    and [energy[i]] is [mass |vi|^2 / 2]; the three arrays keep the length
    [n]; and the energy array is the one that the later stages read from
    the snapshot. *)
Theorem pass1_fields sp n cells c pi lookup rand
  (wf : cells_well_formed n cells)
  (h_positive : 0 < h sp)
  (cell : In c cells) (source : In pi (c_bucket c))
  (apart : forall pj, In pj (concat (c_sbuckets c)) ->
                      p_id pj <> p_id pi ->
                      p_vel pi <> p_vel pj /\ p_pos pi <> p_pos pj
                      /\ p_rhop pj <> 0) :
  let Ita := fst (fst (pass1 sp n cells)) in
  let colorField := snd (fst (pass1 sp n cells)) in
  let energy := snd (pass1 sp n cells) in
  let i := Z.to_nat (p_id pi) in
  nth i Ita 0 = Ita_sum sp pi (concat (c_sbuckets c)) 0 /\
  nth i colorField 0 = colorField_sum sp pi (concat (c_sbuckets c)) 0 /\
  nth i energy 0 =
    0.5 * mass sp * (at0 (p_vel pi) * at0 (p_vel pi)
                     + at1 (p_vel pi) * at1 (p_vel pi)
                     + at2 (p_vel pi) * at2 (p_vel pi)) /\
  length Ita = n /\ length colorField = n /\ length energy = n /\
  energy_acc sp (snapshot sp n cells lookup rand) = energy.
Proof.
  cbv zeta. destruct (cells_well_formed_ids n cells wf) as [ND Hr].
  pose proof (jobs_in cells c pi cell source) as Hjob.
  assert (Hr' : forall q, In q (jobs cells) ->
                  (Z.to_nat (p_id (snd q)) < length (repeat 0%R n))%nat).
  { intros q Hq. rewrite repeat_length. now apply Hr. }
  assert (Z0 : nth (Z.to_nat (p_id pi)) (repeat 0 n) 0 = 0)
    by apply nth_repeat.
  rewrite energy_acc_snapshot, pass1_arrays. cbn [fst snd].
  rewrite !fold_local_length, repeat_length.
  repeat split.
  - rewrite (fold_local_nth _ _ 0 (jobs cells) _ (c_sbuckets c, pi) ND Hr' Hjob).
    cbn [fst snd]. now rewrite Z0.
  - rewrite (fold_local_nth _ _ 0 (jobs cells) _ (c_sbuckets c, pi) ND Hr' Hjob).
    cbn [fst snd]. now rewrite Z0.
  - now rewrite (fold_local_nth _ _ 0 (jobs cells) _ (c_sbuckets c, pi)
                   ND Hr' Hjob).
Qed.

(** ** The second and the third pass *)

Lemma vadd_zero a x y z :
  x = 0 -> y = 0 -> z = 0 -> vadd a (V3 x y z) = a.
Proof.
  intros -> -> ->. destruct a. unfold vadd. simpl. f_equal; ring.
Qed.

Lemma pass2_pair_update sp cf pi pj g :
  pass2_pair sp cf pi g pj =
  write g (Z.to_nat (p_id pi))
        (gradient_sum sp cf pi [pj] (nth (Z.to_nat (p_id pi)) g vec0)).
Proof.
  unfold pass2_pair, gradient_sum. cbn [fold_left]. cbv zeta.
  unfold gradient2p, Wwendland. cbv zeta.
  destruct (dge _ 0 && dle _ 2).
  - f_equal. unfold vadd, ops.substract. simpl. f_equal; ring.
  - rewrite vadd_zero by ring. now rewrite write_nth_same.
Qed.

Lemma pass2_pairs_update sp cf pi nbrs :
  forall g,
    fold_left (pass2_pair sp cf pi) nbrs g =
    write g (Z.to_nat (p_id pi))
          (gradient_sum sp cf pi nbrs (nth (Z.to_nat (p_id pi)) g vec0)).
Proof.
  induction nbrs as [|pj nbrs IH]; intros g.
  - unfold gradient_sum. cbn [fold_left]. now rewrite write_nth_same.
  - cbn [fold_left]. rewrite pass2_pair_update, IH.
    unfold gradient_sum. cbn [fold_left].
    apply (write_update_twice g _ vec0 _ (fun a => fold_left _ nbrs a)).
Qed.

Lemma pass2_array sp n cf cells :
  pass2 sp n cf cells =
  fold_left
    (local_step (fun job => Z.to_nat (p_id (snd job)))
       (fun job a => gradient_sum sp cf (snd job) (concat (fst job)) a) vec0)
    (jobs cells) (repeat vec0 n).
Proof.
  unfold pass2, jobs. rewrite fold_left_flat_map.
  generalize (repeat vec0 n).
  induction cells as [|c cells IH]; intros g; [reflexivity|].
  cbn [fold_left]. rewrite IH. f_equal. rewrite fold_left_map.
  generalize g. clear. induction (c_bucket c) as [|pi ps IH]; intros g;
    [reflexivity|].
  cbn [fold_left]. rewrite IH. f_equal.
  now rewrite fold_left_concat, pass2_pairs_update.
Qed.

Lemma add_at_fold (t : particle -> R) i nbrs :
  forall arr,
    fold_left (fun arr' pj => add_at arr' i (t pj)) nbrs arr =
    write arr i (fold_left (fun a pj => a + t pj) nbrs (nth i arr 0)).
Proof.
  induction nbrs as [|pj nbrs IH]; intros arr.
  - cbn [fold_left]. now rewrite write_nth_same.
  - cbn [fold_left]. rewrite IH. unfold add_at.
    apply (write_update_twice arr i 0 _ (fun a => fold_left _ nbrs a)).
Qed.

Lemma pass3_particle_update sp cf g sbuckets wc pi :
  pass3_particle sp cf g sbuckets wc pi =
  write wc (Z.to_nat (p_id pi))
        (if dlt (nth (Z.to_nat (p_id pi)) cf 0) SURFACE
         then waveCrest_sum sp g pi (concat sbuckets)
                            (nth (Z.to_nat (p_id pi)) wc 0)
         else nth (Z.to_nat (p_id pi)) wc 0).
Proof.
  unfold pass3_particle. cbv zeta.
  destruct (dlt _ SURFACE).
  - rewrite fold_left_concat, add_at_fold. reflexivity.
  - now rewrite write_nth_same.
Qed.

Lemma pass3_array sp n cf g cells :
  pass3 sp n cf g cells =
  fold_left
    (local_step (fun job => Z.to_nat (p_id (snd job)))
       (fun job a =>
          if dlt (nth (Z.to_nat (p_id (snd job))) cf 0) SURFACE
          then waveCrest_sum sp g (snd job) (concat (fst job)) a
          else a) 0)
    (jobs cells) (repeat 0 n).
Proof.
  unfold pass3, jobs. rewrite fold_left_flat_map.
  generalize (repeat 0 n).
  induction cells as [|c cells IH]; intros wc; [reflexivity|].
  cbn [fold_left]. rewrite IH. f_equal. rewrite fold_left_map.
  generalize wc. clear. induction (c_bucket c) as [|pi ps IH]; intros wc;
    [reflexivity|].
  cbn [fold_left]. rewrite IH. f_equal.
  apply pass3_particle_update.
Qed.

(** X10.  The second pass on well-formed buckets: [gradient[i]] is the
    component-wise sum of [gradient2p] over all particles of the
    surrounding buckets (the particle itself included), weighted with the
    colour field of the neighbour; the array keeps the length [n]. *)
Theorem pass2_gradient sp n colorField cells c pi
  (wf : cells_well_formed n cells)
  (cell : In c cells) (source : In pi (c_bucket c)) :
  nth (Z.to_nat (p_id pi)) (pass2 sp n colorField cells) vec0
    = gradient_sum sp colorField pi (concat (c_sbuckets c)) vec0 /\
  length (pass2 sp n colorField cells) = n.
Proof.
  destruct (cells_well_formed_ids n cells wf) as [ND Hr].
  pose proof (jobs_in cells c pi cell source) as Hjob.
  assert (Hr' : forall q, In q (jobs cells) ->
                  (Z.to_nat (p_id (snd q)) < length (repeat vec0 n))%nat).
  { intros q Hq. rewrite repeat_length. now apply Hr. }
  rewrite pass2_array, fold_local_length, repeat_length.
  split; [|reflexivity].
  rewrite (fold_local_nth _ _ vec0 (jobs cells) _ (c_sbuckets c, pi)
             ND Hr' Hjob).
  cbn [fst snd]. now rewrite nth_repeat.
Qed.

(** X11.  The third pass on well-formed buckets: a particle whose colour
    field is at least [SURFACE = 0.75] keeps the wave crest 0; for the
    others [waveCrest[i]] is the sum of [crests2p] over all particles of
    the surrounding buckets; the array keeps the length [n]. *)
Theorem pass3_waveCrest sp n colorField gradient cells c pi
  (wf : cells_well_formed n cells)
  (cell : In c cells) (source : In pi (c_bucket c)) :
  let i := Z.to_nat (p_id pi) in
  let waveCrest := pass3 sp n colorField gradient cells in
  (0.75 <= nth i colorField 0 -> nth i waveCrest 0 = 0) /\
  (nth i colorField 0 < 0.75 ->
   nth i waveCrest 0 =
     waveCrest_sum sp gradient pi (concat (c_sbuckets c)) 0) /\
  length waveCrest = n.
Proof.
  cbv zeta. destruct (cells_well_formed_ids n cells wf) as [ND Hr].
  pose proof (jobs_in cells c pi cell source) as Hjob.
  assert (Hr' : forall q, In q (jobs cells) ->
                  (Z.to_nat (p_id (snd q)) < length (repeat 0%R n))%nat).
  { intros q Hq. rewrite repeat_length. now apply Hr. }
  rewrite pass3_array, fold_local_length, repeat_length.
  rewrite (fold_local_nth _ _ 0 (jobs cells) _ (c_sbuckets c, pi)
             ND Hr' Hjob).
  cbn [fst snd]. rewrite nth_repeat. unfold SURFACE.
  split; [|split; [|reflexivity]]; intros H.
  - now rewrite (proj2 (dlt_false _ _)).
  - now rewrite (proj2 (dlt_true _ _)).
Qed.

Lemma lonely_cells_well_formed : cells_well_formed 1 lonely_cells.
Proof. unfold cells_well_formed. simpl. apply Permutation_refl. Qed.

Lemma pass1_fields_witness :
  nth 0 (fst (fst (pass1 (demo_params 1 1 0 6 []) 2 pair_cells))) 0
  = Ita_sum (demo_params 1 1 0 6 []) mover [mover; sitter] 0.
Proof.
  refine (proj1 (pass1_fields (demo_params 1 1 0 6 []) 2 pair_cells
                   (mkCell [mover; sitter] [[mover; sitter]]) mover
                   (fun _ => []) (fun _ => 0) _ _ _ _ _)).
  - unfold cells_well_formed. simpl. apply Permutation_refl.
  - simpl. lra.
  - now left.
  - now left.
  - intros pj [<- | [<- | []]] Hid.
    + now elim Hid.
    + split; [|split]; simpl; try lra; intros H; injection H; intros; lra.
Defined.

Lemma pass2_gradient_witness :
  nth 0 (pass2 (demo_params 1 1 0 6 []) 1 [0] lonely_cells) vec0
  = gradient_sum (demo_params 1 1 0 6 []) [0] lonely [lonely] vec0.
Proof.
  refine (proj1 (pass2_gradient (demo_params 1 1 0 6 []) 1 [0] lonely_cells
                   (mkCell [lonely] [[lonely]]) lonely
                   lonely_cells_well_formed _ _)).
  - now left.
  - now left.
Defined.

Lemma pass3_waveCrest_witness :
  length (pass3 (demo_params 1 1 0 6 []) 1 [0] [vec0] lonely_cells) = 1%nat.
Proof.
  refine (proj2 (proj2 (pass3_waveCrest (demo_params 1 1 0 6 []) 1 [0] [vec0]
                          lonely_cells (mkCell [lonely] [[lonely]]) lonely
                          lonely_cells_well_formed _ _))).
  - now left.
  - now left.
Defined.

(** ** A particle without neighbours within [2 h] *)


Lemma crests2p_self xi vi ni nj h_ : crests2p xi xi vi ni nj h_ = 0.
Proof.
  unfold crests2p. cbv zeta.
  assert (E : ops.dotProduct (ops.distanceVector xi xi) (ops.normalize ni)
              = 0).
  { unfold ops.distanceVector, ops.normalize at 1, ops.dotProduct,
      ops.substract. simpl. unfold Rdiv. ring. }
  rewrite E. now rewrite (proj2 (dlt_false 0 0)) by lra.
Qed.

Section Isolated.

Variable sp : SimulationParams.
Variable pi : particle.
Variable nbrs : list particle.
Hypothesis h_positive : 0 < h sp.
Hypothesis isolated :
  forall pj, In pj nbrs ->
    pj = pi \/
    2 * h sp <= ops.magnitude (ops.substract (p_pos pi) (p_pos pj)).





End Isolated.



(** ** Frames without births *)







(** ** Stage 8: density, classes and the three laws *)

Lemma density_at_count sp fr pxd d0 :
  density_at sp fr pxd d0 =
  d0 + INR (length
              (filter
                 (fun pj =>
                    dle (ops.magnitude (ops.substract pxd (p_pos pj))) (h sp))
                 (getSurroundingBuckets fr pxd))).
Proof.
  unfold density_at. revert d0.
  induction (getSurroundingBuckets fr pxd) as [|pj l IH]; intros d0.
  - simpl. lra.
  - cbn [fold_left filter]. rewrite IH.
    destruct (dle _ (h sp)); [|reflexivity].
    cbn [length]. rewrite S_INR. lra.
Qed.

Lemma update_particle_fields sp timeout fr d :
  dIds (update_particle sp timeout fr d) = dIds d /\
  dTTL (update_particle sp timeout fr d) = dTTL d /\
  dDensity (update_particle sp timeout fr d)
    = density_at sp fr (dPosit d) 0.
Proof.
  unfold update_particle. cbv zeta.
  destruct (dlt _ (SPRAY sp)); [|destruct (dgt _ (BUBBLES sp))];
    repeat split.
Qed.

(** X14.  Stage 8 never changes the id or the ttl of a persistent
    particle, and the density it stores is the number of fluid particles
    of the surrounding buckets within [h] of the old position: a natural
    number, at most the number of particles looked at. *)
Theorem advection_keeps_identity sp timeout fr d :
  let d' := update_particle sp timeout fr d in
  let within :=
    filter (fun pj =>
              dle (ops.magnitude (ops.substract (dPosit d) (p_pos pj))) (h sp))
           (getSurroundingBuckets fr (dPosit d)) in
  dIds d' = dIds d /\
  dTTL d' = dTTL d /\
  dDensity d' = INR (length within) /\
  0 <= dDensity d' <= INR (length (getSurroundingBuckets fr (dPosit d))).
Proof.
  cbv zeta.
  destruct (update_particle_fields sp timeout fr d) as (E1 & E2 & E3).
  rewrite E1, E2, E3, density_at_count, Rplus_0_l.
  repeat split.
  - apply pos_INR.
  - apply le_INR, filter_length_le.
Qed.

(** X15.  The class that stage 11 writes out is 0, 1 or 2, it never goes
    down when the density goes up, and for a particle that stage 8 has
    just updated it names the law that stage 8 applied: 0 the spray law,
    2 the bubble law, 1 the foam law. *)
Theorem class_and_law sp timeout fr d d1 d2 :
  let d' := update_particle sp timeout fr d in
  let rho := density_at sp fr (dPosit d) 0 in
  let sums := smoothed_sums sp fr (dPosit d) in
  (ttype sp d1 = 0 \/ ttype sp d1 = 1 \/ ttype sp d1 = 2)%Z /\
  (dDensity d1 <= dDensity d2 -> (ttype sp d1 <= ttype sp d2)%Z) /\
  (ttype sp d' = 0%Z -> d' = spray_update timeout d rho) /\
  (ttype sp d' = 2%Z ->
   d' = bubble_update sp timeout d rho (fst sums) (snd sums)) /\
  (ttype sp d' = 1%Z -> d' = foam_update timeout d rho (fst sums) (snd sums)).
Proof.
  cbv zeta. split; [|split].
  - unfold ttype. destruct (dlt _ _); [|destruct (dgt _ _)]; auto.
  - intros Hle. unfold ttype, dgt.
    destruct (dlt (dDensity d1) (SPRAY sp)) eqn:A1;
      [destruct (dlt (dDensity d2) (SPRAY sp));
       [|destruct (dlt (BUBBLES sp) (dDensity d2))]; lia|].
    apply dlt_false in A1.
    rewrite (proj2 (dlt_false (dDensity d2) (SPRAY sp))) by lra.
    destruct (dlt (BUBBLES sp) (dDensity d1)) eqn:B1.
    + apply dlt_true in B1.
      rewrite (proj2 (dlt_true (BUBBLES sp) (dDensity d2))) by lra. lia.
    + destruct (dlt (BUBBLES sp) (dDensity d2)); lia.
  - destruct (update_particle_fields sp timeout fr d) as (_ & _ & E).
    unfold ttype. rewrite E. unfold update_particle. cbv zeta.
    destruct (dlt _ (SPRAY sp)) eqn:A.
    + repeat split; intros; try discriminate; reflexivity.
    + assert (G : dge (density_at sp fr (dPosit d) 0) (SPRAY sp) = true).
      { apply dlt_false in A. unfold dge. now apply dle_true. }
      rewrite G.
      destruct (dgt _ (BUBBLES sp));
        repeat split; intros; try discriminate; reflexivity.
Qed.

Lemma smoothed_sums_uniform sp fr pxd u :
  (forall pj, In pj (getSurroundingBuckets fr pxd) -> p_vel pj = u) ->
  fst (smoothed_sums sp fr pxd) =
  V3 (at0 u * snd (smoothed_sums sp fr pxd))
     (at1 u * snd (smoothed_sums sp fr pxd))
     (at2 u * snd (smoothed_sums sp fr pxd)).
Proof.
  unfold smoothed_sums.
  assert (G : forall l acc,
            (forall pj, In pj l -> p_vel pj = u) ->
            fst acc = V3 (at0 u * snd acc) (at1 u * snd acc)
                         (at2 u * snd acc) ->
            let r := fold_left
                       (fun nd pj =>
                          let tval := Wwendland
                                        (ops.substract pxd (p_pos pj)) (h sp) in
                          (V3 (at0 (fst nd) + at0 (p_vel pj) * tval)
                              (at1 (fst nd) + at1 (p_vel pj) * tval)
                              (at2 (fst nd) + at2 (p_vel pj) * tval),
                           snd nd + tval)) l acc in
            fst r = V3 (at0 u * snd r) (at1 u * snd r) (at2 u * snd r)).
  { induction l as [|pj l IH]; intros acc Hu Hacc; [exact Hacc|].
    cbn [fold_left]. apply IH; [intros q Hq; apply Hu; now right|].
    cbn [fst snd]. rewrite (Hu pj (or_introl eq_refl)), Hacc. simpl.
    f_equal; ring. }
  intros Hu. apply (G _ _ Hu). simpl. f_equal; ring.
Qed.

Lemma smoothed_den_positive sp fr pxd :
  0 < h sp -> 0 < density_at sp fr pxd 0 ->
  0 < snd (smoothed_sums sp fr pxd).
Proof.
  intros Hh Hd.
  assert (0 <= snd (smoothed_sums sp fr pxd)).
  { unfold smoothed_sums. rewrite smoothed_sums_den. cbn [snd].
    rewrite Rplus_0_l.
    induction (getSurroundingBuckets fr pxd) as [|pj l IH];
      cbn [fold_right]; [lra|].
    pose proof (Wwendland_nonneg (ops.substract pxd (p_pos pj)) (h sp) Hh).
    lra. }
  destruct (Req_dec_T (snd (smoothed_sums sp fr pxd)) 0) as [E|N]; [|lra].
  rewrite (zero_den_zero_density sp fr pxd Hh E) in Hd. lra.
Qed.

(** The foam law among fluid particles that all have the velocity [u]. *)
Lemma uniform_foam_update sp timeout fr d u :
  0 < h sp -> 0 < SPRAY sp ->
  SPRAY sp <= density_at sp fr (dPosit d) 0 <= BUBBLES sp ->
  (forall pj, In pj (getSurroundingBuckets fr (dPosit d)) -> p_vel pj = u) ->
  update_particle sp timeout fr d =
  mkDiffuse (V3 (at0 (dPosit d) + tout timeout * at0 u)
                (at1 (dPosit d) + tout timeout * at1 u)
                (at2 (dPosit d) + tout timeout * at2 u))
            u (dIds d) (dTTL d) (density_at sp fr (dPosit d) 0).
Proof.
  intros h_positive spray_positive foam uniform.
  unfold update_particle. cbv zeta.
  unfold dge, dgt.
  rewrite (proj2 (dle_true _ _) (proj1 foam)).
  rewrite (proj2 (dlt_false _ _) (proj1 foam)).
  rewrite (proj2 (dlt_false _ _) (proj2 foam)).
  assert (Hden : 0 < snd (smoothed_sums sp fr (dPosit d))).
  { apply smoothed_den_positive; [assumption|lra]. }
  unfold foam_update. cbv zeta.
  rewrite (smoothed_sums_uniform sp fr (dPosit d) u uniform).
  cbn [at0 at1 at2].
  revert Hden. generalize (snd (smoothed_sums sp fr (dPosit d))).
  intros den Hden.
  assert (E : forall x, x * den / den = x) by (intros; field; lra).
  rewrite !E. now destruct u.
Qed.

Lemma six_fluid_density spray ts :
  density_at (demo_params 1 1 0 spray ts) six_fluid (V3 1 1 1) 0 = 6.
Proof.
  unfold density_at, ops.substract. simpl.
  replace (1 - 1) with 0 by lra. rewrite magnitude_zero.
  decide_cmp. lra.
Qed.

(** X16.  Foam in a uniform flow: when every fluid particle of the
    surrounding buckets has the velocity [u] and the density of the
    diffuse particle is in the foam range (with [SPRAY > 0], [h > 0]),
    one frame gives it the velocity [u] and moves it by [dt u]. *)
Theorem foam_in_uniform_flow sp timeout fr d u
  (h_positive : 0 < h sp) (spray_positive : 0 < SPRAY sp)
  (foam : SPRAY sp <= density_at sp fr (dPosit d) 0 <= BUBBLES sp)
  (uniform : forall pj, In pj (getSurroundingBuckets fr (dPosit d)) ->
                        p_vel pj = u) :
  let d' := update_particle sp timeout fr d in
  dVel d' = u /\
  dPosit d' = V3 (at0 (dPosit d) + tout timeout * at0 u)
                 (at1 (dPosit d) + tout timeout * at1 u)
                 (at2 (dPosit d) + tout timeout * at2 u).
Proof.
  cbv zeta.
  rewrite (uniform_foam_update sp timeout fr d u h_positive spray_positive
             foam uniform).
  split; reflexivity.
Qed.

Lemma foam_in_uniform_flow_witness :
  dVel (update_particle (demo_params 1 1 0 6 [mkTimeOut 0 1]) (mkTimeOut 0 1)
          six_fluid (mkDiffuse (V3 1 1 1) (V3 0 0 0) 7%Z 3%Z 0))
  = V3 0 0 0.
Proof.
  refine (proj1 (foam_in_uniform_flow
                   (demo_params 1 1 0 6 [mkTimeOut 0 1]) (mkTimeOut 0 1)
                   six_fluid (mkDiffuse (V3 1 1 1) (V3 0 0 0) 7%Z 3%Z 0)
                   (V3 0 0 0) _ _ _ _)).
  - simpl. lra.
  - simpl. lra.
  - cbn [dPosit]. rewrite six_fluid_density. simpl. lra.
  - intros pj H. simpl in H.
    decompose [or] H; subst; try reflexivity; contradiction.
Defined.

(** X17.  The bubble law with a time step other than 0: the drag term
    does not depend on the time step, the new velocity is
    [v + KD (vs - v) + (0, 0, KB 9.81 dt)] with [vs] the smoothed fluid
    velocity, and the position moves by [dt] times the new velocity; with
    [KD = 1] and [KB = 0] it is the foam law. *)
Theorem bubble_law sp timeout d density num den
  (dt_nonzero : tout timeout <> 0) :
  let vs := V3 (at0 num / den) (at1 num / den) (at2 num / den) in
  let d' := bubble_update sp timeout d density num den in
  dVel d' =
    V3 (at0 (dVel d) + KD sp * (at0 vs - at0 (dVel d)))
       (at1 (dVel d) + KD sp * (at1 vs - at1 (dVel d)))
       (at2 (dVel d) + KD sp * (at2 vs - at2 (dVel d))
        + KB sp * 9.81 * tout timeout) /\
  dPosit d' =
    V3 (at0 (dPosit d) + tout timeout * at0 (dVel d'))
       (at1 (dPosit d) + tout timeout * at1 (dVel d'))
       (at2 (dPosit d) + tout timeout * at2 (dVel d')) /\
  (KD sp = 1 -> KB sp = 0 -> d' = foam_update timeout d density num den).
Proof.
  cbv zeta. unfold bubble_update. cbv zeta. cbn [dVel dPosit at0 at1 at2].
  assert (E : forall k v x,
             v + tout timeout * (k * (x - v) / tout timeout)
             = v + k * (x - v)) by (intros; field; assumption).
  assert (E2 : forall g kb k v x,
             v + tout timeout * (- kb * g + k * (x - v) / tout timeout)
             = v + k * (x - v) + kb * (- g) * tout timeout)
    by (intros; field; assumption).
  rewrite !E, E2. replace (- -9.81) with 9.81 by lra.
  split; [|split].
  - reflexivity.
  - reflexivity.
  - intros HD HB. unfold foam_update. cbv zeta. rewrite HD, HB.
    cbn [at0 at1 at2]. f_equal; apply f_equal3; ring.
Qed.

Lemma bubble_law_witness :
  dVel (bubble_update (demo_params 1 1 0 6 []) (mkTimeOut 0 0.5)
          (mkDiffuse (V3 1 1 1) (V3 0 0 0) 0%Z 1%Z 25) 25 (V3 2 0 0) 2)
  = V3 (0 + 0 * (2 / 2 - 0)) (0 + 0 * (0 / 2 - 0))
       (0 + 0 * (0 / 2 - 0) + 0 * 9.81 * 0.5).
Proof.
  refine (proj1 (bubble_law (demo_params 1 1 0 6 []) (mkTimeOut 0 0.5)
                   (mkDiffuse (V3 1 1 1) (V3 0 0 0) 0%Z 1%Z 25) 25
                   (V3 2 0 0) 2 _)).
  simpl. lra.
Defined.

(** ** The ids of the pool across frames *)

Lemma ndiffuse_of_nonneg sp timeout fr :
  0 <= KTA sp -> 0 <= KWC sp -> 0 <= tout timeout ->
  MINTA sp < MAXTA sp -> MINWC sp < MAXWC sp -> MINK sp < MAXK sp ->
  forall i, (i < npoints fr)%nat ->
            (0 <= nth i (ndiffuse_of sp timeout fr) 0)%Z.
Proof.
  intros kta kwc dt wta wwc wk i Hi.
  rewrite nth_ndiffuse_of by exact Hi.
  unfold energy_of, Ita_of, waveCrest_of. rewrite !nth_clamp_array by exact Hi.
  pose proof (phi_range _ _ wk (nth i (energy_acc sp fr) 0)).
  pose proof (phi_range _ _ wta (nth i (Ita_acc fr) 0)).
  pose proof (phi_range _ _ wwc (nth i (waveCrest_acc fr) 0)).
  apply floor_int_nonneg.
  apply Rmult_le_pos; [apply Rmult_le_pos|]; try lra.
  apply Rplus_le_le_0_compat; apply Rmult_le_pos; lra.
Qed.

Lemma floor_int_below x z : x < IZR z -> (floor_int x < z)%Z.
Proof.
  intros H. unfold floor_int.
  destruct (base_Int_part x) as [Hle _].
  apply lt_IZR. lra.
Qed.

(** With clamped fields in [[0,1]] the product that line 398 floors is at
    most [(KTA + KWC) * dt]. *)
Lemma ndiffuse_of_range sp timeout fr :
  0 <= KTA sp -> 0 <= KWC sp -> 0 <= tout timeout ->
  MINTA sp < MAXTA sp -> MINWC sp < MAXWC sp -> MINK sp < MAXK sp ->
  (KTA sp + KWC sp) * tout timeout < 2147483648 ->
  forall i, (i < npoints fr)%nat ->
            (0 <= nth i (ndiffuse_of sp timeout fr) 0 < 2147483648)%Z.
Proof.
  intros kta kwc dt wta wwc wk fits i Hi.
  split; [now apply ndiffuse_of_nonneg|].
  rewrite nth_ndiffuse_of by exact Hi.
  unfold energy_of, Ita_of, waveCrest_of. rewrite !nth_clamp_array by exact Hi.
  pose proof (phi_range _ _ wk (nth i (energy_acc sp fr) 0)) as HE.
  pose proof (phi_range _ _ wta (nth i (Ita_acc fr) 0)) as HI.
  pose proof (phi_range _ _ wwc (nth i (waveCrest_acc fr) 0)) as HW.
  revert HE HI HW.
  generalize (phi (nth i (energy_acc sp fr) 0) (MINK sp) (MAXK sp)).
  generalize (phi (nth i (Ita_acc fr) 0) (MINTA sp) (MAXTA sp)).
  generalize (phi (nth i (waveCrest_acc fr) 0) (MINWC sp) (MAXWC sp)).
  intros w a e HE HI HW.
  apply floor_int_below.
  apply Rle_lt_trans with ((KTA sp + KWC sp) * tout timeout); [|exact fits].
  apply Rmult_le_compat_r; [exact dt|].
  assert (A : KTA sp * a <= KTA sp * 1) by (apply Rmult_le_compat_l; lra).
  assert (W : KWC sp * w <= KWC sp * 1) by (apply Rmult_le_compat_l; lra).
  assert (A0 : 0 <= KTA sp * a) by (apply Rmult_le_pos; lra).
  assert (W0 : 0 <= KWC sp * w) by (apply Rmult_le_pos; lra).
  apply Rle_trans with (1 * (KTA sp * a + KWC sp * w)); [|lra].
  apply Rmult_le_compat_r; lra.
Qed.

Lemma trunc_int_nonneg x : 0 <= x -> (0 <= trunc_int x)%Z.
Proof.
  intros H. unfold trunc_int.
  rewrite (proj2 (dlt_false x 0)) by exact H.
  now apply (floor_int_nonneg x).
Qed.

Lemma trunc_int_IZR z : trunc_int (IZR z) = z.
Proof.
  unfold trunc_int. destruct (dlt (IZR z) 0).
  - rewrite <- opp_IZR.
    change (Int_part (IZR (- z))) with (floor_int (IZR (- z))).
    rewrite floor_int_IZR. lia.
  - apply (floor_int_IZR z).
Qed.

(** The conversion of line 491 is defined for the doubles between
    [-2^31 - 1] and [2^31]. *)
Lemma trunc_int_fits x :
  -2147483649 < x < 2147483648 -> fits_int (trunc_int x).
Proof.
  intros [Hlo Hhi]. unfold fits_int, trunc_int.
  destruct (dlt x 0) eqn:E.
  - apply dlt_true in E.
    assert (0 <= floor_int (- x))%Z by (apply floor_int_nonneg; lra).
    assert (floor_int (- x) < 2147483649)%Z
      by (apply floor_int_below; lra).
    unfold floor_int in *. lia.
  - apply dlt_false in E.
    assert (0 <= floor_int x)%Z by (apply floor_int_nonneg; lra).
    assert (floor_int x < 2147483648)%Z by (apply floor_int_below; lra).
    unfold floor_int in *. lia.
Qed.

Lemma decrease_ttl_ids sp d : dIds (decrease_ttl sp d) = dIds d.
Proof. unfold decrease_ttl. now destruct (ttl_test sp d). Qed.

(** The ids of the survivors are ids of the pool, in the order of the
    pool. *)
Lemma survivors_ids sp timeout fr pp :
  map dIds (survivors sp timeout fr pp)
  = map dIds
        (filter (fun d => negb (deleted sp
                                  (decrease_ttl sp
                                     (update_particle sp timeout fr d))))
                pp).
Proof.
  unfold survivors.
  induction pp as [|d rest IH]; [reflexivity|].
  cbn [map delete_particles filter].
  destruct (negb _); cbn [map]; rewrite IH; [|reflexivity].
  f_equal. rewrite decrease_ttl_ids.
  now destruct (update_particle_fields sp timeout fr d) as (-> & _).
Qed.

Lemma filter_map_NoDup {A B} (f : A -> B) (keep : A -> bool) l :
  NoDup (map f l) -> NoDup (map f (filter keep l)).
Proof.
  induction l as [|x l IH]; intros H; [constructor|].
  cbn [map] in H. inversion H as [|y l' Hx Hl]; subst.
  cbn [filter]. destruct (keep x); [|now apply IH].
  cbn [map]. constructor; [|now apply IH].
  intros Hin. apply Hx. apply in_map_iff in Hin as (z & E & Hz).
  apply filter_In in Hz as [Hz _]. apply in_map_iff. now exists z.
Qed.

Lemma survivors_fresh sp timeout fr pp counter :
  ids_fresh pp counter -> ids_fresh (survivors sp timeout fr pp) counter.
Proof.
  intros [Hn Hr]. split.
  - rewrite survivors_ids. now apply filter_map_NoDup.
  - intros d Hd. unfold survivors in Hd.
    rewrite delete_particles_filter in Hd.
    apply filter_In in Hd as [Hd _].
    apply in_map_iff in Hd as (d1 & <- & Hd).
    apply in_map_iff in Hd as (d0 & <- & Hd).
    rewrite decrease_ttl_ids.
    destruct (update_particle_fields sp timeout fr d0) as (-> & _).
    now apply Hr.
Qed.

(** The newborns of a well-formed snapshot with non-negative counts: the
    counter moves by their number, and below [2^31] their ids are the
    values that the counter passes. *)
Lemma newborns_ids sp timeout fr difId0 :
  well_formed fr ->
  (forall i, (i < npoints fr)%nat ->
             (0 <= nth i (ndiffuse_of sp timeout fr) 0)%Z) ->
  (0 <= difId0)%Z ->
  exists newborn,
    newborns sp timeout fr difId0
      = Some (newborn, (difId0 + Z.of_nat (length newborn))%Z) /\
    ((difId0 + Z.of_nat (length newborn) <= 2147483648)%Z ->
     map dIds newborn
     = map (fun k => (difId0 + Z.of_nat k)%Z) (seq 0 (length newborn))).
Proof.
  intros wf Hpos Hd.
  pose proof (spawned_total sp timeout (tempRand fr)
                (ndiffuse_of sp timeout fr) fr 0 difId0 wf
                (ndiffuse_of_length sp timeout fr)) as T.
  rewrite ndiffuse_of_length in T. specialize (T Hpos).
  rewrite newborns_spawned. cbv zeta.
  assert (Hsum : (0 <= npdiffuse_of (ndiffuse_of sp timeout fr))%Z) by lia.
  rewrite (proj2 (Z.ltb_ge _ _) Hsum).
  rewrite overlay_full by (rewrite repeat_length; lia).
  eexists. split.
  - rewrite length_map. reflexivity.
  - rewrite length_map. intros Hmax.
    rewrite classify_newborn_ids.
    now apply spawned_ids_below_wrap.
Qed.

Lemma counter_values_fresh difId0 n :
  (0 <= difId0)%Z ->
  NoDup (map (fun k => (difId0 + Z.of_nat k)%Z) (seq 0 n)) /\
  forall id, In id (map (fun k => (difId0 + Z.of_nat k)%Z) (seq 0 n)) ->
             (difId0 <= id < difId0 + Z.of_nat n)%Z.
Proof.
  intros Hd. split.
  - apply NoDup_map_NoDup_ForallPairs; [|apply seq_NoDup].
    intros x y _ _ E. lia.
  - intros id Hin. apply in_map_iff in Hin as (k & <- & Hk).
    apply in_seq in Hk. lia.
Qed.

(** One frame on a well-formed snapshot with non-negative counts. *)
Lemma frame_ids_fresh sp nstep_ fr st :
  well_formed fr ->
  (forall i, (i < npoints fr)%nat ->
     (0 <= nth i (ndiffuse_of sp (nth (tstep_idx st) (timesteps sp) TimeOut0)
                              fr) 0)%Z) ->
  (0 <= difId st)%Z ->
  exists st',
    frame sp nstep_ fr st = Some st' /\
    (difId st <= difId st')%Z /\
    ((difId st' <= 2147483648)%Z ->
     ids_fresh (ppool st) (difId st) -> ids_fresh (ppool st') (difId st')).
Proof.
  intros wf Hpos Hd.
  destruct (newborns_ids sp _ fr (difId st) wf Hpos Hd) as (nb & E & Hids).
  unfold frame. rewrite E.
  rewrite (append_new_app _ _ _ (newborns_length _ _ _ _ _ _ E)).
  eexists. split; [reflexivity|]. cbn [difId ppool].
  split; [lia|]. intros Hmax [Hn Hr].
  specialize (Hids Hmax).
  destruct (counter_values_fresh (difId st) (length nb) Hd) as [Cn Cr].
  destruct (survivors_fresh sp (nth (tstep_idx st) (timesteps sp) TimeOut0)
              fr (ppool st) (difId st) (conj Hn Hr)) as [Sn Sr].
  split.
  - rewrite map_app. apply NoDup_app; [exact Sn | now rewrite Hids |].
    intros id H1 H2. rewrite Hids in H2. apply Cr in H2.
    apply in_map_iff in H1 as (d & <- & H1). apply Sr in H1. lia.
  - intros d Hin. apply in_app_or in Hin as [Hin | Hin].
    + apply Sr in Hin. lia.
    + assert (In (dIds d) (map dIds nb)) by now apply in_map.
      rewrite Hids in H. apply Cr in H. lia.
Qed.

Lemma schedule_tout_nonneg sp idx :
  (forall t, In t (timesteps sp) -> 0 <= tout t) ->
  0 <= tout (nth idx (timesteps sp) TimeOut0).
Proof.
  intros H. destruct (nth_in_or_default idx (timesteps sp) TimeOut0) as [I|E].
  - now apply H.
  - rewrite E. simpl. lra.
Qed.

(** X18.  The program when the iterations of the spawner loop do not
    run concurrently (one thread, or snapshots with a single bucket),
    with a schedule that is not empty, non-negative coefficients [KTA], [KWC] and [LIFEFIME],
    non-negative time steps [dt] with [(KTA + KWC) dt] and
    [(KTA + KWC) dt LIFEFIME] below [2^31], clamp windows with
    [min < max] and well-formed snapshots: every count and every ttl of a
    newborn is a value of an [int], the run ends with a result, the
    counter [difId] never goes below 0, and if it ends at [2^31] or less
    then the ids of the final pool are pairwise different and each lies in
    [0, difId). *)
Theorem ids_unique_below_2_31 sp loadFile
  (schedule : timesteps sp <> [])
  (kta : 0 <= KTA sp) (kwc : 0 <= KWC sp) (lifetime : 0 <= LIFEFIME sp)
  (steps : forall t, In t (timesteps sp) -> 0 <= tout t)
  (counts_fit : forall t, In t (timesteps sp) ->
                          (KTA sp + KWC sp) * tout t < 2147483648)
  (ttls_fit : forall t, In t (timesteps sp) ->
                        (KTA sp + KWC sp) * tout t * LIFEFIME sp
                        < 2147483648)
  (wta : MINTA sp < MAXTA sp) (wwc : MINWC sp < MAXWC sp)
  (wk : MINK sp < MAXK sp)
  (wf : forall k fr, loadFile k = Some fr -> well_formed fr) :
  (forall k fr t i,
      loadFile k = Some fr -> In t (timesteps sp) -> (i < npoints fr)%nat ->
      fits_int (nth i (ndiffuse_of sp t fr) 0%Z) /\
      fits_int (trunc_int (IZR (nth i (ndiffuse_of sp t fr) 0%Z)
                           * LIFEFIME sp))) /\
  exists st,
    runSimulation sp loadFile = Some st /\
    (0 <= difId st)%Z /\
    ((difId st <= 2147483648)%Z -> ids_fresh (ppool st) (difId st)).
Proof.
  split.
  { intros k fr t i L Ht Hi.
    pose proof (ndiffuse_of_range sp t fr kta kwc (steps t Ht) wta wwc wk
                  (counts_fit t Ht) i Hi) as [N0 N1].
    split; [unfold fits_int; lia|].
    apply trunc_int_fits.
    assert (B : IZR (nth i (ndiffuse_of sp t fr) 0%Z)
                <= (KTA sp + KWC sp) * tout t).
    { rewrite nth_ndiffuse_of by exact Hi.
      unfold energy_of, Ita_of, waveCrest_of.
      rewrite !nth_clamp_array by exact Hi.
      pose proof (phi_range _ _ wk (nth i (energy_acc sp fr) 0)) as HE.
      pose proof (phi_range _ _ wta (nth i (Ita_acc fr) 0)) as HI.
      pose proof (phi_range _ _ wwc (nth i (waveCrest_acc fr) 0)) as HW.
      revert HE HI HW.
      generalize (phi (nth i (energy_acc sp fr) 0) (MINK sp) (MAXK sp)).
      generalize (phi (nth i (Ita_acc fr) 0) (MINTA sp) (MAXTA sp)).
      generalize (phi (nth i (waveCrest_acc fr) 0) (MINWC sp) (MAXWC sp)).
      intros w a e HE HI HW.
      pose proof (steps t Ht) as dt.
      unfold floor_int.
      destruct (base_Int_part (e * (KTA sp * a + KWC sp * w) * tout t))
        as [Hfl _].
      apply Rle_trans with (e * (KTA sp * a + KWC sp * w) * tout t);
        [exact Hfl|].
      apply Rmult_le_compat_r; [exact dt|].
      assert (A : KTA sp * a <= KTA sp * 1)
        by (apply Rmult_le_compat_l; lra).
      assert (W : KWC sp * w <= KWC sp * 1)
        by (apply Rmult_le_compat_l; lra).
      assert (A0 : 0 <= KTA sp * a) by (apply Rmult_le_pos; lra).
      assert (W0 : 0 <= KWC sp * w) by (apply Rmult_le_pos; lra).
      apply Rle_trans with (1 * (KTA sp * a + KWC sp * w)); [|lra].
      apply Rmult_le_compat_r; lra. }
    assert (P : 0 <= IZR (nth i (ndiffuse_of sp t fr) 0%Z) * LIFEFIME sp).
    { apply Rmult_le_pos; [apply IZR_le; lia | exact lifetime]. }
    assert (Q : IZR (nth i (ndiffuse_of sp t fr) 0%Z) * LIFEFIME sp
                <= (KTA sp + KWC sp) * tout t * LIFEFIME sp)
      by (apply Rmult_le_compat_r; [exact lifetime | exact B]).
    pose proof (ttls_fit t Ht). lra. }
  unfold runSimulation.
  assert (G : forall count k st,
            (0 <= difId st)%Z ->
            exists st',
              run_loop sp loadFile count k st = Some st' /\
              (difId st <= difId st')%Z /\
              ((difId st' <= 2147483648)%Z ->
               ids_fresh (ppool st) (difId st) ->
               ids_fresh (ppool st') (difId st'))).
  { induction count as [|count IH]; intros k st Hd.
    - exists st. split; [reflexivity|]. split; [lia | auto].
    - cbn [run_loop]. destruct (loadFile k) as [fr|] eqn:L.
      + set (st1 := mkState (difId st) (ppool st)
                            (next_tstep_idx sp (tstep_idx st) k)
                            (outputs st)).
        destruct (frame_ids_fresh sp k fr st1 (wf k fr L))
          as (st2 & F & M & I); [| exact Hd |].
        { apply ndiffuse_of_nonneg; auto.
          now apply schedule_tout_nonneg. }
        rewrite F. unfold st1 in M, I. cbn [difId ppool] in M, I.
        destruct (IH (k + 1)%Z st2) as (st' & R & M' & I'); [lia|].
        exists st'. split; [exact R|].
        split; [lia|]. intros Hmax Hf. apply I'; [exact Hmax|].
        apply I; [lia | exact Hf].
      + eexists. split; [reflexivity|]. cbn [difId ppool].
        split; [lia | auto]. }
  destruct (G (Z.to_nat (nend sp - nstart sp + 1)) (nstart sp) initial)
    as (st & R & M & I); [simpl; lia|].
  exists st. split; [exact R|]. simpl in M. split; [exact M|].
  intros Hmax. apply I; [exact Hmax|].
  split; [constructor | intros d []].
Qed.

(** ** Foam in still water *)

(** One frame of a foam particle among fluid particles at rest: it stays
    where it is and loses one unit of ttl, and it is dropped when that
    makes the ttl negative. *)
Lemma still_foam_frame sp timeout fr d :
  0 < h sp -> 0 < SPRAY sp ->
  SPRAY sp < density_at sp fr (dPosit d) 0 < BUBBLES sp ->
  (forall pj, In pj (getSurroundingBuckets fr (dPosit d)) ->
              p_vel pj = V3 0 0 0) ->
  interior sp (dPosit d) ->
  survivors sp timeout fr [d] =
  if (1 <=? dTTL d)%Z
  then [mkDiffuse (dPosit d) (V3 0 0 0) (dIds d) (dTTL d - 1)
                  (density_at sp fr (dPosit d) 0)]
  else [].
Proof.
  intros Hh Hs Hfoam Hstill Hin.
  unfold survivors. cbn [map delete_particles].
  rewrite (uniform_foam_update sp timeout fr d (V3 0 0 0) Hh Hs) by
    (try assumption; lra).
  cbn [at0 at1 at2]. rewrite !Rmult_0_r, !Rplus_0_r.
  replace (V3 (at0 (dPosit d)) (at1 (dPosit d)) (at2 (dPosit d)))
    with (dPosit d) by now destruct (dPosit d).
  unfold decrease_ttl.
  rewrite (proj2 (ttl_test_true sp _)) by exact Hfoam.
  cbn [dPosit dVel dIds dTTL dDensity].
  destruct (1 <=? dTTL d)%Z eqn:T.
  - apply Z.leb_le in T.
    rewrite (proj2 (deleted_false sp _)); [reflexivity|].
    cbn [dTTL dPosit]. split; [lia | exact Hin].
  - apply Z.leb_gt in T.
    rewrite (proj2 (deleted_true sp _)); [reflexivity|].
    left. cbn [dTTL]. lia.
Qed.

(** X19.  A foam particle among fluid particles at rest, in a sequence of
    frames with the same snapshot: with a density strictly between
    [SPRAY] and [BUBBLES], a position strictly inside the box and
    [ttl >= 0] it stays in place, after [k] frames ([1 <= k <= ttl]) its
    ttl is [ttl - k], and frame [ttl + 1] drops it. *)
Theorem foam_lifetime sp timeout fr d
  (h_positive : 0 < h sp) (spray_positive : 0 < SPRAY sp)
  (foam : SPRAY sp < density_at sp fr (dPosit d) 0 < BUBBLES sp)
  (still : forall pj, In pj (getSurroundingBuckets fr (dPosit d)) ->
                      p_vel pj = V3 0 0 0)
  (inside : interior sp (dPosit d))
  (alive : (0 <= dTTL d)%Z) :
  (forall k, (1 <= k)%nat -> (Z.of_nat k <= dTTL d)%Z ->
     Nat.iter k (survivors sp timeout fr) [d] =
     [mkDiffuse (dPosit d) (V3 0 0 0) (dIds d) (dTTL d - Z.of_nat k)
                (density_at sp fr (dPosit d) 0)]) /\
  Nat.iter (Z.to_nat (dTTL d) + 1) (survivors sp timeout fr) [d] = [].
Proof.
  assert (G : forall k d0,
            SPRAY sp < density_at sp fr (dPosit d0) 0 < BUBBLES sp ->
            (forall pj, In pj (getSurroundingBuckets fr (dPosit d0)) ->
                        p_vel pj = V3 0 0 0) ->
            interior sp (dPosit d0) ->
            (Z.of_nat (S k) <= dTTL d0)%Z ->
            Nat.iter (S k) (survivors sp timeout fr) [d0] =
            [mkDiffuse (dPosit d0) (V3 0 0 0) (dIds d0)
                       (dTTL d0 - Z.of_nat (S k))
                       (density_at sp fr (dPosit d0) 0)]).
  { induction k as [|k IH]; intros d0 Hf Hs Hi Ht.
    - cbn [Nat.iter nat_rect].
      rewrite (still_foam_frame sp timeout fr d0) by assumption.
      rewrite (proj2 (Z.leb_le _ _)) by lia. reflexivity.
    - rewrite Nat.iter_succ_r.
      rewrite (still_foam_frame sp timeout fr d0) by assumption.
      rewrite (proj2 (Z.leb_le _ _)) by lia.
      rewrite IH; cbn [dPosit dTTL dIds]; try assumption; [|lia].
      do 2 f_equal. lia. }
  split.
  - intros [|k] Hk Ht; [lia|]. now apply G.
  - replace (Z.to_nat (dTTL d) + 1)%nat with (S (Z.to_nat (dTTL d))) by lia.
    destruct (Z.to_nat (dTTL d)) as [|n] eqn:N.
    + cbn [Nat.iter nat_rect].
      rewrite (still_foam_frame sp timeout fr d) by assumption.
      rewrite (proj2 (Z.leb_gt _ _)) by lia. reflexivity.
    + rewrite Nat.iter_succ, G by (try assumption; lia).
      rewrite still_foam_frame; cbn [dPosit dTTL]; try assumption.
      rewrite (proj2 (Z.leb_gt _ _)) by lia. reflexivity.
Qed.

Lemma foam_lifetime_witness :
  Nat.iter 4 (survivors (demo_params 1 1 0 5 [mkTimeOut 0 1]) (mkTimeOut 0 1)
                        six_fluid)
           [mkDiffuse (V3 1 1 1) (V3 0 0 0) 7%Z 3%Z 0] = [].
Proof.
  refine (proj2 (foam_lifetime (demo_params 1 1 0 5 [mkTimeOut 0 1])
                   (mkTimeOut 0 1) six_fluid
                   (mkDiffuse (V3 1 1 1) (V3 0 0 0) 7%Z 3%Z 0) _ _ _ _ _ _)).
  - simpl. lra.
  - simpl. lra.
  - cbn [dPosit]. rewrite six_fluid_density. simpl. lra.
  - intros pj H. simpl in H.
    decompose [or] H; subst; try reflexivity; contradiction.
  - unfold interior. simpl. lra.
  - simpl. lia.
Defined.

(** ** The basis of the spawner *)

(** In each of the three branches [e1] is the direction of a point whose
    product with the velocity is [pos . vel], and which has a coordinate
    equal to 1. *)
Lemma spawn_e1_raw pos vel :
  vel <> V3 0 0 0 ->
  exists raw,
    spawn_e1 pos vel = ops.normalize raw /\
    ops.dotProduct raw vel = ops.dotProduct pos vel /\
    1 <= at0 raw * at0 raw + at1 raw * at1 raw + at2 raw * at2 raw.
Proof.
  intros Hv. unfold spawn_e1.
  destruct (dne (at0 vel) 0) eqn:X; [|destruct (dne (at1 vel) 0) eqn:Y].
  - apply dne_true in X. eexists. split; [reflexivity|]. split.
    + unfold ops.dotProduct, solveEq. simpl. field. exact X.
    + cbn [at0 at1 at2].
      pose proof (Rle_0_sqr (solveEq (at2 pos) (at1 pos) (at0 pos)
                               (at2 vel) (at1 vel) (at0 vel) 0 1)) as S.
      unfold Rsqr in S. lra.
  - apply dne_true in Y. eexists. split; [reflexivity|]. split.
    + unfold ops.dotProduct, solveEq. simpl. field. exact Y.
    + cbn [at0 at1 at2].
      pose proof (Rle_0_sqr (solveEq (at0 pos) (at2 pos) (at1 pos)
                               (at0 vel) (at2 vel) (at1 vel) 1 0)) as S.
      unfold Rsqr in S. lra.
  - apply dne_false in X. apply dne_false in Y.
    assert (Z0 : at2 vel <> 0).
    { intros Z0. apply Hv. destruct vel as [vx vy vz]. simpl in *.
      now subst. }
    eexists. split; [reflexivity|]. split.
    + unfold ops.dotProduct, solveEq. simpl. field. exact Z0.
    + cbn [at0 at1 at2].
      pose proof (Rle_0_sqr (solveEq (at0 pos) (at1 pos) (at2 pos)
                               (at0 vel) (at1 vel) (at2 vel) 1 0)) as S.
      unfold Rsqr in S. lra.
Qed.

(** X20.  The first basis vector of the spawner, for a source particle
    with a velocity other than the zero vector: [e1] has length 1, its
    product with the velocity is [pos . vel] divided by a length of at
    least 1, and it is perpendicular to the velocity exactly when the
    position of the source particle is. *)
Theorem spawn_e1_unit_and_tilt pos vel (moving : vel <> V3 0 0 0) :
  ops.dotProduct (spawn_e1 pos vel) (spawn_e1 pos vel) = 1 /\
  (exists m, 1 <= m /\
             ops.dotProduct (spawn_e1 pos vel) vel
             = ops.dotProduct pos vel / m) /\
  (ops.dotProduct (spawn_e1 pos vel) vel = 0 <-> ops.dotProduct pos vel = 0).
Proof.
  destruct (spawn_e1_raw pos vel moving) as (raw & E & D & L).
  assert (P : 0 < at0 raw * at0 raw + at1 raw * at1 raw + at2 raw * at2 raw)
    by lra.
  pose proof (magnitude_positive raw P) as Hm.
  assert (M1 : 1 <= ops.magnitude raw).
  { pose proof (magnitude_sqr raw) as Hs.
    destruct (Rle_lt_dec 1 (ops.magnitude raw)) as [|Hlt]; [assumption|].
    assert (ops.magnitude raw * ops.magnitude raw < 1 * 1)
      by (apply Rmult_le_0_lt_compat; lra).
    lra. }
  rewrite E. split; [now apply normalize_unit|].
  rewrite dot_normalize, D. split.
  - exists (ops.magnitude raw). now split.
  - split; intros H.
    + apply (Rmult_eq_compat_r (ops.magnitude raw)) in H.
      unfold Rdiv in H. rewrite Rmult_assoc, Rinv_l, Rmult_1_r, Rmult_0_l in H
        by lra.
      exact H.
    + rewrite H. unfold Rdiv. apply Rmult_0_l.
Qed.

Lemma spawn_e1_unit_and_tilt_witness :
  ops.dotProduct (spawn_e1 (V3 1 0 0) (V3 1 0 0)) (spawn_e1 (V3 1 0 0) (V3 1 0 0))
  = 1.
Proof.
  refine (proj1 (spawn_e1_unit_and_tilt (V3 1 0 0) (V3 1 0 0) _)).
  intros H. injection H; intros; lra.
Defined.

(** X21.  The second basis vector of the spawner is the normalized vector
    product of [e1] and the velocity with the sign of its middle
    component reversed.  When that vector is not the zero vector, [e2]
    has length 1, and its products with the velocity and with [e1] are
    [2 vel_y c] and [2 e1_y c] over its length, with
    [c = e1_x vel_z - vel_x e1_z]. *)
Theorem spawn_e2_products e1 vel :
  let cross := V3 (at1 e1 * at2 vel - at2 e1 * at1 vel)
                  (at2 e1 * at0 vel - at0 e1 * at2 vel)
                  (at0 e1 * at1 vel - at1 e1 * at0 vel) in
  let raw := V3 (at0 cross) (- at1 cross) (at2 cross) in
  let c := at0 e1 * at2 vel - at0 vel * at2 e1 in
  spawn_e2 e1 vel = ops.normalize raw /\
  ops.dotProduct (spawn_e2 e1 vel) vel
    = 2 * at1 vel * c / ops.magnitude raw /\
  ops.dotProduct (spawn_e2 e1 vel) e1
    = 2 * at1 e1 * c / ops.magnitude raw /\
  (raw <> V3 0 0 0 ->
   ops.dotProduct (spawn_e2 e1 vel) (spawn_e2 e1 vel) = 1).
Proof.
  cbv zeta. cbn [at0 at1 at2].
  assert (E : spawn_e2 e1 vel =
              ops.normalize
                (V3 (at1 e1 * at2 vel - at2 e1 * at1 vel)
                    (- (at2 e1 * at0 vel - at0 e1 * at2 vel))
                    (at0 e1 * at1 vel - at1 e1 * at0 vel))).
  { unfold spawn_e2. f_equal. f_equal; ring. }
  rewrite E. split; [reflexivity|].
  split; [|split].
  - rewrite dot_normalize. f_equal. unfold ops.dotProduct. simpl. ring.
  - rewrite dot_normalize. f_equal. unfold ops.dotProduct. simpl. ring.
  - intros N. now apply normalize_unit_nonzero.
Qed.

(** ** The frame loop *)

Lemma frame_outputs sp k fr st st' :
  frame sp k fr st = Some st' ->
  tstep_idx st' = tstep_idx st /\
  map o_nstep (outputs st') = map o_nstep (outputs st) ++ [k].
Proof.
  unfold frame. destruct (newborns _ _ _ _) as [[nb id']|]; [|discriminate].
  intros H. injection H as <-. cbn [tstep_idx outputs].
  split; [reflexivity|]. now rewrite map_app.
Qed.

Lemma run_loop_outputs sp loadFile count :
  forall k st st',
    run_loop sp loadFile count k st = Some st' ->
    exists m,
      (m <= count)%nat /\
      map o_nstep (outputs st')
      = map o_nstep (outputs st)
        ++ map (fun j => (k + Z.of_nat j)%Z) (seq 0 m) /\
      (forall j, (j < m)%nat -> loadFile (k + Z.of_nat j)%Z <> None) /\
      ((m < count)%nat -> loadFile (k + Z.of_nat m)%Z = None).
Proof.
  induction count as [|count IH]; intros k st st' H.
  - injection H as <-. exists 0%nat. cbn [seq map]. rewrite app_nil_r.
    split; [lia|]. split; [reflexivity|]. split; [intros j Hj; lia | lia].
  - cbn [run_loop] in H. destruct (loadFile k) as [fr|] eqn:L.
    + destruct (frame sp k fr _) as [st2|] eqn:F; [|discriminate].
      apply frame_outputs in F as [_ F]. cbn [outputs] in F.
      apply IH in H as (m & Hm & O & A & B).
      exists (S m). split; [lia|]. split; [|split].
      * rewrite O, F, <- app_assoc. f_equal.
        cbn [seq map app]. rewrite Z.add_0_r. f_equal.
        rewrite <- seq_shift, map_map. apply map_ext. intros j. lia.
      * intros [|j] Hj.
        -- rewrite Z.add_0_r, L. discriminate.
        -- replace (k + Z.of_nat (S j))%Z with (k + 1 + Z.of_nat j)%Z by lia.
           apply A. lia.
      * intros Hlt.
        replace (k + Z.of_nat (S m))%Z with (k + 1 + Z.of_nat m)%Z by lia.
        apply B. lia.
    + injection H as <-. exists 0%nat. cbn [seq map outputs].
      rewrite app_nil_r, Z.add_0_r.
      split; [lia|]. split; [reflexivity|].
      split; [intros j Hj; lia | intros _; exact L].
Qed.

Lemma run_loop_index_bound sp loadFile count :
  forall k st st',
    run_loop sp loadFile count k st = Some st' ->
    (tstep_idx st < ntimesteps sp)%nat ->
    (tstep_idx st' < ntimesteps sp)%nat.
Proof.
  assert (N : forall idx k, (idx < ntimesteps sp)%nat ->
                            (next_tstep_idx sp idx k < ntimesteps sp)%nat).
  { intros idx k Hi. unfold next_tstep_idx.
    destruct (idx + 1 <? ntimesteps sp)%nat eqn:E; cbn [andb]; [|exact Hi].
    apply Nat.ltb_lt in E. destruct (_ >? _)%Z; lia. }
  induction count as [|count IH]; intros k st st' H Hi.
  - now injection H as <-.
  - cbn [run_loop] in H. destruct (loadFile k) as [fr|].
    + destruct (frame sp k fr _) as [st2|] eqn:F; [|discriminate].
      apply frame_outputs in F as [F _]. cbn [tstep_idx] in F.
      apply IH in H; [exact H|]. rewrite F. now apply N.
    + injection H as <-. cbn [tstep_idx]. now apply N.
Qed.

(** The run of [demo_params] on three snapshots without fluid
    particles. *)
Lemma three_empty_frames :
  runSimulation (demo_params 1 1 0 6 [mkTimeOut 0 1])
                (fun k => if (k <? 3)%Z then Some empty_frame else None)
  = Some (mkState 0 [] 0
            [mkOutput 0 (Some []) (Some []);
             mkOutput 1 (Some []) (Some []);
             mkOutput 2 (Some []) (Some [])]).
Proof. lazy. reflexivity. Qed.

Lemma three_empty_frames_loop :
  run_loop (demo_params 1 1 0 6 [mkTimeOut 0 1])
           (fun k => if (k <? 3)%Z then Some empty_frame else None)
           11 (nstart (demo_params 1 1 0 6 [mkTimeOut 0 1])) initial
  = Some (mkState 0 [] 0
            [mkOutput 0 (Some []) (Some []);
             mkOutput 1 (Some []) (Some []);
             mkOutput 2 (Some []) (Some [])]).
Proof. lazy. reflexivity. Qed.

(** X22.  A run that ends with a result has written one output for each
    frame of a first stretch [nstart, nstart + 1, ...] of the frames
    [nstart .. nend], in that order: every snapshot of the stretch could
    be loaded, and the stretch ends before [nend] only at a snapshot that
    could not. *)
Theorem frames_until_first_missing sp loadFile st
  (run : runSimulation sp loadFile = Some st) :
  exists m,
    (m <= Z.to_nat (nend sp - nstart sp + 1))%nat /\
    map o_nstep (outputs st)
    = map (fun j => (nstart sp + Z.of_nat j)%Z) (seq 0 m) /\
    (forall j, (j < m)%nat -> loadFile (nstart sp + Z.of_nat j)%Z <> None) /\
    ((m < Z.to_nat (nend sp - nstart sp + 1))%nat ->
     loadFile (nstart sp + Z.of_nat m)%Z = None).
Proof.
  unfold runSimulation in run.
  apply run_loop_outputs in run as (m & Hm & O & A & B).
  exists m. now repeat split.
Qed.

Lemma frames_until_first_missing_witness :
  exists m,
    map o_nstep
        (outputs (mkState 0 [] 0
                    [mkOutput 0 (Some []) (Some []);
                     mkOutput 1 (Some []) (Some []);
                     mkOutput 2 (Some []) (Some [])]))
    = map (fun j => (nstart (demo_params 1 1 0 6 [mkTimeOut 0 1])
                     + Z.of_nat j)%Z) (seq 0 m).
Proof.
  destruct (frames_until_first_missing _ _ _ three_empty_frames)
    as (m & _ & O & _).
  exists m. exact O.
Defined.

(** X23.  With a schedule that is not empty the index [tstep_idx] is
    inside the schedule after any number of frames of the run, so that
    the time step of the next frame is read from an entry of
    [timesteps]. *)
Theorem tstep_idx_in_bounds sp loadFile count st
  (nonempty : timesteps sp <> [])
  (run : run_loop sp loadFile count (nstart sp) initial = Some st) :
  (tstep_idx st < ntimesteps sp)%nat /\
  In (nth (tstep_idx st) (timesteps sp) TimeOut0) (timesteps sp) /\
  forall k, In (nth (next_tstep_idx sp (tstep_idx st) k) (timesteps sp)
                    TimeOut0) (timesteps sp).
Proof.
  assert (B : (tstep_idx st < ntimesteps sp)%nat).
  { apply (run_loop_index_bound _ _ _ _ _ _ run).
    cbn [tstep_idx initial]. unfold ntimesteps.
    destruct (timesteps sp); [contradiction | simpl; lia]. }
  split; [exact B|]. split; [now apply nth_In|].
  intros k. apply nth_In. fold (ntimesteps sp).
  unfold next_tstep_idx.
  destruct (tstep_idx st + 1 <? ntimesteps sp)%nat eqn:E; cbn [andb];
    [|exact B].
  apply Nat.ltb_lt in E. destruct (_ >? _)%Z; lia.
Qed.

Lemma tstep_idx_in_bounds_witness :
  (tstep_idx (mkState 0 [] 0
                [mkOutput 0 (Some []) (Some []);
                 mkOutput 1 (Some []) (Some []);
                 mkOutput 2 (Some []) (Some [])])
   < ntimesteps (demo_params 1 1 0 6 [mkTimeOut 0 1]))%nat.
Proof.
  refine (proj1 (tstep_idx_in_bounds
                   (demo_params 1 1 0 6 [mkTimeOut 0 1])
                   (fun k => if (k <? 3)%Z then Some empty_frame else None)
                   11 _ _ three_empty_frames_loop)).
  discriminate.
Defined.

(** ** The records of the newborns *)

Lemma spawn_list_in mk count x :
  forall idif d, In x (spawn_list mk count idif d) ->
                 exists i id, x = mk i id.
Proof.
  induction count as [|c IH]; intros idif d H; [contradiction|].
  cbn [spawn_list] in H. destruct H as [<- | H]; [now eexists _, _|].
  now apply IH in H.
Qed.

(** Every record that the spawner writes comes from a source particle
    with a count of 1 or more. *)
Lemma spawned_in sp timeout rand nd ps x :
  forall idif d,
    In x (spawned sp timeout rand nd ps idif d) ->
    exists pi i id,
      In pi ps /\
      (1 <= nth (Z.to_nat (p_id pi)) nd 0)%Z /\
      x = spawn_one sp timeout rand (p_pos pi) (p_vel pi)
            (spawn_e1 (p_pos pi) (p_vel pi))
            (spawn_e2 (spawn_e1 (p_pos pi) (p_vel pi)) (p_vel pi))
            (ops.normalize
               (V3 (at0 (p_vel pi)) (at1 (p_vel pi)) (at2 (p_vel pi))))
            (nth (Z.to_nat (p_id pi)) nd 0%Z) i id.
Proof.
  induction ps as [|pi ps IH]; intros idif d H; [contradiction|].
  cbn [spawned] in H. cbv zeta in H. apply in_app_or in H as [H | H].
  - assert (N : (1 <= nth (Z.to_nat (p_id pi)) nd 0)%Z).
    { destruct (Z.to_nat (nth (Z.to_nat (p_id pi)) nd 0%Z)) eqn:E;
        [contradiction | lia]. }
    apply spawn_list_in in H as (i & id & ->).
    exists pi, i, id. split; [now left|]. now split.
  - apply IH in H as (pj & i & id & Hin & N & ->).
    exists pj, i, id. split; [now right|]. now split.
Qed.

(** In a well-formed snapshot with non-negative counts the newborn arrays
    hold the records of the spawner, classified, and nothing else. *)
Lemma newborns_full sp timeout fr difId0 newborn difId' :
  well_formed fr ->
  (forall i, (i < npoints fr)%nat ->
             (0 <= nth i (ndiffuse_of sp timeout fr) 0)%Z) ->
  newborns sp timeout fr difId0 = Some (newborn, difId') ->
  newborn = map (classify_newborn sp fr)
                (spawned sp timeout (tempRand fr) (ndiffuse_of sp timeout fr)
                         (concat (buckets fr)) 0 difId0).
Proof.
  intros wf Hpos H.
  pose proof (spawned_total sp timeout (tempRand fr)
                (ndiffuse_of sp timeout fr) fr 0 difId0 wf
                (ndiffuse_of_length sp timeout fr)) as T.
  rewrite ndiffuse_of_length in T. specialize (T Hpos).
  rewrite newborns_spawned in H. cbv zeta in H.
  destruct (npdiffuse_of _ <? 0)%Z; [discriminate|].
  rewrite overlay_full in H by (rewrite repeat_length; lia).
  now injection H as <- _.
Qed.

(** X24.  The newborns of a frame on a well-formed snapshot, when the
    iterations of the spawner loop do not run concurrently (one thread, or
    a single bucket), when every count is a value of an [int] that is
    not negative and every product [count * LIFEFIME] lies between
    [-2^31 - 1] and [2^31]: each newborn comes from a fluid particle whose
    count [n] is 1 or more; its ttl is [n * LIFEFIME] truncated, a value
    of an [int], which is not negative when [LIFEFIME] is not and is the
    product itself when [LIFEFIME] is a whole number; and its density is
    the number of fluid particles of the surrounding buckets within [h] of
    its position. *)
Theorem newborn_records sp timeout fr difId0 newborn difId' d
  (wf : well_formed fr)
  (counts : forall i, (i < npoints fr)%nat ->
              (0 <= nth i (ndiffuse_of sp timeout fr) 0 < 2147483648)%Z)
  (ttls : forall i, (i < npoints fr)%nat ->
            -2147483649
            < IZR (nth i (ndiffuse_of sp timeout fr) 0%Z) * LIFEFIME sp
            < 2147483648)
  (born : newborns sp timeout fr difId0 = Some (newborn, difId'))
  (member : In d newborn) :
  exists pi,
    In pi (concat (buckets fr)) /\
    let n := nth (Z.to_nat (p_id pi)) (ndiffuse_of sp timeout fr) 0%Z in
    (1 <= n)%Z /\
    dTTL d = trunc_int (IZR n * LIFEFIME sp) /\
    fits_int (dTTL d) /\
    (0 <= LIFEFIME sp -> (0 <= dTTL d)%Z) /\
    (forall L, LIFEFIME sp = IZR L -> dTTL d = (n * L)%Z) /\
    dDensity d =
      INR (length
             (filter
                (fun pj =>
                   dle (ops.magnitude (ops.substract (dPosit d) (p_pos pj)))
                       (h sp))
                (getSurroundingBuckets fr (dPosit d)))).
Proof.
  assert (counts0 : forall i, (i < npoints fr)%nat ->
                      (0 <= nth i (ndiffuse_of sp timeout fr) 0)%Z)
    by (intros i Hi; apply counts; exact Hi).
  rewrite (newborns_full sp timeout fr difId0 newborn difId' wf counts0 born)
    in member.
  apply in_map_iff in member as (x & <- & Hx).
  apply spawned_in in Hx as (pi & i & id & Hin & N & ->).
  destruct (well_formed_ids fr wf) as [_ Hr].
  pose proof (ttls _ (Hr pi Hin)) as Hfit.
  exists pi. split; [exact Hin|]. cbv zeta.
  split; [exact N|].
  unfold classify_newborn, spawn_one. cbv zeta.
  cbn [dTTL dDensity dPosit].
  split; [reflexivity|]. split; [now apply trunc_int_fits|]. split; [|split].
  - intros HL. apply trunc_int_nonneg. apply Rmult_le_pos; [|exact HL].
    apply IZR_le. lia.
  - intros L ->. rewrite <- mult_IZR. apply trunc_int_IZR.
  - rewrite density_at_count. apply Rplus_0_l.
Qed.

(** * Two fluid particles within [h]: snapshots that the passes produce *)

(** ** The snapshot and its counts *)

Lemma sqrt_of_square m x : 0 <= m -> x = m * m -> sqrt x = m.
Proof. intros Hm ->. now apply sqrt_square. Qed.

Lemma pair_cells_well_formed : cells_well_formed 2 pair_cells.
Proof. unfold cells_well_formed. simpl. apply Permutation_refl. Qed.

Lemma pair_frame_well_formed sp rand : well_formed (pair_frame sp rand).
Proof. unfold well_formed. simpl. apply Permutation_refl. Qed.

Lemma vdiff2p_mover :
  vdiff2p (p_vel mover) (p_vel sitter) (p_pos mover) (p_pos sitter) 1 = 2.5.
Proof.
  unfold vdiff2p, W, ops.distanceVector, ops.normalize, ops.dotProduct,
    ops.magnitude, ops.substract. simpl.
  rewrite (sqrt_of_square 5) by lra.
  rewrite (sqrt_of_square 0.5) by lra.
  decide_cmp. lra.
Qed.

Lemma vdiff2p_sitter :
  vdiff2p (p_vel sitter) (p_vel mover) (p_pos sitter) (p_pos mover) 1 = 2.5.
Proof.
  unfold vdiff2p, W, ops.distanceVector, ops.normalize, ops.dotProduct,
    ops.magnitude, ops.substract. simpl.
  rewrite (sqrt_of_square 5) by lra.
  rewrite (sqrt_of_square 0.5) by lra.
  decide_cmp. lra.
Qed.

(** Stage 1 on the two particles: no divisor is 0 (the velocities differ
    by 5, the positions by 1/2), and each particle gets the trapped air
    [5 * (1 - 0) * (1 - 1/2)]. *)
Lemma pair_Ita sp rand :
  h sp = 1 -> Ita_acc (pair_frame sp rand) = [2.5; 2.5].
Proof.
  intros Hh. unfold pair_frame, snapshot. cbn [Ita_acc].
  rewrite pass1_arrays. cbn [fst].
  unfold pair_cells, jobs. cbn [flat_map map c_bucket c_sbuckets app fold_left].
  unfold local_step. cbn [fst snd concat app].
  unfold Ita_sum. rewrite Hh.
  cbn [fold_left].
  change (p_id mover =? p_id mover)%Z with true.
  change (p_id mover =? p_id sitter)%Z with false.
  change (p_id sitter =? p_id mover)%Z with false.
  change (p_id sitter =? p_id sitter)%Z with true.
  cbv iota. rewrite vdiff2p_mover, vdiff2p_sitter.
  change (Z.to_nat (p_id mover)) with 0%nat.
  change (Z.to_nat (p_id sitter)) with 1%nat.
  cbn [repeat write nth]. f_equal; [lra| f_equal; lra].
Qed.

Lemma pair_energy sp rand :
  mass sp = 1 -> energy_acc sp (pair_frame sp rand) = [12.5; 0].
Proof.
  intros Hm. unfold energy_acc, pair_frame, snapshot, pair_cells.
  cbn [buckets npoints map c_bucket concat app fold_left repeat].
  rewrite Hm.
  change (Z.to_nat (p_id mover)) with 0%nat.
  change (Z.to_nat (p_id sitter)) with 1%nat.
  cbn [write mover sitter p_vel at0 at1 at2]. f_equal; [lra| f_equal; lra].
Qed.

Lemma crests2p_sideways xi xj vi ni nj h_ :
  ops.dotProduct (ops.normalize vi) (ops.normalize ni) < 0.6 ->
  crests2p xi xj vi ni nj h_ = 0.
Proof.
  intros H. unfold crests2p. cbv zeta. unfold dge.
  rewrite (proj2 (dle_false 0.6 _)) by lra.
  now rewrite andb_false_r.
Qed.

Lemma pair_gradient sp cf :
  pass2 sp 2 cf pair_cells
  = [gradient_sum sp cf mover [mover; sitter] vec0;
     gradient_sum sp cf sitter [mover; sitter] vec0].
Proof.
  rewrite pass2_array.
  unfold pair_cells, jobs.
  cbn [flat_map map c_bucket c_sbuckets app fold_left].
  unfold local_step. cbn [fst snd concat app].
  change (Z.to_nat (p_id mover)) with 0%nat.
  change (Z.to_nat (p_id sitter)) with 1%nat.
  cbn [repeat write nth]. reflexivity.
Qed.

(** Stage 3 on the two particles: the normal of the moving particle
    points along z, across its velocity, and the particle at rest has no
    direction of motion, so no pair passes the test of line 152 and both
    wave crests stay 0. *)
Lemma pair_waveCrest sp rand : waveCrest_acc (pair_frame sp rand) = [0; 0].
Proof.
  unfold pair_frame, snapshot. cbn [waveCrest_acc].
  rewrite pass3_array, pair_gradient.
  unfold pair_cells, jobs.
  cbn [flat_map map c_bucket c_sbuckets app fold_left].
  unfold local_step. cbn [fst snd concat app].
  change (Z.to_nat (p_id mover)) with 0%nat.
  change (Z.to_nat (p_id sitter)) with 1%nat.
  cbn [repeat nth].
  assert (M : forall g,
             waveCrest_sum sp
               [gradient_sum sp g mover [mover; sitter] vec0;
                gradient_sum sp g sitter [mover; sitter] vec0]
               mover [mover; sitter] 0 = 0).
  { intros g. unfold waveCrest_sum. cbn [fold_left].
    rewrite crests2p_self.
    rewrite crests2p_sideways; [lra|].
    change (Z.to_nat (p_id mover)) with 0%nat. cbn [nth].
    unfold gradient_sum, gradient2p, vadd, vec0, ops.dotProduct,
      ops.normalize. cbn [fold_left at0 at1 at2 mover sitter p_pos p_vel].
    unfold Rdiv. 
    match goal with |- ?x < 0.6 => replace x with 0 by ring end. lra. }
  assert (S : forall g,
             waveCrest_sum sp
               [gradient_sum sp g mover [mover; sitter] vec0;
                gradient_sum sp g sitter [mover; sitter] vec0]
               sitter [mover; sitter] 0 = 0).
  { intros g. unfold waveCrest_sum. cbn [fold_left].
    rewrite crests2p_self.
    rewrite crests2p_sideways; [lra|].
    unfold ops.dotProduct, ops.normalize.
    cbn [at0 at1 at2 sitter p_vel]. unfold Rdiv.
    match goal with |- ?x < 0.6 => replace x with 0 by ring end. lra. }
  rewrite M, S.
  destruct (dlt _ SURFACE), (dlt _ SURFACE); reflexivity.
Qed.

(** The count of the moving particle is [floor (KTA dt)] (energy and
    trapped air clamp to 1, the wave crest is 0) and that of the particle
    at rest is [floor (phi 0 MINK 1 * KTA dt)]. *)
Lemma pair_counts kta kwc mink spray ts rand n dt :
  mink < 1 ->
  ndiffuse_of (demo_params kta kwc mink spray ts) (mkTimeOut n dt)
              (pair_frame (demo_params kta kwc mink spray ts) rand)
  = [floor_int (kta * dt); floor_int (phi 0 mink 1 * kta * dt)].
Proof.
  intros Hk. unfold ndiffuse_of, energy_of, Ita_of, waveCrest_of.
  change (npoints (pair_frame (demo_params kta kwc mink spray ts) rand))
    with 2%nat.
  cbn [seq map]. rewrite !nth_clamp_array by lia.
  rewrite pair_Ita, pair_energy, pair_waveCrest by reflexivity.
  cbn [nth MINTA MAXTA MINK MAXK MINWC MAXWC KTA KWC tout demo_params].
  rewrite (phi_above 0 1), (phi_above mink 1), (phi_below 0 1 ltac:(lra) 0)
    by lra.
  f_equal; [|f_equal]; f_equal; ring.
Qed.








(** ** Stage 5: the counts and the newborn arrays *)

(** C2, refuted as stated: with the birth-rate coefficient [KTA = -1]
    (no parameter is validated) the snapshot of the two particles, in
    which the passes leave the trapped air 2.5, the wave crest 0 and the
    energy 12.5 at the moving one, gives it the count
    [floor (1 * (-1 * 1 + 0 * 0) * 1) = -1]: a
    negative count; the total is negative as well and the newborn arrays
    cannot be allocated. *)
Lemma negative_count :
  let sp := demo_params (-1) 0 0 6 [mkTimeOut 0 1] in
  let timeout := mkTimeOut 0 1 in
  let fr := pair_frame sp (fun _ => 0) in
  well_formed fr /\
  Ita_acc fr = [2.5; 2.5] /\
  waveCrest_acc fr = [0; 0] /\
  energy_acc sp fr = [12.5; 0] /\
  ndiffuse_of sp timeout fr = [(-1)%Z; 0%Z] /\
  ~ (0 <= nth 0 (ndiffuse_of sp timeout fr) 0)%Z /\
  newborns sp timeout fr 0 = None.
Proof.
  cbv zeta.
  assert (E : ndiffuse_of (demo_params (-1) 0 0 6 [mkTimeOut 0 1])
                (mkTimeOut 0 1)
                (pair_frame (demo_params (-1) 0 0 6 [mkTimeOut 0 1])
                            (fun _ => 0))
              = [(-1)%Z; 0%Z]).
  { rewrite pair_counts by lra. rewrite (phi_below 0 1) by lra.
    replace (-1 * 1) with (IZR (-1)) by lra.
    replace (0 * -1 * 1) with (IZR 0) by lra.
    now rewrite !floor_int_IZR. }
  split; [apply pair_frame_well_formed|].
  split; [now apply pair_Ita|]. split; [apply pair_waveCrest|].
  split; [now apply pair_energy|].
  split; [exact E|]. split.
  - rewrite E. simpl. lia.
  - unfold newborns. rewrite E. reflexivity.
Qed.

(** C2, amended.  When the coefficients [KTA], [KWC] and the time step
    [dt] are non-negative, the three clamp windows have [min < max] and
    [(KTA + KWC) dt] is below [2^31], then for every fluid particle [i]
    the count is the floor of
    [energy[i] * (KTA * Ita[i] + KWC * waveCrest[i]) * dt] on the clamped
    fields, with [dt] the [tout] of the frame; it is a value of an [int]
    and is not negative; the newborn arrays are allocated, and their
    length is the sum of the counts. *)
Theorem ndiffuse_counts sp timeout fr difId0
  (kta : 0 <= KTA sp) (kwc : 0 <= KWC sp) (dt : 0 <= tout timeout)
  (wta : MINTA sp < MAXTA sp) (wwc : MINWC sp < MAXWC sp)
  (wk : MINK sp < MAXK sp)
  (fits : (KTA sp + KWC sp) * tout timeout < 2147483648) :
  let ndiffuse := ndiffuse_of sp timeout fr in
  (forall i, (i < npoints fr)%nat ->
     nth i (energy_of sp fr) 0
       = phi (nth i (energy_acc sp fr) 0) (MINK sp) (MAXK sp) /\
     nth i (Ita_of sp fr) 0 = phi (nth i (Ita_acc fr) 0) (MINTA sp) (MAXTA sp) /\
     nth i (waveCrest_of sp fr) 0
       = phi (nth i (waveCrest_acc fr) 0) (MINWC sp) (MAXWC sp) /\
     nth i ndiffuse 0%Z =
       floor_int (nth i (energy_of sp fr) 0
                  * (KTA sp * nth i (Ita_of sp fr) 0
                     + KWC sp * nth i (waveCrest_of sp fr) 0)
                  * tout timeout) /\
     fits_int (nth i ndiffuse 0%Z) /\
     (0 <= nth i ndiffuse 0)%Z) /\
  exists newborn difId',
    newborns sp timeout fr difId0 = Some (newborn, difId') /\
    Z.of_nat (length newborn) = fold_right Z.add 0%Z ndiffuse.
Proof.
  cbv zeta.
  pose proof (ndiffuse_of_range sp timeout fr kta kwc dt wta wwc wk fits)
    as Hrange.
  split.
  - intros i Hi. unfold energy_of, Ita_of, waveCrest_of.
    rewrite !nth_clamp_array by exact Hi.
    split; [reflexivity|]. split; [reflexivity|]. split; [reflexivity|].
    split.
    + rewrite nth_ndiffuse_of by exact Hi.
      unfold energy_of, Ita_of, waveCrest_of.
      now rewrite !nth_clamp_array by exact Hi.
    + specialize (Hrange i Hi). unfold fits_int. lia.
  - assert (Hsum : (0 <= fold_right Z.add 0 (ndiffuse_of sp timeout fr))%Z).
    { apply sum_nonneg. rewrite ndiffuse_of_length.
      intros i Hi. now apply Hrange. }
    rewrite newborns_spawned. cbv zeta.
    rewrite npdiffuse_of_sum.
    rewrite (proj2 (Z.ltb_ge _ _) Hsum).
    eexists _, _. split; [reflexivity|].
    rewrite length_map, overlay_length, repeat_length. lia.
Qed.

Lemma ndiffuse_counts_witness :
  exists newborn difId',
    newborns (demo_params 2 0 0 6 [mkTimeOut 0 1]) (mkTimeOut 0 1)
             (pair_frame (demo_params 2 0 0 6 [mkTimeOut 0 1]) (fun _ => 0))
             0 = Some (newborn, difId') /\
    Z.of_nat (length newborn) =
      fold_right Z.add 0%Z
        (ndiffuse_of (demo_params 2 0 0 6 [mkTimeOut 0 1]) (mkTimeOut 0 1)
           (pair_frame (demo_params 2 0 0 6 [mkTimeOut 0 1]) (fun _ => 0))).
Proof.
  refine (proj2 (ndiffuse_counts (demo_params 2 0 0 6 [mkTimeOut 0 1])
                   (mkTimeOut 0 1)
                   (pair_frame (demo_params 2 0 0 6 [mkTimeOut 0 1])
                               (fun _ => 0))
                   0 _ _ _ _ _ _ _)); simpl; lra.
Defined.

(** ** Zero velocity and zero denominator *)




(** ** A newborn outside the box *)





(** ** Ids beyond [2^31] *)

(** C9.  The program on a run of two frames with the snapshot of the two
    particles, [KTA = 2] and the schedule [(0, 1073741823.5); (0, 1)]:
    frame 0 runs with the first time step and spawns
    [floor (2 * 1073741823.5) = 2147483647] diffuse particles, with the
    ids [0 .. 2147483646], so the counter [difId] is 2147483647 after it;
    frame 1 runs with the second time step and spawns two, which get the
    ids 2147483647 and -2147483648; the second id is smaller than every id
    assigned before. *)
Theorem ids_wrap_after_2_31 :
  let sp := demo_params 2 0 0 6 [mkTimeOut 0 1073741823.5; mkTimeOut 0 1] in
  let tA := mkTimeOut 0 1073741823.5 in
  let tB := mkTimeOut 0 1 in
  let fr := pair_frame sp (fun _ => 0) in
  Ita_acc fr = [2.5; 2.5] /\
  waveCrest_acc fr = [0; 0] /\
  energy_acc sp fr = [12.5; 0] /\
  ndiffuse_of sp tA fr = [2147483647%Z; 0%Z] /\
  ndiffuse_of sp tB fr = [2%Z; 0%Z] /\
  nth (next_tstep_idx sp 0 0) (timesteps sp) TimeOut0 = tA /\
  nth (next_tstep_idx sp 0 1) (timesteps sp) TimeOut0 = tB /\
  exists stA newbornB difIdB,
    frame sp 0 fr initial = Some stA /\
    difId stA = 2147483647%Z /\
    map dIds (ppool stA) =
      map (fun k => Z.of_nat k) (seq 0 (Z.to_nat 2147483647)) /\
    newborns sp tB fr (difId stA) = Some (newbornB, difIdB) /\
    map dIds newbornB = [2147483647%Z; (-2147483648)%Z].
Proof.
  cbv zeta.
  set (sp := demo_params 2 0 0 6 [mkTimeOut 0 1073741823.5; mkTimeOut 0 1]).
  set (tA := mkTimeOut 0 1073741823.5).
  set (tB := mkTimeOut 0 1).
  set (fr := pair_frame sp (fun _ => 0)).
  assert (NA : ndiffuse_of sp tA fr = [2147483647%Z; 0%Z]).
  { unfold sp, tA, fr. rewrite pair_counts by lra.
    rewrite (phi_below 0 1) by lra.
    replace (2 * 1073741823.5) with (IZR 2147483647) by lra.
    replace (0 * 2 * 1073741823.5) with (IZR 0) by lra.
    now rewrite !floor_int_IZR. }
  assert (NB : ndiffuse_of sp tB fr = [2%Z; 0%Z]).
  { unfold sp, tB, fr. rewrite pair_counts by lra.
    rewrite (phi_below 0 1) by lra.
    replace (2 * 1) with (IZR 2) by lra.
    replace (0 * 2 * 1) with (IZR 0) by lra.
    now rewrite !floor_int_IZR. }
  split; [now apply pair_Ita|]. split; [apply pair_waveCrest|].
  split; [now apply pair_energy|].
  split; [exact NA|]. split; [exact NB|].
  split; [reflexivity|]. split; [reflexivity|].
  (* the first frame *)
  pose proof (newborns_spawned sp tA fr 0) as EA. cbv zeta in EA.
  rewrite NA in EA.
  change (npdiffuse_of [2147483647%Z; 0%Z]) with 2147483647%Z in EA.
  change (2147483647 <? 0)%Z with false in EA. cbv iota in EA.
  set (newA := spawned sp tA (tempRand fr) [2147483647%Z; 0%Z]
                       (concat (buckets fr)) 0 0) in EA.
  assert (TA : Z.of_nat (length newA) = 2147483647%Z).
  { unfold newA.
    rewrite (spawned_total sp tA (tempRand fr) [2147483647%Z; 0%Z] fr 0 0).
    - reflexivity.
    - apply pair_frame_well_formed.
    - reflexivity.
    - intros [|[|i]] Hi; cbn [length] in Hi; cbn [nth]; lia. }
  assert (LA : length newA = Z.to_nat 2147483647) by lia.
  assert (FA : exists stA,
             frame sp 0 fr initial = Some stA /\
             difId stA = 2147483647%Z /\
             map dIds (ppool stA) = map dIds newA).
  { unfold frame.
    change (nth (tstep_idx initial) (timesteps sp) TimeOut0) with tA.
    change (difId initial) with 0%Z. rewrite EA, NA.
    eexists. split; [reflexivity|]. cbn [difId ppool].
    split; [lia|].
    rewrite overlay_full by (rewrite repeat_length; exact LA).
    rewrite append_new_app by (rewrite length_map; exact TA).
    change (survivors sp tA fr (ppool initial)) with (@nil diffuse).
    rewrite app_nil_l. apply classify_newborn_ids. }
  destruct FA as (stA & FA & DA & PA).
  exists stA. eexists _, _. split; [exact FA|].
  split; [exact DA|]. split.
  { rewrite PA. unfold newA.
    rewrite spawned_ids_below_wrap by (fold newA; lia).
    fold newA. rewrite LA.
    apply map_ext. intros k. lia. }
  rewrite DA.
  (* the second frame *)
  rewrite newborns_spawned. cbv zeta. rewrite NB.
  change (npdiffuse_of [2%Z; 0%Z] <? 0)%Z with false. cbv iota.
  split; [reflexivity|].
  rewrite classify_newborn_ids.
  set (newB := spawned sp tB (tempRand fr) [2%Z; 0%Z] (concat (buckets fr))
                       0 2147483647).
  assert (LB : length newB = 2%nat).
  { unfold newB. rewrite spawned_length. reflexivity. }
  rewrite overlay_full by (rewrite LB; reflexivity).
  unfold newB. rewrite spawned_ids. fold newB. rewrite LB. reflexivity.
Qed.

(** ** The one-thread properties on the two particles *)

Lemma ids_unique_below_2_31_witness :
  exists st,
    runSimulation (demo_params 2 0 0 6 [mkTimeOut 0 1])
      (fun k => if (k =? 0)%Z
                then Some (pair_frame (demo_params 2 0 0 6 [mkTimeOut 0 1])
                                      (fun _ => 0))
                else None)
    = Some st /\
    difId st = 2%Z /\ ids_fresh (ppool st) 2.
Proof.
  destruct (proj2 (ids_unique_below_2_31
              (demo_params 2 0 0 6 [mkTimeOut 0 1])
              (fun k => if (k =? 0)%Z
                        then Some (pair_frame
                                     (demo_params 2 0 0 6 [mkTimeOut 0 1])
                                     (fun _ => 0))
                        else None)
              ltac:(discriminate)
              ltac:(simpl; lra) ltac:(simpl; lra) ltac:(simpl; lra)
              ltac:(intros t [<- | []]; simpl; lra)
              ltac:(intros t [<- | []]; simpl; lra)
              ltac:(intros t [<- | []]; simpl; lra)
              ltac:(simpl; lra) ltac:(simpl; lra) ltac:(simpl; lra)
              ltac:(intros k fr H; cbv beta in H;
                    destruct (k =? 0)%Z; [|discriminate];
                    injection H as <-; apply pair_frame_well_formed)))
    as (st & R & M & I).
  exists st. split; [exact R|].
  assert (D : difId st = 2%Z).
  { pose proof (newborns_spawned (demo_params 2 0 0 6 [mkTimeOut 0 1])
                  (mkTimeOut 0 1)
                  (pair_frame (demo_params 2 0 0 6 [mkTimeOut 0 1])
                              (fun _ => 0)) 0) as E.
    cbv zeta in E. rewrite pair_counts in E by lra.
    rewrite (phi_below 0 1) in E by lra.
    replace (2 * 1) with (IZR 2) in E by lra.
    replace (0 * 2 * 1) with (IZR 0) in E by lra.
    rewrite !floor_int_IZR in E.
    change (npdiffuse_of [2%Z; 0%Z] <? 0)%Z with false in E. cbv iota in E.
    rewrite spawned_length in E.
    unfold runSimulation in R.
    change (Z.to_nat (nend (demo_params 2 0 0 6 [mkTimeOut 0 1])
                      - nstart (demo_params 2 0 0 6 [mkTimeOut 0 1]) + 1))
      with 11%nat in R.
    cbn [run_loop nstart demo_params Z.eqb] in R.
    unfold frame in R. cbn [tstep_idx difId initial] in R.
    change (next_tstep_idx (demo_params 2 0 0 6 [mkTimeOut 0 1]) 0 0)
      with 0%nat in R.
    cbn [nth timesteps demo_params] in R. rewrite E in R.
    change (0 + 1 =? 0)%Z with false in R. cbv iota in R.
    injection R as <-. reflexivity. }
  split; [exact D|]. rewrite <- D. apply I. rewrite D. lia.
Defined.

Lemma newborn_records_witness :
  exists newborn difId' pi,
    newborns (demo_params 2 0 0 6 [mkTimeOut 0 1]) (mkTimeOut 0 1)
             (pair_frame (demo_params 2 0 0 6 [mkTimeOut 0 1]) (fun _ => 0))
             0 = Some (newborn, difId') /\
    In (nth 0 newborn diffuse0) newborn /\
    In pi (concat (buckets (pair_frame (demo_params 2 0 0 6 [mkTimeOut 0 1])
                                       (fun _ => 0)))) /\
    dTTL (nth 0 newborn diffuse0)
    = trunc_int
        (IZR (nth (Z.to_nat (p_id pi))
                  (ndiffuse_of (demo_params 2 0 0 6 [mkTimeOut 0 1])
                     (mkTimeOut 0 1)
                     (pair_frame (demo_params 2 0 0 6 [mkTimeOut 0 1])
                                 (fun _ => 0)))
                  0%Z)
         * LIFEFIME (demo_params 2 0 0 6 [mkTimeOut 0 1])).
Proof.
  set (sp := demo_params 2 0 0 6 [mkTimeOut 0 1]).
  set (fr := pair_frame sp (fun _ => 0)).
  pose proof (newborns_spawned sp (mkTimeOut 0 1) fr 0) as E.
  cbv zeta in E.
  assert (C : ndiffuse_of sp (mkTimeOut 0 1) fr = [2%Z; 0%Z]).
  { unfold sp, fr. rewrite pair_counts by lra. rewrite (phi_below 0 1) by lra.
    replace (2 * 1) with (IZR 2) by lra.
    replace (0 * 2 * 1) with (IZR 0) by lra.
    now rewrite !floor_int_IZR. }
  rewrite C in E.
  change (npdiffuse_of [2%Z; 0%Z] <? 0)%Z with false in E. cbv iota in E.
  assert (Hc : forall i,
             (i < npoints fr)%nat ->
             (0 <= nth i (ndiffuse_of sp (mkTimeOut 0 1) fr) 0
              < 2147483648)%Z).
  { intros i Hi. rewrite C. destruct i as [|[|[|i]]]; cbn [nth]; lia. }
  assert (Ht : forall i,
             (i < npoints fr)%nat ->
             -2147483649
             < IZR (nth i (ndiffuse_of sp (mkTimeOut 0 1) fr) 0%Z)
               * LIFEFIME sp
             < 2147483648).
  { intros i Hi. rewrite C.
    destruct i as [|[|[|i]]]; cbn [nth LIFEFIME demo_params sp]; lra. }
  match type of E with
  | _ = Some (?nb, ?id) =>
      exists nb, id;
      assert (M : In (nth 0 nb diffuse0) nb)
        by (apply nth_In; rewrite length_map, overlay_length; simpl; lia);
      destruct (newborn_records sp (mkTimeOut 0 1) fr
                  0 nb id (nth 0 nb diffuse0)
                  (pair_frame_well_formed _ _) Hc Ht E M)
        as (pi & Hin & _ & T & _)
  end.
  exists pi. split; [exact E|]. split; [exact M|]. split; [exact Hin|].
  exact T.
Defined.
